(** * news-crawler: the crawl / dedupe / persist pipeline of [crawler.go]

    A shallow embedding of [CrawlNaverFinanceNews] and of the helpers it
    calls ([articleExistsInFirestore], [updateArticleAISummaryToEmpty],
    [saveArticleToFirestore], [cleanUTF8String]).

    - A Go [string] is a sequence of bytes: it is modelled by [string]
      (a list of 8-bit [ascii] characters); no encoding is assumed.
    - Go's [int], [rune] and [byte] are modelled by [Z]; where the source
      relies on the width of a type the wrap-around is written out.
    - The network, the document store, the clock and the random source are
      the outside world: an [Env] of oracles answers every call, a [State]
      carries the contents of the store and the number of calls made so
      far, and every computation returns the effects it has issued. *)

From Stdlib Require Import ZArith Lia Ascii String List Bool.
From Stdlib Require Import DecimalString.
From stdpp Require Import base gmap strings list.

Local Open Scope Z_scope.

(** ** Bytes and strings *)

Module Bytes.

(** [s[i]] as a number, and the byte with a given value. *)
Definition byte (c : ascii) : Z := Z.of_N (N_of_ascii c).
Definition chr (b : Z) : ascii := ascii_of_N (Z.to_N b).

(** [len(s)] *)
Definition len (s : string) : Z := Z.of_nat (String.length s).

(** [s[i]]; every use in the model is guarded by a length test, as it is
    in the source, so the default is never observed. *)
Definition idx (s : string) (i : nat) : Z :=
  match String.get i s with
  | Some c => byte c
  | None => 0
  end.

(** [s[n:]] *)
Fixpoint drop (n : nat) (s : string) : string :=
  match n, s with
  | O, _ => s
  | S n', EmptyString => EmptyString
  | S n', String _ s' => drop n' s'
  end.

(** [s[:n]] *)
Fixpoint take (n : nat) (s : string) : string :=
  match n, s with
  | O, _ => EmptyString
  | S n', EmptyString => EmptyString
  | S n', String c s' => String c (take n' s')
  end.

(** A string built from byte values. *)
Fixpoint of_bytes (l : list Z) : string :=
  match l with
  | [] => EmptyString
  | b :: l' => String (chr b) (of_bytes l')
  end.

End Bytes.

Import Bytes.

(** ** Go's [unicode/utf8], as far as [cleanUTF8String] uses it

    The package is not part of the repository; the definitions below follow
    the Go standard library ([utf8.go]): the same constants, the [first]
    and [acceptRanges] tables, [DecodeRuneInString], [ValidString] and the
    encoding that the conversion [string([]rune)] performs. *)

Module utf8.

Definition RuneError : Z := 0xFFFD.
Definition RuneSelf : Z := 0x80.
Definition MaxRune : Z := 0x10FFFF.
Definition surrogateMin : Z := 0xD800.
Definition surrogateMax : Z := 0xDFFF.

Definition tx : Z := 0x80.
Definition t2 : Z := 0xC0.
Definition t3 : Z := 0xE0.
Definition t4 : Z := 0xF0.

Definition maskx : Z := 0x3F.
Definition mask2 : Z := 0x1F.
Definition mask3 : Z := 0x0F.
Definition mask4 : Z := 0x07.

Definition rune1Max : Z := 0x7F.
Definition rune2Max : Z := 0x7FF.
Definition rune3Max : Z := 0xFFFF.

Definition locb : Z := 0x80.
Definition hicb : Z := 0xBF.

(** Entries of the [first] table: the low three bits are the length of
    the sequence, the high four bits index [acceptRanges]. *)
Definition xx : Z := 0xF1.
Definition as_ : Z := 0xF0.
Definition s1 : Z := 0x02.
Definition s2 : Z := 0x13.
Definition s3 : Z := 0x03.
Definition s4 : Z := 0x23.
Definition s5 : Z := 0x34.
Definition s6 : Z := 0x04.
Definition s7 : Z := 0x44.

(** [first[b]], the 256-entry table written by ranges. *)
Definition first (b : Z) : Z :=
  if b <? 0x80 then as_
  else if b <? 0xC2 then xx
  else if b <? 0xE0 then s1
  else if b =? 0xE0 then s2
  else if b <? 0xED then s3
  else if b =? 0xED then s4
  else if b <? 0xF0 then s3
  else if b =? 0xF0 then s5
  else if b <? 0xF4 then s6
  else if b =? 0xF4 then s7
  else xx.

(** [acceptRanges[i]] as a pair [(lo, hi)]; the array has 16 entries, of
    which the last eleven are zero. *)
Definition acceptRanges (i : Z) : Z * Z :=
  if i =? 0 then (locb, hicb)
  else if i =? 1 then (0xA0, hicb)
  else if i =? 2 then (locb, 0x9F)
  else if i =? 3 then (0x90, hicb)
  else if i =? 4 then (locb, 0x8F)
  else (0, 0).

(** Conversion to [int32], with its wrap-around. *)
Definition int32 (z : Z) : Z := (z + 2^31) mod 2^32 - 2^31.

(** [utf8.DecodeRuneInString(s)]: the rune and its width in bytes. *)
Definition DecodeRuneInString (s : string) : Z * Z :=
  let n := len s in
  if n <? 1 then (RuneError, 0)
  else
    let s0 := idx s 0 in
    let x := first s0 in
    if as_ <=? x then
      (* mask := rune(x) << 31 >> 31 *)
      let mask := Z.shiftr (int32 (Z.shiftl x 31)) 31 in
      (Z.lor (Z.ldiff s0 mask) (Z.land RuneError mask), 1)
    else
      let sz := Z.land x 7 in
      let accept := acceptRanges (Z.shiftr x 4) in
      if n <? sz then (RuneError, 1)
      else
        let b1 := idx s 1 in
        if (b1 <? fst accept) || (snd accept <? b1) then (RuneError, 1)
        else if sz <=? 2 then
          (Z.lor (Z.shiftl (Z.land s0 mask2) 6) (Z.land b1 maskx), 2)
        else
          let b2 := idx s 2 in
          if (b2 <? locb) || (hicb <? b2) then (RuneError, 1)
          else if sz <=? 3 then
            (Z.lor (Z.lor (Z.shiftl (Z.land s0 mask3) 12)
                          (Z.shiftl (Z.land b1 maskx) 6))
                   (Z.land b2 maskx), 3)
          else
            let b3 := idx s 3 in
            if (b3 <? locb) || (hicb <? b3) then (RuneError, 1)
            else
              (Z.lor (Z.lor (Z.lor (Z.shiftl (Z.land s0 mask4) 18)
                                   (Z.shiftl (Z.land b1 maskx) 12))
                            (Z.shiftl (Z.land b2 maskx) 6))
                     (Z.land b3 maskx), 4).

(** Conversion to [byte] (truncation to eight bits). *)
Definition uint8 (z : Z) : Z := Z.land z 0xFF.

(** The bytes appended for one rune by [string([]rune)] (the runtime's
    [encoderune], the same as [utf8.AppendRune]): surrogates and values
    out of range are encoded as [RuneError]. *)
Definition encodeRune (r : Z) : list Z :=
  if (0 <=? r) && (r <=? rune1Max) then [uint8 r]
  else if (0 <=? r) && (r <=? rune2Max) then
    [Z.lor t2 (uint8 (Z.shiftr r 6)); Z.lor tx (Z.land (uint8 r) maskx)]
  else
    let r :=
      if (r <? 0) || (MaxRune <? r)
         || ((surrogateMin <=? r) && (r <=? surrogateMax))
      then RuneError else r in
    if r <=? rune3Max then
      [Z.lor t3 (uint8 (Z.shiftr r 12));
       Z.lor tx (Z.land (uint8 (Z.shiftr r 6)) maskx);
       Z.lor tx (Z.land (uint8 r) maskx)]
    else
      [Z.lor t4 (uint8 (Z.shiftr r 18));
       Z.lor tx (Z.land (uint8 (Z.shiftr r 12)) maskx);
       Z.lor tx (Z.land (uint8 (Z.shiftr r 6)) maskx);
       Z.lor tx (Z.land (uint8 r) maskx)].

(** [utf8.ValidString(s)]: the loop over [i], one sequence per turn; the
    index advances by the width of the sequence, so [fuel] bounds the
    number of turns by the length of the string. *)
Fixpoint validLoop (fuel : nat) (s : string) : bool :=
  match fuel with
  | O => true
  | S fuel' =>
      let n := len s in
      if n <? 1 then true
      else
        let si := idx s 0 in
        if si <? RuneSelf then validLoop fuel' (drop 1 s)
        else
          let x := first si in
          if x =? xx then false
          else
            let size := Z.land x 7 in
            if n <? size then false
            else
              let accept := acceptRanges (Z.shiftr x 4) in
              let c1 := idx s 1 in
              if (c1 <? fst accept) || (snd accept <? c1) then false
              else if size =? 2 then validLoop fuel' (drop 2 s)
              else
                let c2 := idx s 2 in
                if (c2 <? locb) || (hicb <? c2) then false
                else if size =? 3 then validLoop fuel' (drop 3 s)
                else
                  let c3 := idx s 3 in
                  if (c3 <? locb) || (hicb <? c3) then false
                  else validLoop fuel' (drop 4 s)
  end.

Definition ValidString (s : string) : bool :=
  validLoop (String.length s) s.

End utf8.

(** ** [cleanUTF8String] *)

(** The loop [for i, r := range s]: each turn decodes the rune at [i] (an
    invalid byte yields [RuneError] and advances by one byte) and appends
    either a space or the rune to [v]; the result is the encoding of [v].
    The recursion returns the bytes that the turns from [s[i:]] on append. *)
Fixpoint cleanLoop (fuel : nat) (s : string) : list Z :=
  match fuel with
  | O => []
  | S fuel' =>
      match s with
      | EmptyString => []
      | String _ _ =>
          let '(r, width) := utf8.DecodeRuneInString s in
          let out :=
            if r =? utf8.RuneError then
              (* _, size := utf8.DecodeRuneInString(s[i:]) *)
              let size := snd (utf8.DecodeRuneInString s) in
              if size =? 1 then utf8.encodeRune (byte " "%char)
              else utf8.encodeRune r
            else utf8.encodeRune r in
          out ++ cleanLoop fuel' (drop (Z.to_nat width) s)
      end
  end.

Definition cleanUTF8String (s : string) : string :=
  if utf8.ValidString s then s
  else of_bytes (cleanLoop (String.length s) s).

(** ** Go's [strings], [regexp] and [fmt], as far as the crawler uses them *)

Module gostrings.

(** [strings.ReplaceAll(s, old, new)] for a non-empty [old]: the
    occurrences of [old] are replaced from left to right and do not
    overlap; [skip] counts the bytes of a replaced occurrence that are
    still to be passed over. *)
Fixpoint replaceFrom (old new : string) (skip : nat) (s : string) : string :=
  match s with
  | EmptyString => EmptyString
  | String c t =>
      match skip with
      | S k => replaceFrom old new k t
      | O =>
          if String.prefix old s
          then new +:+ replaceFrom old new (String.length old - 1) t
          else String c (replaceFrom old new 0 t)
      end
  end.

Definition ReplaceAll (s old new : string) : string :=
  replaceFrom old new 0 s.

End gostrings.

Module regexp.

(** The character class [\d] of Go's [regexp]: the ASCII digits. *)
Definition isDigit (c : ascii) : bool :=
  (0x30 <=? byte c) && (byte c <=? 0x39).

(** [\d+] is greedy: it takes the longest run of digits. *)
Fixpoint digits (s : string) : string :=
  match s with
  | EmptyString => EmptyString
  | String c t => if isDigit c then String c (digits t) else EmptyString
  end.

(** A match of [lit(\d+)] that starts at the first byte of [s]: the
    text of the capture group. *)
Definition matchHere (lit s : string) : option string :=
  if String.prefix lit s then
    let d := digits (drop (String.length lit) s) in
    if String.eqb d EmptyString then None else Some d
  else None.

(** [regexp.MustCompile(lit + `(\d+)`).FindStringSubmatch(s)]: the
    leftmost match, as the slice of the whole match and of the capture
    group; [nil] when there is none. *)
Fixpoint FindStringSubmatch (lit s : string) : list string :=
  match matchHere lit s with
  | Some d => [lit +:+ d; d]
  | None =>
      match s with
      | EmptyString => []
      | String _ t => FindStringSubmatch lit t
      end
  end.

End regexp.

Module fmt.

(** The verb [%d] applied to an [int]. *)
Definition d (z : Z) : string := NilZero.string_of_int (Z.to_int z).

End fmt.

(** ** Data *)

(** [type Config struct] ([config.go]). *)
Record Config := {
  FirebaseServiceAccountKeyPath : string;
  NaverFinanceBaseURL : string;
  NaverArticleBaseURL : string;
  UserAgent : string
}.

(** [type NewsArticle struct]; [CollectedAt] is a point in time. *)
Record NewsArticle := {
  Title : string;
  Summary : string;
  Content : string;
  AISummary : string;
  Source : string;
  URL : string;
  CollectedAt : Z
}.

(** The errors the functions return. *)
Inductive error :=
| ErrNotInitialized
| ErrGetClient
| ErrCheckExists
| ErrConvert
| ErrUpdate
| ErrSave
| ErrNewRequest (url : string).

(** *** The document store

    The collection [newsArticles]: documents by identifier, a document
    being a map from field names to values. *)
Inductive FieldValue :=
| VString (s : string)
| VTime (t : Z)
| VNull
| VOther.

(** [docSnap.DataTo(&article)]: a field that the document lacks keeps the
    zero value, a field whose value is null is set to the zero value, a
    field whose value has another type is an error. *)
Definition stringField (doc : gmap string FieldValue) (name : string)
  : option string :=
  match doc !! name with
  | None => Some EmptyString
  | Some (VString s) => Some s
  | Some VNull => Some EmptyString
  | Some _ => None
  end.

Definition timeField (doc : gmap string FieldValue) (name : string)
  : option Z :=
  match doc !! name with
  | None => Some 0
  | Some (VTime t) => Some t
  | Some VNull => Some 0
  | Some _ => None
  end.

Definition DataTo (doc : gmap string FieldValue) : option NewsArticle :=
  match stringField doc "title", stringField doc "summary",
        stringField doc "content", stringField doc "aiSummary",
        stringField doc "source", stringField doc "url",
        timeField doc "collectedAt" with
  | Some t, Some s, Some c, Some a, Some src, Some u, Some at_ =>
      Some {| Title := t; Summary := s; Content := c; AISummary := a;
              Source := src; URL := u; CollectedAt := at_ |}
  | _, _, _, _, _, _, _ => None
  end.

(** The document that [Set(ctx, article)] writes. *)
Definition toDocument (a : NewsArticle) : gmap string FieldValue :=
  <["title" := VString (Title a)]>
  (<["summary" := VString (Summary a)]>
  (<["content" := VString (Content a)]>
  (<["aiSummary" := VString (AISummary a)]>
  (<["source" := VString (Source a)]>
  (<["url" := VString (URL a)]>
  (<["collectedAt" := VTime (CollectedAt a)]> ∅)))))).

(** *** Pages, as the selectors of the crawler see them

    The charset of a response is resolved and the body decoded before the
    document is parsed; a parsed document is given here by what the
    crawler's selectors find in it. *)

(** [dd.articleSummary] of a listing node: the text of [span.press] if
    there is one, and the text of the block once [span.press],
    [span.wdate] and [span.bar] are removed. *)
Record SummaryDd := {
  press : option string;
  remainingText : string
}.

(** A node of [ul.newsList li]. *)
Record ListingNode := {
  subjectText : string;              (* dd.articleSubject a, Text() *)
  subjectHref : string;              (* its href, empty when absent *)
  articleSummary : option SummaryDd;
  outerHtml : string
}.

Record HtmlDoc := {
  newsList : list ListingNode;       (* doc.Find("ul.newsList li") *)
  dic_area : option string           (* article#dic_area: its text once the
                                        non-content nodes are removed *)
}.

Inductive Body :=
| BodyUnreadable                     (* io.ReadAll fails *)
| BodyUnparsable                     (* goquery.NewDocumentFromReader fails *)
| BodyDoc (doc : HtmlDoc).

Record Response := {
  StatusCode : Z;
  body : Body
}.

Definition StatusOK : Z := 200.

(** *** The outside world *)

Inductive StoreFault :=
| Healthy
| ClientUnavailable                  (* firestoreApp.Firestore(ctx) fails *)
| RpcFailed.                         (* the call to the store fails *)

(** The answers of the outside world; [n] is the number of calls made
    before. The library functions that the model leaves open are here
    too: they are pure. *)
Record Env := {
  firestoreApp : bool;                       (* firestoreApp != nil *)
  storeFault : nat -> StoreFault;
  NewRequest_ok : string -> bool;            (* http.NewRequest("GET", url, nil) *)
  clientDo : nat -> string -> option Response; (* client.Do(req) *)
  random : nat -> Z;                         (* math/rand *)
  now : nat -> Z;                            (* time.Now() *)
  TrimSpace : string -> string               (* strings.TrimSpace *)
}.

(** What the crawler logs, one constructor per call of [log]. *)
Inductive LogMsg :=
| LogStart (pages : Z)
| LogPageRequestCreateError (pageNum : Z)
| LogPageRequestError (pageNum : Z)
| LogNetworkIssue
| LogPageStatusError (pageNum code : Z)
| LogPageReadError (pageNum : Z)
| LogPageParseError (pageNum : Z)
| LogNoNewsList (pageNum : Z)
| LogMissingElements (itemHtml : string)
| LogNoIDs (originalLink : string)
| LogExistenceCheckError (err : error)
| LogUpdateWarning (err : error)
| LogAlreadyExists (url : string)
| LogArticleRequestCreateError
| LogArticleLoadError (attempt : Z) (url : string)
| LogArticleStatusError (code : Z) (url : string)
| LogArticleReadError
| LogArticleParseError (url : string)
| LogNoBodyDiv (url : string)
| LogSaveError (err : error)
| LogPageComplete (pageNum count : Z)
| LogComplete
| LogConvertWarning
| LogUpdated (url : string)
| LogSaveAttemptFailed (title : string)
| LogInvalidUTF8Hint (title summary preview source : string)
| LogSaved (title : string).

(** The effects of a run, in the order in which they are issued. A request
    carries the number of the call, which names the answer it got. *)
Inductive Event :=
| EvFetchListing (call : nat) (pageNum : Z) (url : string)
| EvFetchArticle (call : nat) (url : string)
| EvStoreGet (docID : string)
| EvStoreSet (docID : string) (article : NewsArticle)
| EvStoreUpdate (docID path value : string)
| EvSleep (ms : Z)
| EvLog (m : LogMsg).

Record State := {
  store : gmap string (gmap string FieldValue);
  calls : nat
}.

(** Computations: from a state to a result, the next state and the effects
    issued. *)
Definition M (A : Type) : Type := State -> A * State * list Event.

Definition ret {A} (a : A) : M A := fun s => (a, s, []).

Definition bind {A B} (m : M A) (k : A -> M B) : M B :=
  fun s =>
    let '(a, s1, e1) := m s in
    let '(b, s2, e2) := k a s1 in
    (b, s2, e1 ++ e2).

Notation "'do' x <- m ; k" := (bind m (fun x => k))
  (at level 10, x name, m at level 100, k at level 200).
Notation "'do' ' p <- m ; k" := (bind m (fun x => match x with p => k end))
  (at level 10, p pattern, m at level 100, k at level 200).
Notation "m >> k" := (bind m (fun _ => k))
  (at level 100, k at level 200, right associativity).

Definition emit (e : Event) : M unit := fun s => (tt, s, [e]).
Definition log (m : LogMsg) : M unit := emit (EvLog m).
Definition sleep (ms : Z) : M unit := emit (EvSleep ms).
Definition tick : M nat :=
  fun s => (calls s, {| store := store s; calls := S (calls s) |}, []).
Definition getStore : M (gmap string (gmap string FieldValue)) :=
  fun s => (store s, s, []).
Definition putStore (st : gmap string (gmap string FieldValue)) : M unit :=
  fun s => (tt, {| store := st; calls := calls s |}, []).

(** [rand.Intn(n)] *)
Definition Intn (env : Env) (n : Z) : M Z :=
  do c <- tick; ret (random env c mod n).

(** [time.Now()] *)
Definition Now (env : Env) : M Z :=
  do c <- tick; ret (now env c).

(** ** The store operations of [crawler.go] *)

(** The document identifier, as [articleExistsInFirestore] computes it. *)
Definition existsDocID (url : string) : string :=
  let docID := gostrings.ReplaceAll url "/" "_" in
  let docID := gostrings.ReplaceAll docID ":" "_" in
  let docID := gostrings.ReplaceAll docID "?" "_" in
  let docID := gostrings.ReplaceAll docID "&" "_" in
  let docID := gostrings.ReplaceAll docID "=" "_" in
  let docID := gostrings.ReplaceAll docID "#" "_" in
  let docID := gostrings.ReplaceAll docID "%" "_" in
  let docID := gostrings.ReplaceAll docID "." "_" in
  if 500 <? len docID then take 500 docID else docID.

(** The same, as [updateArticleAISummaryToEmpty] computes it. *)
Definition updateDocID (url : string) : string :=
  let docID := gostrings.ReplaceAll url "/" "_" in
  let docID := gostrings.ReplaceAll docID ":" "_" in
  let docID := gostrings.ReplaceAll docID "?" "_" in
  let docID := gostrings.ReplaceAll docID "&" "_" in
  let docID := gostrings.ReplaceAll docID "=" "_" in
  let docID := gostrings.ReplaceAll docID "#" "_" in
  let docID := gostrings.ReplaceAll docID "%" "_" in
  let docID := gostrings.ReplaceAll docID "." "_" in
  if 500 <? len docID then take 500 docID else docID.

(** The same, as [saveArticleToFirestore] computes it from [article.URL]. *)
Definition saveDocID (article : NewsArticle) : string :=
  let docID := gostrings.ReplaceAll (URL article) "/" "_" in
  let docID := gostrings.ReplaceAll docID ":" "_" in
  let docID := gostrings.ReplaceAll docID "?" "_" in
  let docID := gostrings.ReplaceAll docID "&" "_" in
  let docID := gostrings.ReplaceAll docID "=" "_" in
  let docID := gostrings.ReplaceAll docID "#" "_" in
  let docID := gostrings.ReplaceAll docID "%" "_" in
  let docID := gostrings.ReplaceAll docID "." "_" in
  if 500 <? len docID then take 500 docID else docID.

(** [articleExistsInFirestore(url)]: whether the article exists, the
    stored article if it could be read, and an error. [docRef.Get] answers
    [NotFound] for a document that is not in the collection, so the
    snapshot of a successful [Get] exists. A failed call leaves the store
    as it was. *)
Definition articleExistsInFirestore (env : Env) (url : string)
  : M (bool * option NewsArticle * option error) :=
  if negb (firestoreApp env) then ret (false, None, Some ErrNotInitialized)
  else
    do c <- tick;
    match storeFault env c with
    | ClientUnavailable => ret (false, None, Some ErrGetClient)
    | fault =>
        let docID := existsDocID url in
        emit (EvStoreGet docID) >>
        match fault with
        | RpcFailed => ret (false, None, Some ErrCheckExists)
        | _ =>
            do st <- getStore;
            match st !! docID with
            | None => ret (false, None, None)
            | Some doc =>
                match DataTo doc with
                | None =>
                    log LogConvertWarning >>
                    ret (true, None, Some ErrConvert)
                | Some existingArticle =>
                    ret (true, Some existingArticle, None)
                end
            end
        end
    end.

(** [updateArticleAISummaryToEmpty(url)]: [Update] of the one field
    [aiSummary]; it fails on a document that does not exist. *)
Definition updateArticleAISummaryToEmpty (env : Env) (url : string)
  : M (option error) :=
  if negb (firestoreApp env) then ret (Some ErrNotInitialized)
  else
    do c <- tick;
    match storeFault env c with
    | ClientUnavailable => ret (Some ErrGetClient)
    | fault =>
        let docID := updateDocID url in
        emit (EvStoreUpdate docID "aiSummary" "") >>
        match fault with
        | RpcFailed => ret (Some ErrUpdate)
        | _ =>
            do st <- getStore;
            match st !! docID with
            | None => ret (Some ErrUpdate)
            | Some doc =>
                putStore (<[docID := <["aiSummary" := VString ""]> doc]> st) >>
                log (LogUpdated url) >>
                ret None
            end
        end
    end.

(** [saveArticleToFirestore(article)]: [Set], which overwrites the whole
    document. *)
Definition saveArticleToFirestore (env : Env) (article : NewsArticle)
  : M (option error) :=
  if negb (firestoreApp env) then ret (Some ErrNotInitialized)
  else
    do c <- tick;
    match storeFault env c with
    | ClientUnavailable => ret (Some ErrGetClient)
    | fault =>
        let docID := saveDocID article in
        emit (EvStoreSet docID article) >>
        match fault with
        | RpcFailed =>
            log (LogSaveAttemptFailed (Title article)) >>
            let contentPreviewLength :=
              if len (Content article) <? 100 then len (Content article)
              else 100 in
            log (LogInvalidUTF8Hint (Title article) (Summary article)
                   (take (Z.to_nat contentPreviewLength) (Content article))
                   (Source article)) >>
            ret (Some ErrSave)
        | _ =>
            do st <- getStore;
            putStore (<[docID := toDocument article]> st) >>
            log (LogSaved (Title article)) >>
            ret None
        end
    end.

(** ** [CrawlNaverFinanceNews] *)

(** The canonical URL of an article, from the link of the listing
    (lines 371-381, without the warning that the item callback logs). *)
Definition reconstructURL (cfg : Config) (originalLink : string) : string :=
  let articleIDMatch := regexp.FindStringSubmatch "article_id=" originalLink in
  let officeIDMatch := regexp.FindStringSubmatch "office_id=" originalLink in
  if (1 <? Z.of_nat (length articleIDMatch))
     && (1 <? Z.of_nat (length officeIDMatch))
  then NaverArticleBaseURL cfg +:+ "/" +:+ nth 1 officeIDMatch ""
       +:+ "/" +:+ nth 1 articleIDMatch ""
  else "https://finance.naver.com" +:+ originalLink.

(** The loop [for retry := 0; retry < 3; retry++] that fetches the body of
    the article: the value of [fullContent] when the loop is left. [fuel]
    bounds the number of turns; three are enough. *)
Fixpoint fetchLoop (env : Env) (fullArticleURL : string) (fuel : nat)
    (retry : Z) (fullContent : string) : M string :=
  match fuel with
  | O => ret fullContent
  | S fuel' =>
      if retry <? 3 then
        if negb (NewRequest_ok env fullArticleURL) then
          log LogArticleRequestCreateError >> ret fullContent
        else
          do c <- tick;
          emit (EvFetchArticle c fullArticleURL) >>
          match clientDo env c fullArticleURL with
          | None =>
              log (LogArticleLoadError (retry + 1) fullArticleURL) >>
              (if retry <? 2 then sleep ((1 + retry) * 1000) else ret tt) >>
              fetchLoop env fullArticleURL fuel' (retry + 1) fullContent
          | Some respArticle =>
              if negb (StatusCode respArticle =? StatusOK) then
                log (LogArticleStatusError (StatusCode respArticle)
                       fullArticleURL) >>
                ret fullContent
              else
                match body respArticle with
                | BodyUnreadable => log LogArticleReadError >> ret fullContent
                | BodyUnparsable =>
                    log (LogArticleParseError fullArticleURL) >>
                    ret fullContent
                | BodyDoc articleDoc =>
                    match dic_area articleDoc with
                    | Some text => ret (TrimSpace env text)
                    | None =>
                        log (LogNoBodyDiv fullArticleURL) >> ret fullContent
                    end
                end
          end
      else ret fullContent
  end.

(** The callback of [newsItems.Each], for one listing node; [allNews] is
    the slice that the callback appends to. *)
Definition processItem (env : Env) (cfg : Config) (s_item : ListingNode)
    (allNews : list NewsArticle) : M (list NewsArticle) :=
  let title := TrimSpace env (subjectText s_item) in
  let originalLink := subjectHref s_item in
  let sourceText :=
    match articleSummary s_item with
    | Some dd =>
        match press dd with
        | Some t => TrimSpace env t
        | None => EmptyString
        end
    | None => EmptyString
    end in
  let summaryText :=
    match articleSummary s_item with
    | Some dd => TrimSpace env (remainingText dd)
    | None => EmptyString
    end in
  if String.eqb title "" || String.eqb summaryText ""
     || String.eqb sourceText "" || String.eqb originalLink ""
  then log (LogMissingElements (outerHtml s_item)) >> ret allNews
  else
    let articleIDMatch := regexp.FindStringSubmatch "article_id=" originalLink in
    let officeIDMatch := regexp.FindStringSubmatch "office_id=" originalLink in
    (if (1 <? Z.of_nat (length articleIDMatch))
        && (1 <? Z.of_nat (length officeIDMatch))
     then ret tt else log (LogNoIDs originalLink)) >>
    let fullArticleURL := reconstructURL cfg originalLink in
    do '(exists_, existingArticle, err) <-
      articleExistsInFirestore env fullArticleURL;
    match err with
    | Some e => log (LogExistenceCheckError e) >> ret allNews
    | None =>
        if exists_ then
          (match existingArticle with
           | Some a =>
               if String.eqb (AISummary a) "" then
                 do err <- updateArticleAISummaryToEmpty env fullArticleURL;
                 match err with
                 | Some e => log (LogUpdateWarning e)
                 | None => ret tt
                 end
               else ret tt
           | None => ret tt
           end) >>
          log (LogAlreadyExists fullArticleURL) >> ret allNews
        else
          do fullContent <-
            (if negb (String.eqb fullArticleURL "")
             then fetchLoop env fullArticleURL 3 0 summaryText
             else ret summaryText);
          let title := cleanUTF8String title in
          let summaryText := cleanUTF8String summaryText in
          let fullContent := cleanUTF8String fullContent in
          let sourceText := cleanUTF8String sourceText in
          let fullArticleURL := cleanUTF8String fullArticleURL in
          do collectedAt <- Now env;
          let newsArticle :=
            {| Title := title; Summary := summaryText;
               Content := fullContent; AISummary := "";
               Source := sourceText; URL := fullArticleURL;
               CollectedAt := collectedAt |} in
          do err <- saveArticleToFirestore env newsArticle;
          match err with
          | Some e => log (LogSaveError e) >> ret allNews
          | None =>
              do r <- Intn env 500;
              sleep (r + 200) >>
              ret (allNews ++ [newsArticle])
          end
    end.

(** [newsItems.Each(...)]: the callback on every node, in order. *)
Fixpoint Each (env : Env) (cfg : Config) (newsItems : list ListingNode)
    (allNews : list NewsArticle) : M (list NewsArticle) :=
  match newsItems with
  | [] => ret allNews
  | s_item :: rest =>
      do allNews' <- processItem env cfg s_item allNews;
      Each env cfg rest allNews'
  end.

(** [fmt.Sprintf("%s?page=%d", s.Config.NaverFinanceBaseURL, pageNum)] *)
Definition pageURL (cfg : Config) (pageNum : Z) : string :=
  NaverFinanceBaseURL cfg +:+ "?page=" +:+ fmt.d pageNum.

(** The statements after the page loop. *)
Definition finish (allNews : list NewsArticle)
  : M (list NewsArticle * option error) :=
  log LogComplete >> ret (allNews, None).

(** The loop [for pageNum := 1; pageNum <= pages; pageNum++], from
    [pageNum] on, followed by the statements after it. The counter cannot
    wrap around before [pages] turns are made. [fuel] bounds the number of
    turns. *)
Fixpoint pageLoop (env : Env) (cfg : Config) (pages : Z) (fuel : nat)
    (pageNum : Z) (allNews : list NewsArticle)
  : M (list NewsArticle * option error) :=
  match fuel with
  | O => finish allNews
  | S fuel' =>
      if pageNum <=? pages then
        let url := pageURL cfg pageNum in
        if negb (NewRequest_ok env url) then
          log (LogPageRequestCreateError pageNum) >>
          ret (allNews, Some (ErrNewRequest url))
        else
          do c <- tick;
          emit (EvFetchListing c pageNum url) >>
          match clientDo env c url with
          | None =>
              log (LogPageRequestError pageNum) >>
              log LogNetworkIssue >>
              finish allNews
          | Some resp =>
              if negb (StatusCode resp =? StatusOK) then
                log (LogPageStatusError pageNum (StatusCode resp)) >>
                finish allNews
              else
                match body resp with
                | BodyUnreadable =>
                    log (LogPageReadError pageNum) >> finish allNews
                | BodyUnparsable =>
                    log (LogPageParseError pageNum) >> finish allNews
                | BodyDoc doc =>
                    let newsItems := newsList doc in
                    if Z.of_nat (length newsItems) =? 0 then
                      log (LogNoNewsList pageNum) >> finish allNews
                    else
                      do allNews' <- Each env cfg newsItems allNews;
                      log (LogPageComplete pageNum
                             (Z.of_nat (length allNews'))) >>
                      do r <- Intn env 3;
                      sleep ((r + 2) * 1000) >>
                      pageLoop env cfg pages fuel' (pageNum + 1) allNews'
                end
          end
      else finish allNews
  end.

Definition CrawlNaverFinanceNews (env : Env) (cfg : Config) (pages : Z)
  : M (list NewsArticle * option error) :=
  log (LogStart pages) >>
  pageLoop env cfg pages (Z.to_nat pages) 1 [].

(** * Specification

    The notions that the statements below use: well-formed UTF-8 from the
    Unicode standard, the repair that the sanitizer is specified to
    perform, the store key and the tokens of a listing link as the
    specification words them, and the readings of a trace. *)

(** ** Well-formed UTF-8 *)

(** The byte values of a string. *)
Fixpoint bytes_of (s : string) : list Z :=
  match s with
  | EmptyString => []
  | String c s' => byte c :: bytes_of s'
  end.

Module WellFormed.

(** The well-formed byte sequences of the Unicode standard (table 3-7). *)
Definition between (lo hi b : Z) : bool := (lo <=? b) && (b <=? hi).
Definition trail (b : Z) : bool := between 0x80 0xBF b.
Definition seq1 (b0 : Z) : bool := between 0x00 0x7F b0.
Definition seq2 (b0 b1 : Z) : bool := between 0xC2 0xDF b0 && trail b1.
Definition seq3 (b0 b1 b2 : Z) : bool :=
  ((b0 =? 0xE0) && between 0xA0 0xBF b1
   || between 0xE1 0xEC b0 && trail b1
   || (b0 =? 0xED) && between 0x80 0x9F b1
   || between 0xEE 0xEF b0 && trail b1)
  && trail b2.
Definition seq4 (b0 b1 b2 b3 : Z) : bool :=
  ((b0 =? 0xF0) && between 0x90 0xBF b1
   || between 0xF1 0xF3 b0 && trail b1
   || (b0 =? 0xF4) && between 0x80 0x8F b1)
  && trail b2 && trail b3.

(** The width of the well-formed sequence that [s] starts with, if it
    starts with one. *)
Definition headWidth (s : string) : option nat :=
  match s with
  | EmptyString => None
  | String c0 t0 =>
      if seq1 (byte c0) then Some 1%nat
      else match t0 with
      | EmptyString => None
      | String c1 t1 =>
          if seq2 (byte c0) (byte c1) then Some 2%nat
          else match t1 with
          | EmptyString => None
          | String c2 t2 =>
              if seq3 (byte c0) (byte c1) (byte c2) then Some 3%nat
              else match t2 with
              | EmptyString => None
              | String c3 _ =>
                  if seq4 (byte c0) (byte c1) (byte c2) (byte c3)
                  then Some 4%nat else None
              end
          end
      end
  end.

(** The same, from the length and the first four bytes. *)
Definition headN (n b0 b1 b2 b3 : Z) : option nat :=
  if (1 <=? n) && seq1 b0 then Some 1%nat
  else if (2 <=? n) && seq2 b0 b1 then Some 2%nat
  else if (3 <=? n) && seq3 b0 b1 b2 then Some 3%nat
  else if (4 <=? n) && seq4 b0 b1 b2 b3 then Some 4%nat
  else None.

End WellFormed.

(** Well-formed UTF-8: a concatenation of well-formed sequences. *)
Inductive UTF8 : string -> Prop :=
| UTF8_empty : UTF8 EmptyString
| UTF8_seq s k :
    WellFormed.headWidth s = Some k -> UTF8 (drop k s) -> UTF8 s.

(** The repair of the sanitizer: a well-formed sequence is kept, a byte
    that starts none is replaced by one space. *)
Inductive Repaired : string -> string -> Prop :=
| Repaired_empty : Repaired EmptyString EmptyString
| Repaired_keep s k out :
    WellFormed.headWidth s = Some k ->
    Repaired (drop k s) out ->
    Repaired s (take k s +:+ out)
| Repaired_space c t out :
    WellFormed.headWidth (String c t) = None ->
    Repaired t out ->
    Repaired (String c t) (String " "%char out).

(** The repair as a function; the fuel is the length of the string. *)
Fixpoint repair (fuel : nat) (s : string) : string :=
  match fuel with
  | O => EmptyString
  | S fuel' =>
      match s with
      | EmptyString => EmptyString
      | String _ t =>
          match WellFormed.headWidth s with
          | Some k => take k s +:+ repair fuel' (drop k s)
          | None => String " "%char (repair fuel' t)
          end
      end
  end.

(** One turn of [utf8.DecodeRuneInString] and of the loop of
    [utf8.ValidString], as functions of the length and of the first four
    bytes of the string. *)
Definition decodeN (n b0 b1 b2 b3 : Z) : Z * Z :=
  if n <? 1 then (utf8.RuneError, 0)
  else
    let x := utf8.first b0 in
    if utf8.as_ <=? x then
      let mask := Z.shiftr (utf8.int32 (Z.shiftl x 31)) 31 in
      (Z.lor (Z.ldiff b0 mask) (Z.land utf8.RuneError mask), 1)
    else
      let sz := Z.land x 7 in
      let accept := utf8.acceptRanges (Z.shiftr x 4) in
      if n <? sz then (utf8.RuneError, 1)
      else if (b1 <? fst accept) || (snd accept <? b1)
      then (utf8.RuneError, 1)
      else if sz <=? 2 then
        (Z.lor (Z.shiftl (Z.land b0 utf8.mask2) 6) (Z.land b1 utf8.maskx), 2)
      else if (b2 <? utf8.locb) || (utf8.hicb <? b2)
      then (utf8.RuneError, 1)
      else if sz <=? 3 then
        (Z.lor (Z.lor (Z.shiftl (Z.land b0 utf8.mask3) 12)
                      (Z.shiftl (Z.land b1 utf8.maskx) 6))
               (Z.land b2 utf8.maskx), 3)
      else if (b3 <? utf8.locb) || (utf8.hicb <? b3)
      then (utf8.RuneError, 1)
      else
        (Z.lor (Z.lor (Z.lor (Z.shiftl (Z.land b0 utf8.mask4) 18)
                             (Z.shiftl (Z.land b1 utf8.maskx) 12))
                      (Z.shiftl (Z.land b2 utf8.maskx) 6))
               (Z.land b3 utf8.maskx), 4).

Definition validStep (n b0 b1 b2 b3 : Z) : option nat :=
  if b0 <? utf8.RuneSelf then Some 1%nat
  else
    let x := utf8.first b0 in
    if x =? utf8.xx then None
    else
      let size := Z.land x 7 in
      if n <? size then None
      else
        let accept := utf8.acceptRanges (Z.shiftr x 4) in
        if (b1 <? fst accept) || (snd accept <? b1) then None
        else if size =? 2 then Some 2%nat
        else if (b2 <? utf8.locb) || (utf8.hicb <? b2) then None
        else if size =? 3 then Some 3%nat
        else if (b3 <? utf8.locb) || (utf8.hicb <? b3) then None
        else Some 4%nat.

(** What one turn does, against the well-formed head. *)
Definition StepN (n b0 b1 b2 b3 : Z) : Prop :=
  match WellFormed.headN n b0 b1 b2 b3 with
  | Some k =>
      validStep n b0 b1 b2 b3 = Some k
      /\ exists r, decodeN n b0 b1 b2 b3 = (r, Z.of_nat k)
                   /\ utf8.encodeRune r = firstn k [b0; b1; b2; b3]
                   /\ (r = utf8.RuneError -> k <> 1%nat)
  | None =>
      validStep n b0 b1 b2 b3 = None
      /\ decodeN n b0 b1 b2 b3 = (utf8.RuneError, 1)
  end.

(** ** The store key *)

Fixpoint smap (f : ascii -> ascii) (s : string) : string :=
  match s with
  | EmptyString => EmptyString
  | String c t => String (f c) (smap f t)
  end.

(** The characters that the store key replaces. *)
Definition reserved (c : ascii) : bool :=
  existsb (Ascii.eqb c) (list_ascii_of_string "/:?&=#%.").

(** The store key as the specification words it: every reserved character
    replaced by an underscore, and the result cut to 500 bytes. *)
Definition storeKey (url : string) : string :=
  take 500 (smap (fun c => if reserved c then "_"%char else c) url).

(** ** The identifiers of a listing link *)

Definition decimal (c : ascii) : bool :=
  existsb (Ascii.eqb c) (list_ascii_of_string "0123456789").

Fixpoint allDecimal (s : string) : bool :=
  match s with
  | EmptyString => true
  | String c t => decimal c && allDecimal t
  end.

Definition startsDecimal (s : string) : bool :=
  match s with
  | EmptyString => false
  | String c _ => decimal c
  end.

(** [s] holds the token [lit<digits>] after [pre], with the digits [d]. *)
Definition TokenAt (lit s pre d post : string) : Prop :=
  s = pre +:+ lit +:+ d +:+ post /\ d <> EmptyString /\ allDecimal d = true.

Definition HasToken (lit s : string) : Prop :=
  exists pre d post, TokenAt lit s pre d post.

(** The identifier that the pattern captures: the longest run of digits of
    the leftmost token. *)
Definition FirstToken (lit s d : string) : Prop :=
  exists pre post,
    TokenAt lit s pre d post
    /\ startsDecimal post = false
    /\ forall pre' d' post', TokenAt lit s pre' d' post' ->
         (String.length pre <= String.length pre')%nat.

(** ** Readings of a run *)

Definition value {A} (r : A * State * list Event) : A := fst (fst r).
Definition final {A} (r : A * State * list Event) : State := snd (fst r).
Definition events {A} (r : A * State * list Event) : list Event := snd r.

(** [post m s Q]: the outcome of [m] from [s] satisfies [Q]. *)
Definition post {A} (m : M A) (s : State)
    (Q : A -> State -> list Event -> Prop) : Prop :=
  let '(a, s', evs) := m s in Q a s' evs.

(** The writes to the store: [Set] and [Update]. *)
Definition storeMutation (e : Event) : bool :=
  match e with
  | EvStoreSet _ _ | EvStoreUpdate _ _ _ => true
  | _ => false
  end.

Definition storeOp (e : Event) : bool :=
  match e with
  | EvStoreGet _ | EvStoreSet _ _ | EvStoreUpdate _ _ _ => true
  | _ => false
  end.

(** The effects of the page loop itself, as opposed to those of the item
    callback. *)
Definition pageLevel (e : Event) : bool :=
  match e with
  | EvFetchListing _ _ _ => true
  | EvLog m =>
      match m with
      | LogStart _ | LogPageRequestCreateError _ | LogPageRequestError _
      | LogNetworkIssue | LogPageStatusError _ _ | LogPageReadError _
      | LogPageParseError _ | LogNoNewsList _ | LogPageComplete _ _
      | LogComplete => true
      | _ => false
      end
  | _ => false
  end.

(** The requests and the sleeps of a trace. *)
Definition netOrSleep (e : Event) : bool :=
  match e with
  | EvFetchArticle _ _ | EvFetchListing _ _ _ | EvSleep _ => true
  | _ => false
  end.

Definition isFetchArticle (e : Event) : bool :=
  match e with EvFetchArticle _ _ => true | _ => false end.

(** What a response holds for the article loop: the text of the body
    container, if the status is 200 and the document has one. *)
Definition bodyOf (r : option Response) : option string :=
  match r with
  | Some resp =>
      if StatusCode resp =? StatusOK then
        match body resp with
        | BodyDoc doc => dic_area doc
        | _ => None
        end
      else None
  | None => None
  end.

(** The text of the body container that the first attempt of a trace to
    find one found. *)
Fixpoint foundBody (env : Env) (evs : list Event) : option string :=
  match evs with
  | [] => None
  | EvFetchArticle c url :: rest =>
      match bodyOf (clientDo env c url) with
      | Some text => Some text
      | None => foundBody env rest
      end
  | _ :: rest => foundBody env rest
  end.

(** The listing nodes that the page loop finds in a response. *)
Definition listingNodes (r : option Response) : option (list ListingNode) :=
  match r with
  | Some resp =>
      if StatusCode resp =? StatusOK then
        match body resp with
        | BodyDoc doc => Some (newsList doc)
        | _ => None
        end
      else None
  | None => None
  end.

(** The teaser and the source of a listing node. *)
Definition teaserOf (env : Env) (s_item : ListingNode) : string :=
  match articleSummary s_item with
  | Some dd => TrimSpace env (remainingText dd)
  | None => EmptyString
  end.

Definition sourceOf (env : Env) (s_item : ListingNode) : string :=
  match articleSummary s_item with
  | Some dd =>
      match press dd with
      | Some t => TrimSpace env t
      | None => EmptyString
      end
  | None => EmptyString
  end.

(** An item with its four fields, as the validation of the callback
    requires. *)
Definition wellFormedItem (env : Env) (s_item : ListingNode) : Prop :=
  TrimSpace env (subjectText s_item) <> EmptyString
  /\ teaserOf env s_item <> EmptyString
  /\ sourceOf env s_item <> EmptyString
  /\ subjectHref s_item <> EmptyString.

(** The duplicate check fails: the store cannot be reached, the lookup
    fails, or the stored document cannot be converted. *)
Definition DuplicateCheckFails (env : Env) (s : State) (url : string) : Prop :=
  firestoreApp env = false
  \/ storeFault env (calls s) = ClientUnavailable
  \/ storeFault env (calls s) = RpcFailed
  \/ (storeFault env (calls s) = Healthy
      /\ exists doc, store s !! existsDocID url = Some doc
                     /\ DataTo doc = None).

(** ** A small world

    The configuration that [LoadConfig] returns by default, one listing
    node, and environments that serve it. None of the texts has white
    space at either end, so [strings.TrimSpace] returns them unchanged. *)

Module Example.

Definition cfg : Config := {|
  FirebaseServiceAccountKeyPath := "firebase-service-account-key.json";
  NaverFinanceBaseURL := "https://finance.naver.com/news/mainnews.naver";
  NaverArticleBaseURL := "https://n.news.naver.com/mnews/article";
  UserAgent := "Mozilla/5.0"
|}.

Definition link : string :=
  "/news/news_read.naver?article_id=0005023871&office_id=018&mode=mainnews".

Definition item : ListingNode := {|
  subjectText := "Title";
  subjectHref := link;
  articleSummary := Some {| press := Some "Press"; remainingText := "teaser" |};
  outerHtml := "<li></li>"
|}.

Definition articleURL : string :=
  "https://n.news.naver.com/mnews/article/018/0005023871".

Definition articleKey : string :=
  "https___n_news_naver_com_mnews_article_018_0005023871".

Definition listing (nodes : list ListingNode) : Response :=
  {| StatusCode := 200;
     body := BodyDoc {| newsList := nodes; dic_area := None |} |}.

Definition article (text : string) : Response :=
  {| StatusCode := 200;
     body := BodyDoc {| newsList := []; dic_area := Some text |} |}.

(** A site that answers every listing request with [page] and every other
    request with [other]. *)
Definition site (page other : option Response) (n : nat) (url : string)
  : option Response :=
  if String.prefix (NaverFinanceBaseURL cfg) url then page else other.

Definition world (serve : nat -> string -> option Response)
    (fault : nat -> StoreFault) : Env := {|
  firestoreApp := true;
  storeFault := fault;
  NewRequest_ok := fun _ => true;
  clientDo := serve;
  random := fun _ => 0;
  now := fun n => Z.of_nat n;
  TrimSpace := fun s => s
|}.

Definition healthy (n : nat) : StoreFault := Healthy.
Definition failing (n : nat) : StoreFault := RpcFailed.

(** A site that lists [item] on every page and serves its article, in a
    world where the request of the second listing page cannot be built. *)
Definition secondPageUnbuildable : Env := {|
  firestoreApp := true;
  storeFault := healthy;
  NewRequest_ok := fun url => negb (String.eqb url (pageURL cfg 2));
  clientDo := site (Some (listing [item])) (Some (article "BODY"));
  random := fun _ => 0;
  now := fun n => Z.of_nat n;
  TrimSpace := fun s => s
|}.

Definition empty : State := {| store := ∅; calls := 0 |}.

(** A stored article that was written without the field [aiSummary]. *)
Definition oldDocument : gmap string FieldValue :=
  <["title" := VString "Title"]>
  (<["summary" := VString "teaser"]>
  (<["content" := VString "body"]>
  (<["source" := VString "Press"]>
  (<["url" := VString articleURL]>
  (<["collectedAt" := VTime 7]> ∅))))).

Definition stored : State :=
  {| store := <[articleKey := oldDocument]> ∅; calls := 0 |}.

(** The record that the callback saves for [item] as the first item of a
    run on an empty store, by its content. *)
Definition savedArticle (content : string) : NewsArticle :=
  {| Title := "Title"; Summary := "teaser"; Content := content;
     AISummary := ""; Source := "Press"; URL := articleURL;
     CollectedAt := 2 |}.

End Example.

(** * More of the program

    Further readings of a run, and the code around the crawler: the handler
    of [main.go] that starts a run, [LoadConfig], [SearchNewsArticles], and
    the library functions that they call. The start-up of the server
    ([InitializeFirestoreClient], the listening port) and the CORS
    middleware that one version of [main.go] installs are left out; the
    handler is the same in both versions of [main.go]. *)

(** ** Counting the effects of a run *)

Definition isStoreGet (e : Event) : bool :=
  match e with EvStoreGet _ => true | _ => false end.

Definition isStoreSet (e : Event) : bool :=
  match e with EvStoreSet _ _ => true | _ => false end.

Definition isStoreUpdate (e : Event) : bool :=
  match e with EvStoreUpdate _ _ _ => true | _ => false end.

Definition count (p : Event -> bool) (evs : list Event) : nat :=
  length (List.filter p evs).

(** The page numbers of the listing requests of a trace, in order. *)
Fixpoint listingPages (evs : list Event) : list Z :=
  match evs with
  | [] => []
  | EvFetchListing _ pageNum _ :: rest => pageNum :: listingPages rest
  | _ :: rest => listingPages rest
  end.

(** The page numbers [first], [first + 1], ... ([n] of them). *)
Fixpoint pagesFrom (first : Z) (n : nat) : list Z :=
  match n with
  | O => []
  | S n' => first :: pagesFrom (first + 1) n'
  end.

(** An effect that the page loop issues itself: a listing request, a log
    line of the loop, or the pause between two pages. *)
Definition pageEffect (e : Event) : Prop :=
  pageLevel e = true
  \/ exists r, 0 <= r < 3 /\ e = EvSleep ((r + 2) * 1000).

(** A record as the item callback builds it: every text field is valid
    UTF-8, the summary of the summarization server is empty, and the
    fields that the validation requires are not empty. *)
Definition sanitized (a : NewsArticle) : Prop :=
  utf8.ValidString (Title a) = true
  /\ utf8.ValidString (Summary a) = true
  /\ utf8.ValidString (Content a) = true
  /\ utf8.ValidString (Source a) = true
  /\ utf8.ValidString (URL a) = true
  /\ AISummary a = EmptyString
  /\ Title a <> EmptyString
  /\ Summary a <> EmptyString
  /\ Source a <> EmptyString
  /\ URL a <> EmptyString.

(** The store is out of reach for a whole run. *)
Definition StoreDown (env : Env) : Prop :=
  firestoreApp env = false \/ forall n, storeFault env n <> Healthy.

(** What a run may do to a document that was stored before: leave it as
    it is, or set the field [aiSummary] to the empty string where it was
    missing or null. *)
Definition keptDocument (doc doc' : gmap string FieldValue) : Prop :=
  doc' = doc
  \/ ((doc !! "aiSummary" = None \/ doc !! "aiSummary" = Some VNull)
      /\ doc' = <["aiSummary" := VString ""]> doc).

(** Every link that the site serves in a listing gives a canonical URL
    that is valid UTF-8. *)
Definition ServesValidLinks (env : Env) (cfg : Config) : Prop :=
  forall c u resp doc s_item,
    clientDo env c u = Some resp ->
    body resp = BodyDoc doc ->
    In s_item (newsList doc) ->
    utf8.ValidString (reconstructURL cfg (subjectHref s_item)) = true.

(** ** Relations between the two ends of a piece of a run

    Each relates the result slice and the state before the piece to those
    after it and to the effects issued in between. *)

(** Every record written is sanitized and written under the key of its
    own URL; the result grows by records that were written. *)
Definition Records (a : list NewsArticle) (s : State)
    (a' : list NewsArticle) (s' : State) (evs : list Event) : Prop :=
  (forall k x, In (EvStoreSet k x) evs ->
     sanitized x /\ k = existsDocID (URL x))
  /\ exists added,
       a' = a ++ added
       /\ forall x, In x added -> In (EvStoreSet (saveDocID x) x) evs.

(** At most one write and at most three article requests for every
    lookup; the result grows by at most one record for every [Set]. *)
Definition Bounded (a : list NewsArticle) (s : State)
    (a' : list NewsArticle) (s' : State) (evs : list Event) : Prop :=
  (count isStoreSet evs + count isStoreUpdate evs
      <= count isStoreGet evs)%nat
  /\ (count isFetchArticle evs <= 3 * count isStoreGet evs)%nat
  /\ (length a' <= length a + count isStoreSet evs)%nat.

(** Nothing is written, requested from an article page or added to the
    result. *)
Definition Untouched (a : list NewsArticle) (s : State)
    (a' : list NewsArticle) (s' : State) (evs : list Event) : Prop :=
  a' = a
  /\ store s' = store s
  /\ forall e, In e evs -> storeMutation e = false /\ isFetchArticle e = false.

(** The documents stored before are kept, and the records added to the
    result have keys of their own, which were not in the store before, and
    are stored under the key that the duplicate check looks up. *)
Definition Kept (a : list NewsArticle) (s : State)
    (a' : list NewsArticle) (s' : State) (evs : list Event) : Prop :=
  (forall k doc, store s !! k = Some doc ->
     exists doc', store s' !! k = Some doc' /\ keptDocument doc doc')
  /\ exists added,
       a' = a ++ added
       /\ NoDup (map (fun x => existsDocID (URL x)) added)
       /\ forall x, In x added ->
            store s !! existsDocID (URL x) = None
            /\ store s' !! existsDocID (URL x) = Some (toDocument x).

(** Every pause lasts one, two, three or four seconds, or between 200 and
    699 milliseconds. *)
Definition pause (ms : Z) : Prop :=
  ms = 1000 \/ ms = 2000 \/ ms = 3000 \/ ms = 4000 \/ 200 <= ms <= 699.

Definition Paced (a : list NewsArticle) (s : State)
    (a' : list NewsArticle) (s' : State) (evs : list Event) : Prop :=
  forall ms, In (EvSleep ms) evs -> pause ms.

(** The site answers every listing request with a page that lists at
    least one node, and the request of every listing page can be built. *)
Definition ListingsServed (env : Env) (cfg : Config) : Prop :=
  forall c j,
    NewRequest_ok env (pageURL cfg j) = true
    /\ exists nodes,
         listingNodes (clientDo env c (pageURL cfg j)) = Some nodes
         /\ nodes <> [].

(** ** Go's [strconv.Atoi]

    The package is not part of the repository; the definitions follow the
    Go standard library ([strconv/atoi.go]) for a 64-bit [int], with the
    base fixed to 10 as [Atoi] calls [ParseInt]. *)

Module strconv.

Inductive NumError := ErrSyntax | ErrRange.

Definition maxUint64 : Z := 2 ^ 64 - 1.

(** Conversions to [uint64] and to [int64], with their wrap-around. *)
Definition uint64 (z : Z) : Z := z mod 2 ^ 64.
Definition int64 (z : Z) : Z := (z + 2 ^ 63) mod 2 ^ 64 - 2 ^ 63.

(** [lower(c)], which is [c | ('x' - 'X')]. *)
Definition lower (c : Z) : Z := Z.lor c 0x20.

(** The loop of [ParseUint(s, 10, 64)] over the bytes of [s]; [n] is the
    value read so far. A range error ends the loop at once. *)
Fixpoint parseUintLoop (s : string) (n : Z) : Z * option NumError :=
  match s with
  | EmptyString => (n, None)
  | String ch t =>
      let c := byte ch in
      let digit :=
        if (0x30 <=? c) && (c <=? 0x39) then Some (c - 0x30)
        else if (0x61 <=? lower c) && (lower c <=? 0x7A)
             then Some (lower c - 0x61 + 10)
             else None in
      match digit with
      | None => (0, Some ErrSyntax)
      | Some d =>
          if 10 <=? d then (0, Some ErrSyntax)
          else if maxUint64 / 10 + 1 <=? n then (maxUint64, Some ErrRange)
          else
            let n := uint64 (n * 10) in
            let n1 := uint64 (n + d) in
            if (n1 <? n) || (maxUint64 <? n1) then (maxUint64, Some ErrRange)
            else parseUintLoop t n1
      end
  end.

Definition ParseUint (s : string) : Z * option NumError :=
  if String.eqb s "" then (0, Some ErrSyntax) else parseUintLoop s 0.

(** [ParseInt(s, 10, 0)] *)
Definition ParseInt (s : string) : Z * option NumError :=
  if String.eqb s "" then (0, Some ErrSyntax)
  else
    let neg := idx s 0 =? 0x2D in
    let s := if (idx s 0 =? 0x2B) || (idx s 0 =? 0x2D) then drop 1 s else s in
    let '(un, err) := ParseUint s in
    match err with
    | Some ErrSyntax => (0, err)
    | _ =>
        let cutoff := 2 ^ 63 in
        if negb neg && (cutoff <=? un) then (cutoff - 1, Some ErrRange)
        else if neg && (cutoff <? un) then (- cutoff, Some ErrRange)
        else
          let n := int64 un in
          (if neg then int64 (- n) else n, None)
    end.

(** The loop of the fast path of [Atoi]: [None] for a byte that is no
    digit. The byte arithmetic [ch -= '0'] wraps around. *)
Fixpoint atoiLoop (s : string) (n : Z) : option Z :=
  match s with
  | EmptyString => Some n
  | String c t =>
      let ch := utf8.uint8 (byte c - 0x30) in
      if 9 <? ch then None else atoiLoop t (n * 10 + ch)
  end.

(** [strconv.Atoi(s)]: the value and the error. *)
Definition Atoi (s : string) : Z * option NumError :=
  let sLen := len s in
  if (0 <? sLen) && (sLen <? 19) then
    let s0 := s in
    let signed := (idx s 0 =? 0x2D) || (idx s 0 =? 0x2B) in
    let s := if signed then drop 1 s else s in
    if signed && (len s <? 1) then (0, Some ErrSyntax)
    else
      match atoiLoop s 0 with
      | None => (0, Some ErrSyntax)
      | Some n => (if idx s0 0 =? 0x2D then - n else n, None)
      end
  else ParseInt s.

End strconv.

(** ** The endpoint [POST /api/schedule/crawl] of [main.go] *)

(** What the handler logs, one constructor per call of [log]. *)
Inductive ServerLog :=
| LogCrawlRequested
| LogInvalidPagesParam (pagesStr : string)
| LogInvalidPages (pages : Z)
| LogCrawlingPages (pages : Z)
| LogCrawlFailed (err : error)
| LogCrawlCompleted.

(** The effects of a request: the log lines of the handler and, in
    between, the effects of the run that it starts. *)
Inductive ServerEvent :=
| SrvLog (m : ServerLog)
| SrvCrawl (e : Event).

(** The three texts that the handler sends. *)
Inductive ReplyText :=
| TextInvalidPages
| TextCrawlFailed (err : error)
| TextCrawlTriggered (pages : Z).

Record Reply := {
  replyStatus : Z;
  replyText : ReplyText
}.

Definition StatusBadRequest : Z := 400.
Definition StatusInternalServerError : Z := 500.

(** [c.Query(key, defaultValue)], given the value that the request has
    for the key (empty when it has none): an empty value gives the
    default. *)
Definition Query (value defaultValue : string) : string :=
  if len value =? 0 then defaultValue else value.

(** The handler, for a request whose parameter [pages] is [pagesParam]. *)
Definition scheduleCrawl (env : Env) (cfg : Config) (pagesParam : string)
    (s : State) : Reply * State * list ServerEvent :=
  let pagesStr := Query pagesParam "1" in
  let '(pages, err) := strconv.Atoi pagesStr in
  let '(pages, parseLog) :=
    match err with
    | Some _ => (1, [SrvLog (LogInvalidPagesParam pagesStr)])
    | None => (pages, [])
    end in
  if (pages <=? 0) || (10 <? pages) then
    ({| replyStatus := StatusBadRequest; replyText := TextInvalidPages |},
     s,
     SrvLog LogCrawlRequested :: parseLog ++ [SrvLog (LogInvalidPages pages)])
  else
    let '(_, err, s', evs) := CrawlNaverFinanceNews env cfg pages s in
    let started :=
      SrvLog LogCrawlRequested :: parseLog
      ++ SrvLog (LogCrawlingPages pages) :: map SrvCrawl evs in
    match err with
    | Some e =>
        ({| replyStatus := StatusInternalServerError;
            replyText := TextCrawlFailed e |},
         s', started ++ [SrvLog (LogCrawlFailed e)])
    | None =>
        ({| replyStatus := StatusOK;
            replyText := TextCrawlTriggered pages |},
         s', started ++ [SrvLog LogCrawlCompleted])
    end.

(** The effects of the run inside the effects of a request. *)
Fixpoint crawlEvents (evs : list ServerEvent) : list Event :=
  match evs with
  | [] => []
  | SrvCrawl e :: rest => e :: crawlEvents rest
  | SrvLog _ :: rest => crawlEvents rest
  end.

(** The value of [pages] after the two assignments of the handler. *)
Definition handlerPages (pagesParam : string) : Z :=
  let '(pages, err) := strconv.Atoi (Query pagesParam "1") in
  match err with
  | Some _ => 1
  | None => pages
  end.

(** Readings of the outcome of a request. *)
Definition reply (r : Reply * State * list ServerEvent) : Reply :=
  fst (fst r).
Definition stateAfter (r : Reply * State * list ServerEvent) : State :=
  snd (fst r).
Definition crawlTrace (r : Reply * State * list ServerEvent) : list Event :=
  crawlEvents (snd r).

(** *** The page count of a request, read as a number

    An optional sign followed by decimal digits, as a number. *)
Fixpoint decimalValue (s : string) (n : Z) : Z :=
  match s with
  | EmptyString => n
  | String c t => decimalValue t (n * 10 + (byte c - 0x30))
  end.

Definition signedDecimal (s : string) : option Z :=
  match s with
  | EmptyString => None
  | String c t =>
      if Ascii.eqb c "-" then
        if allDecimal t && negb (String.eqb t "")
        then Some (- decimalValue t 0) else None
      else if Ascii.eqb c "+" then
        if allDecimal t && negb (String.eqb t "")
        then Some (decimalValue t 0) else None
      else if allDecimal s then Some (decimalValue s 0) else None
  end.

(** The page count that a request asks for: the number that the
    parameter [pages] spells if it spells one that an [int] holds, and 1
    otherwise (no parameter, an empty one, or one that is no number). *)
Definition requestedPages (pagesParam : string) : Z :=
  match signedDecimal (if String.eqb pagesParam "" then "1" else pagesParam)
  with
  | Some v => if (- 2 ^ 63 <=? v) && (v <? 2 ^ 63) then v else 1
  | None => 1
  end.

(** ** [SearchNewsArticles] *)

(** Go's [strings.Index], [strings.Contains] and [strings.ToLower]. *)
Module gosearch.

(** [strings.Index(s, substr)]: the index of the first occurrence, or -1. *)
Fixpoint Index (s substr : string) : Z :=
  if String.prefix substr s then 0
  else
    match s with
    | EmptyString => -1
    | String _ t =>
        let i := Index t substr in
        if i <? 0 then -1 else i + 1
    end.

Definition Contains (s substr : string) : bool := 0 <=? Index s substr.

Definition upperByte (c : Z) : bool := (0x41 <=? c) && (c <=? 0x5A).

(** The first loop of [ToLower]: whether [s] is ASCII and, over the bytes
    before the first that is not, whether one is an upper-case letter. *)
Fixpoint scan (s : string) (hasUpper : bool) : bool * bool :=
  match s with
  | EmptyString => (true, hasUpper)
  | String ch t =>
      let c := byte ch in
      if utf8.RuneSelf <=? c then (false, hasUpper)
      else scan t (hasUpper || upperByte c)
  end.

(** The second loop: every upper-case letter moved by ['a' - 'A']. *)
Fixpoint lowerASCII (s : string) : string :=
  match s with
  | EmptyString => EmptyString
  | String ch t =>
      let c := byte ch in
      String (if upperByte c then chr (c + (0x61 - 0x41)) else ch)
        (lowerASCII t)
  end.

(** [strings.ToLower(s)]; [mapLower] stands for
    [strings.Map(unicode.ToLower, s)], which handles the strings that are
    not ASCII. *)
Definition ToLower (mapLower : string -> string) (s : string) : string :=
  let '(isASCII, hasUpper) := scan s false in
  if isASCII then
    if negb hasUpper then s else lowerASCII s
  else mapLower s.

End gosearch.

(** The errors of [SearchNewsArticles]: those of the other operations, and
    the failure of the iterator. *)
Inductive searchError :=
| SearchErr (e : error)
| ErrIterate.

Inductive SearchEvent :=
| EvIterNext                         (* iter.Next() *)
| EvSearchConvertWarning.            (* the warning of line 237 *)

(** The documents of the collection in the order in which the iterator
    yields them: by document identifier. *)
Fixpoint insertDocument (d : string * gmap string FieldValue)
    (l : list (string * gmap string FieldValue))
  : list (string * gmap string FieldValue) :=
  match l with
  | [] => [d]
  | x :: rest =>
      if String.leb (fst d) (fst x) then d :: l
      else x :: insertDocument d rest
  end.

Definition Documents (st : gmap string (gmap string FieldValue))
  : list (string * gmap string FieldValue) :=
  foldr insertDocument [] (map_to_list st).

(** The loop over [iter.Next()]: every call may fail; [docs] are the
    documents that the iterator has not yielded yet. *)
Fixpoint searchLoop (env : Env) (mapLower : string -> string)
    (keyword : string) (docs : list (string * gmap string FieldValue))
    (results : list NewsArticle) (s : State)
  : (list NewsArticle * option searchError) * State * list SearchEvent :=
  let s1 := {| store := store s; calls := S (calls s) |} in
  match docs with
  | [] =>
      match storeFault env (calls s) with
      | RpcFailed => (([], Some ErrIterate), s1, [EvIterNext])
      | _ => ((results, None), s1, [EvIterNext])
      end
  | (_, doc) :: rest =>
      match storeFault env (calls s) with
      | RpcFailed => (([], Some ErrIterate), s1, [EvIterNext])
      | _ =>
          match DataTo doc with
          | None =>
              let '(r, s2, evs) :=
                searchLoop env mapLower keyword rest results s1 in
              (r, s2, EvIterNext :: EvSearchConvertWarning :: evs)
          | Some article =>
              let lowerKeyword := gosearch.ToLower mapLower keyword in
              let results :=
                if gosearch.Contains
                     (gosearch.ToLower mapLower (Title article)) lowerKeyword
                   || gosearch.Contains
                        (gosearch.ToLower mapLower (Summary article))
                        lowerKeyword
                   || gosearch.Contains
                        (gosearch.ToLower mapLower (Content article))
                        lowerKeyword
                then results ++ [article]
                else results in
              let '(r, s2, evs) :=
                searchLoop env mapLower keyword rest results s1 in
              (r, s2, EvIterNext :: evs)
          end
      end
  end.

Definition SearchNewsArticles (env : Env) (mapLower : string -> string)
    (keyword : string) (s : State)
  : (list NewsArticle * option searchError) * State * list SearchEvent :=
  if negb (firestoreApp env) then
    (([], Some (SearchErr ErrNotInitialized)), s, [])
  else
    let s1 := {| store := store s; calls := S (calls s) |} in
    match storeFault env (calls s) with
    | ClientUnavailable => (([], Some (SearchErr ErrGetClient)), s1, [])
    | _ => searchLoop env mapLower keyword (Documents (store s)) [] s1
    end.

(** Readings of the outcome of a search. *)
Definition found
    (r : list NewsArticle * option searchError * State * list SearchEvent)
  : list NewsArticle := fst (fst (fst r)).
Definition searchFailure
    (r : list NewsArticle * option searchError * State * list SearchEvent)
  : option searchError := snd (fst (fst r)).
Definition searchFinal
    (r : list NewsArticle * option searchError * State * list SearchEvent)
  : State := snd (fst r).

(** An article mentions a keyword: its title, its summary or its content
    holds the keyword, letter case apart. *)
Definition mentions (mapLower : string -> string) (keyword : string)
    (a : NewsArticle) : bool :=
  let k := gosearch.ToLower mapLower keyword in
  gosearch.Contains (gosearch.ToLower mapLower (Title a)) k
  || gosearch.Contains (gosearch.ToLower mapLower (Summary a)) k
  || gosearch.Contains (gosearch.ToLower mapLower (Content a)) k.

(** The articles of the collection: the documents that convert, in the
    order of the iterator. *)
Definition storedArticles (st : gmap string (gmap string FieldValue))
  : list NewsArticle :=
  omap (fun d => DataTo (snd d)) (Documents st).

(** [t] occurs in [s]. *)
Definition Occurs (t s : string) : Prop :=
  exists pre post, s = pre +:+ t +:+ post.

Fixpoint asciiOnly (s : string) : bool :=
  match s with
  | EmptyString => true
  | String c t => (byte c <? 0x80) && asciiOnly t
  end.

(** ** [LoadConfig] ([config.go]) *)

(** The process environment: the variables, and whether [os.Stat] reports
    that a file does not exist. *)
Record Process := {
  Getenv : string -> string;
  notExist : string -> bool
}.

(** [LoadConfig()]; [None] when [log.Fatalf] ends the process. *)
Definition LoadConfig (os : Process) : option Config :=
  let keyPath := Getenv os "FIREBASE_SERVICE_ACCOUNT_KEY_PATH" in
  let keyPath :=
    if String.eqb keyPath "" then
      let keyPath := "firebase-service-account-key.json"%string in
      if notExist os keyPath then None else Some keyPath
    else Some keyPath in
  match keyPath with
  | None => None
  | Some keyPath =>
      let userAgent := Getenv os "USER_AGENT" in
      let userAgent :=
        if String.eqb userAgent "" then
          "Mozilla/5.0 (Windows NT 10.0; Win64; x64) AppleWebKit/537.36 (KHTML, like Gecko) Chrome/91.0.4472.124 Safari/537.36"%string
        else userAgent in
      Some {| FirebaseServiceAccountKeyPath := keyPath;
              NaverFinanceBaseURL :=
                "https://finance.naver.com/news/mainnews.naver";
              NaverArticleBaseURL := "https://n.news.naver.com/mnews/article";
              UserAgent := userAgent |}
  end.

(** Every article request of a piece of a run is for the canonical URL of
    a link. *)
Definition Targets (cfg : Config) (a : list NewsArticle) (s : State)
    (a' : list NewsArticle) (s' : State) (evs : list Event) : Prop :=
  forall c u, In (EvFetchArticle c u) evs ->
    exists link, u = reconstructURL cfg link.

(** ** More of the small world *)

Module Sample.

(** A site that serves one listing node on every listing page and the
    body ["BODY"] for every article, with a store that works. *)
Definition env : Env :=
  Example.world
    (Example.site (Some (Example.listing [Example.item]))
       (Some (Example.article "BODY")))
    Example.healthy.

(** The same site with a store whose calls all fail. *)
Definition envStoreDown : Env :=
  Example.world
    (Example.site (Some (Example.listing [Example.item]))
       (Some (Example.article "BODY")))
    Example.failing.

(** A listing node without a title and without a summary block. *)
Definition malformed : ListingNode := {|
  subjectText := "";
  subjectHref := Example.link;
  articleSummary := None;
  outerHtml := "<li>?</li>"
|}.

(** The link of [Example.item] with its two identifiers in the other
    order. *)
Definition linkReversed : string :=
  "/news/news_read.naver?office_id=018&article_id=0005023871".

(** The stored article of [Example.stored] with the field [aiSummary]
    held as null, and a store that holds it. *)
Definition nullDocument : gmap string FieldValue :=
  <["aiSummary" := VNull]> Example.oldDocument.

Definition storedNull : State :=
  {| store := <[Example.articleKey := nullDocument]> ∅; calls := 0 |}.

(** The record that a run of one page on [env] saves and returns. *)
Definition crawled : NewsArticle := {|
  Title := "Title"; Summary := "teaser"; Content := "BODY";
  AISummary := ""; Source := "Press"; URL := Example.articleURL;
  CollectedAt := 3
|}.

(** A process whose variables set the key path and the user agent. *)
Definition os : Process := {|
  Getenv := fun name =>
    if String.eqb name "USER_AGENT" then "Mozilla/5.0"%string
    else "firebase-service-account-key.json"%string;
  notExist := fun _ => true
|}.

End Sample.

(** * Proofs *)

(** ** Bytes *)

Lemma byte_range c : 0 <= byte c < 256.
Proof. unfold byte. pose proof (N_ascii_bounded c). lia. Qed.

Lemma chr_byte c : chr (byte c) = c.
Proof. unfold chr, byte. rewrite N2Z.id. apply ascii_N_embedding. Qed.

Lemma idx_range s i : 0 <= idx s i < 256.
Proof.
  unfold idx. destruct (String.get i s); [apply byte_range | lia].
Qed.

(** ** Strings *)

Lemma str_app_cons c s t : String c s +:+ t = String c (s +:+ t).
Proof. reflexivity. Qed.

Lemma str_app_nil_l t : EmptyString +:+ t = t.
Proof. reflexivity. Qed.

Lemma str_app_empty a b :
  a +:+ b = EmptyString -> a = EmptyString /\ b = EmptyString.
Proof.
  destruct a; [intros H; split; [reflexivity | exact H] | discriminate].
Qed.

Lemma str_length_app a b :
  String.length (a +:+ b) = (String.length a + String.length b)%nat.
Proof.
  induction a as [|c a IH]; [reflexivity|].
  rewrite str_app_cons. cbn [String.length]. rewrite IH. reflexivity.
Qed.

Lemma str_length_drop k s :
  String.length (drop k s) = (String.length s - k)%nat.
Proof.
  revert s. induction k as [|k IH]; intros s; cbn [drop].
  - lia.
  - destruct s as [|c s]; cbn [String.length]; [reflexivity|]. rewrite IH. lia.
Qed.

Lemma str_length_take n s :
  String.length (take n s) = Nat.min n (String.length s).
Proof.
  revert s. induction n as [|n IH]; intros s; [reflexivity|].
  destruct s as [|c t]; [reflexivity|].
  cbn [take String.length]. rewrite IH. lia.
Qed.

Lemma str_take_all n s : (String.length s <= n)%nat -> take n s = s.
Proof.
  revert s. induction n as [|n IH]; intros s H.
  - destruct s; [reflexivity | cbn [String.length] in H; lia].
  - destruct s as [|c t]; [reflexivity|]. cbn [take].
    rewrite IH; [reflexivity|]. cbn [String.length] in H. lia.
Qed.

Lemma str_take_drop k s : take k s +:+ drop k s = s.
Proof.
  revert s. induction k as [|k IHk]; intros s; cbn [take drop]; [reflexivity|].
  destruct s as [|c s]; [reflexivity|]. rewrite str_app_cons, IHk. reflexivity.
Qed.

Lemma str_drop_take_app k s t :
  (k <= String.length s)%nat -> drop k (take k s +:+ t) = t.
Proof.
  revert s. induction k as [|k IH]; intros s Hk; cbn [take drop].
  - reflexivity.
  - destruct s as [|c s]; cbn [String.length] in Hk; [lia|].
    rewrite str_app_cons. cbn [drop]. apply IH. lia.
Qed.

Lemma str_drop_app lit t : drop (String.length lit) (lit +:+ t) = t.
Proof.
  induction lit as [|a lit IH]; [reflexivity|].
  rewrite str_app_cons. cbn [String.length drop]. exact IH.
Qed.

Lemma str_prefix_empty t : String.prefix "" t = true.
Proof. destruct t; reflexivity. Qed.

Lemma str_prefix_app lit s :
  String.prefix lit s = true <-> exists t, s = lit +:+ t.
Proof.
  revert s. induction lit as [|a lit IH]; intros s.
  - split; [intros _; exists s; reflexivity | intros _; apply str_prefix_empty].
  - destruct s as [|c t]; cbn [String.prefix].
    + split; [discriminate | intros [t Ht]; discriminate].
    + destruct (ascii_dec a c) as [->|Hne].
      * rewrite IH. split; intros [r Hr].
        -- exists r. rewrite str_app_cons, Hr. reflexivity.
        -- rewrite str_app_cons in Hr. inversion Hr. eauto.
      * split; [discriminate|]. intros [r Hr]. rewrite str_app_cons in Hr.
        inversion Hr. congruence.
Qed.

Lemma of_bytes_app a b : of_bytes (a ++ b) = of_bytes a +:+ of_bytes b.
Proof.
  induction a as [|x a IH]; [reflexivity|].
  cbn [of_bytes app]. rewrite str_app_cons, <- IH. reflexivity.
Qed.

Lemma of_bytes_bytes_of s : of_bytes (bytes_of s) = s.
Proof.
  induction s as [|c s IH]; [reflexivity|].
  cbn [bytes_of of_bytes]. rewrite chr_byte, IH. reflexivity.
Qed.

(** ** Bit operations as arithmetic *)

Lemma lor_disjoint a k lo :
  0 <= k -> 0 <= lo < 2 ^ k -> a mod 2 ^ k = 0 -> Z.lor a lo = a + lo.
Proof.
  intros Hk Hlo Ha.
  assert (Hland : Z.land a lo = 0).
  { apply Z.bits_inj'. intros n Hn. rewrite Z.land_spec, Z.bits_0.
    destruct (Z.lt_ge_cases n k) as [Hlt|Hge].
    - rewrite <- (Z.mod_pow2_bits_low a k n) by lia.
      rewrite Ha, Z.bits_0. reflexivity.
    - destruct (Z.eq_dec lo 0) as [->|Hne];
        [rewrite Z.bits_0; apply andb_false_r|].
      assert (Z.log2 lo < k) by (apply Z.log2_lt_pow2; lia).
      rewrite (Z.bits_above_log2 lo n) by lia. apply andb_false_r. }
  rewrite <- Z.add_lor_land, Hland. lia.
Qed.

Lemma land_low a k : 0 <= k -> Z.land a (2 ^ k - 1) = a mod 2 ^ k.
Proof.
  intros Hk. rewrite <- Z.land_ones by assumption. f_equal.
  rewrite Z.ones_equiv. lia.
Qed.

Lemma land_maskx b : Z.land b utf8.maskx = b mod 64.
Proof. apply (land_low b 6). lia. Qed.

Lemma land_mask2 b : Z.land b utf8.mask2 = b mod 32.
Proof. apply (land_low b 5). lia. Qed.

Lemma land_mask3 b : Z.land b utf8.mask3 = b mod 16.
Proof. apply (land_low b 4). lia. Qed.

Lemma land_mask4 b : Z.land b utf8.mask4 = b mod 8.
Proof. apply (land_low b 3). lia. Qed.

Lemma uint8_mod z : utf8.uint8 z = z mod 256.
Proof. apply (land_low z 8). lia. Qed.

Lemma shl6 a : Z.shiftl a 6 = a * 64.
Proof. rewrite Z.shiftl_mul_pow2 by lia. reflexivity. Qed.

Lemma shl12 a : Z.shiftl a 12 = a * 4096.
Proof. rewrite Z.shiftl_mul_pow2 by lia. reflexivity. Qed.

Lemma shl18 a : Z.shiftl a 18 = a * 262144.
Proof. rewrite Z.shiftl_mul_pow2 by lia. reflexivity. Qed.

Lemma shr6 a : Z.shiftr a 6 = a / 64.
Proof. rewrite Z.shiftr_div_pow2 by lia. reflexivity. Qed.

Lemma shr12 a : Z.shiftr a 12 = a / 4096.
Proof. rewrite Z.shiftr_div_pow2 by lia. reflexivity. Qed.

Lemma shr18 a : Z.shiftr a 18 = a / 262144.
Proof. rewrite Z.shiftr_div_pow2 by lia. reflexivity. Qed.

Ltac arith := Z.div_mod_to_equations; lia.
Ltac list_arith := repeat (apply (f_equal2 cons); [arith|]); reflexivity.

(** The rune that the decoder assembles from a sequence. *)
Lemma rune2_eq b0 b1 :
  0xC0 <= b0 < 0xE0 -> 0x80 <= b1 < 0xC0 ->
  Z.lor (Z.shiftl (Z.land b0 utf8.mask2) 6) (Z.land b1 utf8.maskx)
  = (b0 - 0xC0) * 64 + (b1 - 0x80).
Proof.
  intros H0 H1. rewrite land_mask2, land_maskx, shl6.
  rewrite (lor_disjoint _ 6); change (2 ^ 6) with 64; arith.
Qed.

Lemma rune3_eq b0 b1 b2 :
  0xE0 <= b0 < 0xF0 -> 0x80 <= b1 < 0xC0 -> 0x80 <= b2 < 0xC0 ->
  Z.lor (Z.lor (Z.shiftl (Z.land b0 utf8.mask3) 12)
               (Z.shiftl (Z.land b1 utf8.maskx) 6))
        (Z.land b2 utf8.maskx)
  = (b0 - 0xE0) * 4096 + (b1 - 0x80) * 64 + (b2 - 0x80).
Proof.
  intros H0 H1 H2. rewrite land_mask3, !land_maskx, shl6, shl12.
  rewrite (lor_disjoint (_ * 4096) 12); change (2 ^ 12) with 4096; [|arith..].
  rewrite (lor_disjoint _ 6); change (2 ^ 6) with 64; arith.
Qed.

Lemma rune4_eq b0 b1 b2 b3 :
  0xF0 <= b0 < 0xF8 -> 0x80 <= b1 < 0xC0 -> 0x80 <= b2 < 0xC0 ->
  0x80 <= b3 < 0xC0 ->
  Z.lor (Z.lor (Z.lor (Z.shiftl (Z.land b0 utf8.mask4) 18)
                      (Z.shiftl (Z.land b1 utf8.maskx) 12))
               (Z.shiftl (Z.land b2 utf8.maskx) 6))
        (Z.land b3 utf8.maskx)
  = (b0 - 0xF0) * 262144 + (b1 - 0x80) * 4096 + (b2 - 0x80) * 64
    + (b3 - 0x80).
Proof.
  intros H0 H1 H2 H3. rewrite land_mask4, !land_maskx, shl6, shl12, shl18.
  rewrite (lor_disjoint (_ * 262144) 18);
    change (2 ^ 18) with 262144; [|arith..].
  rewrite (lor_disjoint (_ + _ * 4096) 12);
    change (2 ^ 12) with 4096; [|arith..].
  rewrite (lor_disjoint _ 6); change (2 ^ 6) with 64; arith.
Qed.

(** Decide the comparisons of the goal that the hypotheses settle. *)
Ltac ztest :=
  repeat match goal with
  | |- context [Z.ltb ?a ?b] =>
      first [ replace (Z.ltb a b) with true by (symmetry; apply Z.ltb_lt; lia)
            | replace (Z.ltb a b) with false by (symmetry; apply Z.ltb_ge; lia) ]
  | |- context [Z.leb ?a ?b] =>
      first [ replace (Z.leb a b) with true by (symmetry; apply Z.leb_le; lia)
            | replace (Z.leb a b) with false by (symmetry; apply Z.leb_gt; lia) ]
  | |- context [Z.eqb ?a ?b] =>
      first [ replace (Z.eqb a b) with true by (symmetry; apply Z.eqb_eq; lia)
            | replace (Z.eqb a b) with false by (symmetry; apply Z.eqb_neq; lia) ]
  end.

(** The bytes that the encoder produces, by the size of the rune. *)
Lemma enc1 r : 0 <= r <= 0x7F -> utf8.encodeRune r = [r].
Proof.
  intros H. unfold utf8.encodeRune, utf8.rune1Max. ztest. cbn [andb].
  rewrite uint8_mod. list_arith.
Qed.

Lemma enc2 r :
  0x80 <= r <= 0x7FF -> utf8.encodeRune r = [0xC0 + r / 64; 0x80 + r mod 64].
Proof.
  intros H.
  unfold utf8.encodeRune, utf8.rune1Max, utf8.rune2Max, utf8.t2, utf8.tx.
  ztest. cbn [andb].
  rewrite !uint8_mod, land_maskx, shr6.
  rewrite (lor_disjoint 0xC0 6), (lor_disjoint 0x80 6);
    change (2 ^ 6) with 64; try arith.
  list_arith.
Qed.

Lemma enc3 r :
  0x800 <= r <= 0xFFFF -> ~ (0xD800 <= r <= 0xDFFF) ->
  utf8.encodeRune r
  = [0xE0 + r / 4096; 0x80 + (r / 64) mod 64; 0x80 + r mod 64].
Proof.
  intros H Hs.
  unfold utf8.encodeRune, utf8.rune1Max, utf8.rune2Max, utf8.rune3Max,
    utf8.MaxRune, utf8.surrogateMin, utf8.surrogateMax, utf8.t3, utf8.tx.
  replace ((0 <=? r) && (r <=? 127)) with false
    by (symmetry; apply andb_false_iff; lia).
  replace ((0 <=? r) && (r <=? 2047)) with false
    by (symmetry; apply andb_false_iff; lia).
  replace ((r <? 0) || (1114111 <? r) || (55296 <=? r) && (r <=? 57343))
    with false by (symmetry; rewrite !orb_false_iff, andb_false_iff; lia).
  ztest.
  rewrite !uint8_mod, !land_maskx, shr6, shr12.
  rewrite (lor_disjoint 0xE0 4), !(lor_disjoint 0x80 6);
    change (2 ^ 6) with 64; change (2 ^ 4) with 16; try arith.
  list_arith.
Qed.

Lemma enc4 r :
  0x10000 <= r <= 0x10FFFF ->
  utf8.encodeRune r
  = [0xF0 + r / 262144; 0x80 + (r / 4096) mod 64;
     0x80 + (r / 64) mod 64; 0x80 + r mod 64].
Proof.
  intros H.
  unfold utf8.encodeRune, utf8.rune1Max, utf8.rune2Max, utf8.rune3Max,
    utf8.MaxRune, utf8.surrogateMin, utf8.surrogateMax, utf8.t4, utf8.tx.
  replace ((0 <=? r) && (r <=? 127)) with false
    by (symmetry; apply andb_false_iff; lia).
  replace ((0 <=? r) && (r <=? 2047)) with false
    by (symmetry; apply andb_false_iff; lia).
  replace ((r <? 0) || (1114111 <? r) || (55296 <=? r) && (r <=? 57343))
    with false by (symmetry; rewrite !orb_false_iff, andb_false_iff; lia).
  ztest.
  rewrite !uint8_mod, !land_maskx, shr6, shr12, shr18.
  rewrite (lor_disjoint 0xF0 3), !(lor_disjoint 0x80 6);
    change (2 ^ 6) with 64; change (2 ^ 3) with 8; try arith.
  list_arith.
Qed.

(** ** The decoder against the table of well-formed sequences *)

Import utf8 WellFormed.

Lemma first_spec b0 :
  0 <= b0 < 256 ->
  (b0 < 0x80 /\ first b0 = as_)
  \/ ((0x80 <= b0 < 0xC2 \/ 0xF5 <= b0) /\ first b0 = xx)
  \/ (0xC2 <= b0 < 0xE0 /\ first b0 = s1)
  \/ (b0 = 0xE0 /\ first b0 = s2)
  \/ ((0xE1 <= b0 < 0xED \/ 0xEE <= b0 < 0xF0) /\ first b0 = s3)
  \/ (b0 = 0xED /\ first b0 = s4)
  \/ (b0 = 0xF0 /\ first b0 = s5)
  \/ (0xF1 <= b0 < 0xF4 /\ first b0 = s6)
  \/ (b0 = 0xF4 /\ first b0 = s7).
Proof.
  intros H. unfold first.
  repeat match goal with
  | |- context [Z.ltb ?a ?b] => destruct (Z.ltb_spec a b)
  | |- context [Z.eqb ?a ?b] => destruct (Z.eqb_spec a b)
  end; lia.
Qed.

Lemma Decode_decodeN s :
  DecodeRuneInString s
  = decodeN (len s) (idx s 0) (idx s 1) (idx s 2) (idx s 3).
Proof. reflexivity. Qed.

Lemma validLoop_step f s :
  validLoop (S f) s
  = if len s <? 1 then true
    else match validStep (len s) (idx s 0) (idx s 1) (idx s 2) (idx s 3) with
         | Some k => validLoop f (drop k s)
         | None => false
         end.
Proof.
  cbn [validLoop]. unfold validStep.
  repeat match goal with
  | |- context [if ?b then _ else _] => destruct b; try reflexivity
  end.
Qed.

Lemma headWidth_headN s :
  headWidth s = headN (len s) (idx s 0) (idx s 1) (idx s 2) (idx s 3).
Proof.
  unfold headN, headWidth, len, idx.
  destruct s as [|c0 [|c1 [|c2 [|c3 t3]]]]; cbn [String.length String.get].
  - reflexivity.
  - change (1 <=? Z.of_nat 1) with true. cbn [andb].
    destruct (seq1 _); reflexivity.
  - change (1 <=? Z.of_nat 2) with true. cbn [andb].
    destruct (seq1 _); [reflexivity|].
    change (2 <=? Z.of_nat 2) with true. cbn [andb].
    destruct (seq2 _ _); reflexivity.
  - change (1 <=? Z.of_nat 3) with true. cbn [andb].
    destruct (seq1 _); [reflexivity|].
    change (2 <=? Z.of_nat 3) with true. cbn [andb].
    destruct (seq2 _ _); [reflexivity|].
    change (3 <=? Z.of_nat 3) with true. cbn [andb].
    destruct (seq3 _ _ _); reflexivity.
  - replace (1 <=? _) with true by (symmetry; apply Z.leb_le; lia).
    cbn [andb]. destruct (seq1 _); [reflexivity|].
    replace (2 <=? _) with true by (symmetry; apply Z.leb_le; lia).
    cbn [andb]. destruct (seq2 _ _); [reflexivity|].
    replace (3 <=? _) with true by (symmetry; apply Z.leb_le; lia).
    cbn [andb]. destruct (seq3 _ _ _); [reflexivity|].
    replace (4 <=? _) with true by (symmetry; apply Z.leb_le; lia).
    cbn [andb]. destruct (seq4 _ _ _ _); reflexivity.
Qed.

(** Split on every comparison of the goal, keeping the cases that the
    hypotheses allow. *)
Ltac split_tests :=
  repeat (match goal with
  | |- context [Z.ltb ?a ?b] => destruct (Z.ltb_spec a b); try lia
  | |- context [Z.leb ?a ?b] => destruct (Z.leb_spec a b); try lia
  | |- context [Z.eqb ?a ?b] => destruct (Z.eqb_spec a b); try lia
  end; cbn [andb orb fst snd]).

(** Evaluate what the loops read from the table entry [v]. *)
Ltac table v :=
  change (as_ <=? v) with false;
  change (v =? xx) with false;
  let k := eval vm_compute in (Z.land v 7) in
  change (Z.land v 7) with k;
  let a := eval vm_compute in (acceptRanges (Z.shiftr v 4)) in
  change (acceptRanges (Z.shiftr v 4)) with a;
  cbn [fst snd].

Ltac mask_of v :=
  let m := eval vm_compute in (Z.shiftr (int32 (Z.shiftl v 31)) 31) in
  change (Z.shiftr (int32 (Z.shiftl v 31)) 31) with m.

Ltac encode_leaf :=
  first
    [ rewrite rune4_eq by lia; rewrite enc4 by lia; list_arith
    | rewrite rune3_eq by lia; rewrite enc3 by lia; list_arith
    | rewrite rune2_eq by lia; rewrite enc2 by lia; list_arith
    | rewrite enc1 by lia; reflexivity ].

Ltac leaf :=
  first
    [ split; reflexivity
    | split;
      [ reflexivity
      | eexists; split; [reflexivity|]; split;
        [ cbn [firstn]; encode_leaf | unfold RuneError; intros; lia ] ] ].

Ltac lead v := table v; split_tests; leaf.

(** The decoder accepts exactly the well-formed sequences, the encoder
    gives back the bytes of an accepted sequence, and the loop of
    [ValidString] advances by its width. *)
Lemma stepN n b0 b1 b2 b3 :
  1 <= n -> 0 <= b0 < 256 -> 0 <= b1 < 256 -> 0 <= b2 < 256 ->
  0 <= b3 < 256 -> StepN n b0 b1 b2 b3.
Proof.
  intros Hn R0 R1 R2 R3.
  unfold StepN, headN, validStep, decodeN.
  unfold seq1, seq2, seq3, seq4, trail, between, RuneSelf, locb, hicb.
  replace (n <? 1) with false by (symmetry; apply Z.ltb_ge; lia).
  replace (1 <=? n) with true by (symmetry; apply Z.leb_le; lia).
  cbn [andb].
  destruct (first_spec b0 R0)
    as [[H ->]|[[H ->]|[[H ->]|[[H ->]|[[H ->]|[[H ->]|[[H ->]|[[H ->]
        |[H ->]]]]]]]]].
  - mask_of as_. rewrite Z.ldiff_0_r, Z.land_0_r, Z.lor_0_r.
    change (as_ <=? as_) with true. cbv iota. split_tests; leaf.
  - mask_of xx. rewrite Z.ldiff_m1_r, Z.land_m1_r, Z.lor_0_l.
    change (as_ <=? xx) with true; change (xx =? xx) with true.
    cbv iota. split_tests; leaf.
  - lead s1.
  - lead s2.
  - lead s3.
  - lead s4.
  - lead s5.
  - lead s6.
  - lead s7.
Qed.

Lemma headWidth_bound s k :
  headWidth s = Some k -> (1 <= k <= 4)%nat /\ (k <= String.length s)%nat.
Proof.
  unfold headWidth.
  destruct s as [|c0 [|c1 [|c2 [|c3 t3]]]]; cbn [String.length];
    repeat match goal with
    | |- context [if ?b then _ else _] => destruct b
    end; intros E; inversion E; lia.
Qed.

(** The head depends on the bytes of the sequence only. *)
Lemma headWidth_take_app s k t :
  headWidth s = Some k -> headWidth (take k s +:+ t) = Some k.
Proof.
  unfold headWidth.
  destruct s as [|c0 [|c1 [|c2 [|c3 t3]]]];
    repeat match goal with
    | |- context [if ?b then _ else _] => destruct b eqn:?
    end; intros E; inversion E; subst; cbn [take]; rewrite ?str_app_cons;
    repeat match goal with
    | H : ?b = _ |- context [if ?b then _ else _] => rewrite H
    end; reflexivity.
Qed.

Lemma firstn_bytes s k :
  (k <= 4)%nat -> (k <= String.length s)%nat ->
  firstn k [idx s 0; idx s 1; idx s 2; idx s 3] = bytes_of (take k s).
Proof.
  intros H4 Hk. unfold idx.
  destruct k as [|[|[|[|[|k]]]]]; [| | | | |lia];
    destruct s as [|c0 [|c1 [|c2 [|c3 t3]]]]; cbn [String.length] in Hk;
    try lia; reflexivity.
Qed.

(** One turn of each loop on a non-empty string. *)
Lemma turn_spec c t :
  match headWidth (String c t) with
  | Some k =>
      (forall f, validLoop (S f) (String c t)
                 = validLoop f (drop k (String c t)))
      /\ exists r, DecodeRuneInString (String c t) = (r, Z.of_nat k)
                   /\ encodeRune r = bytes_of (take k (String c t))
                   /\ (r = RuneError -> k <> 1%nat)
  | None =>
      (forall f, validLoop (S f) (String c t) = false)
      /\ DecodeRuneInString (String c t) = (RuneError, 1)
  end.
Proof.
  set (s := String c t).
  assert (Hn : 1 <= len s) by (unfold len, s; cbn [String.length]; lia).
  pose proof (stepN (len s) (idx s 0) (idx s 1) (idx s 2) (idx s 3) Hn
                (idx_range s 0) (idx_range s 1) (idx_range s 2)
                (idx_range s 3)) as HS.
  unfold StepN in HS. rewrite <- headWidth_headN in HS.
  assert (Hlt : (len s <? 1) = false) by (apply Z.ltb_ge; lia).
  destruct (headWidth s) as [k|] eqn:Hh.
  - destruct HS as (Hv & r & Hd & He & Hr).
    destruct (headWidth_bound s k Hh) as [Hk4 Hkl].
    split.
    + intros f. rewrite validLoop_step, Hlt, Hv. reflexivity.
    + exists r. rewrite Decode_decodeN. split; [exact Hd|].
      split; [|exact Hr]. rewrite He. apply firstn_bytes; lia.
  - destruct HS as (Hv & Hd). split.
    + intros f. rewrite validLoop_step, Hlt, Hv. reflexivity.
    + rewrite Decode_decodeN. exact Hd.
Qed.

(** ** [cleanUTF8String] *)

Lemma cleanLoop_turn f c t :
  cleanLoop (S f) (String c t)
  = match headWidth (String c t) with
    | Some k =>
        bytes_of (take k (String c t)) ++ cleanLoop f (drop k (String c t))
    | None => [byte " "%char] ++ cleanLoop f t
    end.
Proof.
  pose proof (turn_spec c t) as HT.
  cbn [cleanLoop].
  destruct (headWidth (String c t)) as [k|].
  - destruct HT as (_ & r & Hd & He & Hr). rewrite Hd. cbn [snd].
    rewrite Nat2Z.id.
    destruct (Z.eqb_spec r RuneError) as [E|E]; [|rewrite He; reflexivity].
    specialize (Hr E).
    destruct (Z.eqb_spec (Z.of_nat k) 1) as [E1|E1]; [lia|].
    rewrite He. reflexivity.
  - destruct HT as (_ & Hd). rewrite Hd. cbn [snd]. reflexivity.
Qed.

Lemma cleanLoop_repair f s : of_bytes (cleanLoop f s) = repair f s.
Proof.
  revert s. induction f as [|f IH]; intros s; [reflexivity|].
  destruct s as [|c t]; [reflexivity|].
  rewrite cleanLoop_turn. cbn [repair].
  destruct (headWidth (String c t)) as [k|].
  - rewrite of_bytes_app, of_bytes_bytes_of, IH. reflexivity.
  - rewrite of_bytes_app, IH. reflexivity.
Qed.

Lemma validLoop_UTF8 f s :
  (String.length s <= f)%nat -> validLoop f s = true <-> UTF8 s.
Proof.
  revert s. induction f as [|f IH]; intros s Hl.
  - destruct s; cbn [String.length] in Hl; [|lia].
    split; [constructor | reflexivity].
  - destruct s as [|c t]; [split; [constructor | reflexivity]|].
    pose proof (turn_spec c t) as HT.
    destruct (headWidth (String c t)) as [k|] eqn:Hh.
    + destruct HT as (Hv & _). rewrite Hv.
      destruct (headWidth_bound _ _ Hh) as [Hk _].
      assert (Hd : (String.length (drop k (String c t)) <= f)%nat).
      { rewrite str_length_drop. cbn [String.length] in *. lia. }
      rewrite (IH _ Hd). split.
      * intros HU. exact (UTF8_seq _ _ Hh HU).
      * intros HU. inversion HU as [|s' k' Hh' HU' Es]; subst.
        rewrite Hh in Hh'. inversion Hh'; subst. exact HU'.
    + destruct HT as (Hv & _). rewrite Hv. split; [discriminate|].
      intros HU. inversion HU as [|s' k' Hh' HU' Es]; subst. congruence.
Qed.

(** [utf8.ValidString] decides well-formedness. *)
Lemma ValidString_UTF8 s : ValidString s = true <-> UTF8 s.
Proof. apply validLoop_UTF8. lia. Qed.

Lemma repair_UTF8 f s : UTF8 (repair f s).
Proof.
  revert s. induction f as [|f IH]; intros s; [constructor|].
  destruct s as [|c t]; [constructor|]. cbn [repair].
  destruct (headWidth (String c t)) as [k|] eqn:Hh.
  - destruct (headWidth_bound _ _ Hh) as [_ Hk].
    apply (UTF8_seq _ k).
    + apply headWidth_take_app. exact Hh.
    + rewrite str_drop_take_app by exact Hk. apply IH.
  - apply (UTF8_seq _ 1%nat); [reflexivity|]. cbn [drop]. apply IH.
Qed.

Lemma repair_id f s : (String.length s <= f)%nat -> UTF8 s -> repair f s = s.
Proof.
  revert s. induction f as [|f IH]; intros s Hl HU.
  - destruct s; cbn [String.length] in Hl; [reflexivity|lia].
  - destruct s as [|c t]; [reflexivity|]. cbn [repair].
    inversion HU as [|s' k Hh HU' Es]; subst. rewrite Hh.
    destruct (headWidth_bound _ _ Hh) as [Hk _].
    rewrite IH;
      [| rewrite str_length_drop; cbn [String.length] in *; lia | exact HU'].
    apply str_take_drop.
Qed.

Lemma repair_Repaired f s :
  (String.length s <= f)%nat -> Repaired s (repair f s).
Proof.
  revert s. induction f as [|f IH]; intros s Hl.
  - destruct s; cbn [String.length] in Hl; [constructor|lia].
  - destruct s as [|c t]; [constructor|]. cbn [repair].
    destruct (headWidth (String c t)) as [k|] eqn:Hh.
    + destruct (headWidth_bound _ _ Hh) as [Hk _].
      apply Repaired_keep; [exact Hh|]. apply IH.
      rewrite str_length_drop. cbn [String.length] in *. lia.
    + apply Repaired_space; [exact Hh|]. apply IH.
      cbn [String.length] in Hl. lia.
Qed.

(** The repair is a function of the input, and it keeps the length. *)
Lemma Repaired_functional s out1 out2 :
  Repaired s out1 -> Repaired s out2 -> out1 = out2.
Proof.
  intros H1. revert out2.
  induction H1 as [|s k out Hh H1 IH|c t out Hh H1 IH]; intros out2 H2.
  - inversion H2 as [|s' k' out' Hh' H2' Es|]; subst; [reflexivity|].
    discriminate.
  - inversion H2 as [|s' k' out' Hh' H2' Es|c t out' Hh' H2' Es]; subst.
    + discriminate.
    + rewrite Hh in Hh'. inversion Hh'; subst. f_equal. apply IH. exact H2'.
    + congruence.
  - inversion H2 as [|s' k' out' Hh' H2' Es|c' t' out' Hh' H2' Es]; subst.
    + congruence.
    + f_equal. apply IH. exact H2'.
Qed.

Lemma Repaired_length s out :
  Repaired s out -> String.length out = String.length s.
Proof.
  induction 1 as [|s k out Hh H1 IH|c t out Hh H1 IH].
  - reflexivity.
  - destruct (headWidth_bound _ _ Hh) as [_ Hk].
    rewrite str_length_app, str_length_take, IH, str_length_drop. lia.
  - cbn [String.length]. rewrite IH. reflexivity.
Qed.

Lemma cleanUTF8String_repair s :
  cleanUTF8String s = repair (String.length s) s.
Proof.
  unfold cleanUTF8String. destruct (ValidString s) eqn:Hv.
  - symmetry. apply repair_id; [lia|]. apply ValidString_UTF8. exact Hv.
  - apply cleanLoop_repair.
Qed.

Lemma cleanUTF8String_length s :
  String.length (cleanUTF8String s) = String.length s.
Proof.
  rewrite cleanUTF8String_repair. apply Repaired_length, repair_Repaired. lia.
Qed.

Lemma cleanUTF8String_nonempty s :
  s <> EmptyString -> cleanUTF8String s <> EmptyString.
Proof.
  intros Hs Hc. pose proof (cleanUTF8String_length s) as Hl.
  rewrite Hc in Hl. destruct s; [congruence | discriminate].
Qed.

(** C5: the sanitizer is idempotent; its output is valid UTF-8 whatever
    the input (for [utf8.ValidString] and for the table of the Unicode
    standard); the output is the input in which every byte that starts no
    well-formed sequence is replaced by one space, the well-formed
    sequences being kept; a valid input is returned unchanged. *)
Theorem cleanUTF8String_sanitizes s :
  cleanUTF8String (cleanUTF8String s) = cleanUTF8String s
  /\ utf8.ValidString (cleanUTF8String s) = true
  /\ UTF8 (cleanUTF8String s)
  /\ Repaired s (cleanUTF8String s)
  /\ String.length (cleanUTF8String s) = String.length s
  /\ (utf8.ValidString s = true -> cleanUTF8String s = s)
  /\ (UTF8 s -> cleanUTF8String s = s).
Proof.
  pose proof (cleanUTF8String_repair s) as HR.
  assert (HU : UTF8 (cleanUTF8String s)) by (rewrite HR; apply repair_UTF8).
  assert (HV : ValidString (cleanUTF8String s) = true)
    by (apply ValidString_UTF8; exact HU).
  split; [|split; [exact HV|split; [exact HU|split; [|split; [|split]]]]].
  - unfold cleanUTF8String at 1. rewrite HV. reflexivity.
  - rewrite HR. apply repair_Repaired. lia.
  - apply cleanUTF8String_length.
  - intros Hv. unfold cleanUTF8String. rewrite Hv. reflexivity.
  - intros Hu. apply ValidString_UTF8 in Hu. unfold cleanUTF8String.
    rewrite Hu. reflexivity.
Qed.

(** ** The store key *)

Lemma replaceFrom_byte a b s :
  gostrings.replaceFrom (String a "") (String b "") 0 s
  = smap (fun c => if Ascii.eqb c a then b else c) s.
Proof.
  induction s as [|c t IH]; [reflexivity|].
  cbn [gostrings.replaceFrom String.prefix String.length Nat.sub smap].
  destruct (ascii_dec a c) as [->|Hne].
  - rewrite str_prefix_empty, Ascii.eqb_refl, IH. reflexivity.
  - replace (Ascii.eqb c a) with false
      by (symmetry; apply Ascii.eqb_neq; congruence).
    rewrite IH. reflexivity.
Qed.

(** Replacing one byte by another is a map over the bytes. *)
Lemma ReplaceAll_byte s a b :
  gostrings.ReplaceAll s (String a "") (String b "")
  = smap (fun c => if Ascii.eqb c a then b else c) s.
Proof. apply replaceFrom_byte. Qed.

Lemma smap_smap f g s : smap f (smap g s) = smap (fun c => f (g c)) s.
Proof.
  induction s as [|c t IH]; [reflexivity|]. cbn [smap]. rewrite IH.
  reflexivity.
Qed.

Lemma smap_ext f g s : (forall c, f c = g c) -> smap f s = smap g s.
Proof.
  intros H. induction s as [|c t IH]; [reflexivity|]. cbn [smap].
  rewrite H, IH. reflexivity.
Qed.

Lemma truncate_take d :
  (if 500 <? len d then take 500 d else d) = take 500 d.
Proof.
  unfold len.
  destruct (Z.ltb_spec 500 (Z.of_nat (String.length d))); [reflexivity|].
  symmetry. apply str_take_all. lia.
Qed.

(** The eight replacements in a row are the one replacement of the
    specification. *)
Lemma existsDocID_storeKey url : existsDocID url = storeKey url.
Proof.
  unfold existsDocID, storeKey. cbv zeta. rewrite truncate_take.
  rewrite !ReplaceAll_byte, !smap_smap. f_equal. apply smap_ext.
  intros [[] [] [] [] [] [] [] []]; reflexivity.
Qed.

(** C6, as amended: the store key of a URL is the URL with every one of
    the eight characters replaced by an underscore, cut to 500 bytes; the
    lookup, the update and the save compute the same key; two URLs have
    the same key exactly when these replaced and cut strings are equal (so
    the key is not injective). *)
Theorem store_key_spec url :
  existsDocID url = storeKey url
  /\ updateDocID url = existsDocID url
  /\ (forall article, saveDocID article = existsDocID (URL article))
  /\ len (existsDocID url) <= 500
  /\ (forall url',
        existsDocID url = existsDocID url' <-> storeKey url = storeKey url').
Proof.
  split; [apply existsDocID_storeKey|]. split; [reflexivity|].
  split; [reflexivity|]. split.
  - rewrite existsDocID_storeKey. unfold storeKey, len.
    rewrite str_length_take. lia.
  - intros url'. rewrite !existsDocID_storeKey. reflexivity.
Qed.

(** C6, the claim as stated fails: two listing links give distinct
    canonical URLs with the same store key. *)
Lemma store_key_collision :
  reconstructURL Example.cfg "/news/read?id=1"
  <> reconstructURL Example.cfg "/news/read?id.1"
  /\ existsDocID (reconstructURL Example.cfg "/news/read?id=1")
     = existsDocID (reconstructURL Example.cfg "/news/read?id.1").
Proof. split; [discriminate | reflexivity]. Qed.

(** ** The identifiers of a listing link *)

Lemma isDigit_decimal c : regexp.isDigit c = decimal c.
Proof. destruct c as [[] [] [] [] [] [] [] []]; reflexivity. Qed.

Lemma digits_split t :
  exists post, t = regexp.digits t +:+ post
               /\ allDecimal (regexp.digits t) = true
               /\ startsDecimal post = false.
Proof.
  induction t as [|c t (post & Hs & Ha & Hp)].
  - exists EmptyString. repeat split.
  - cbn [regexp.digits]. rewrite isDigit_decimal.
    destruct (decimal c) eqn:Hc.
    + exists post. rewrite str_app_cons, <- Hs. cbn [allDecimal].
      rewrite Hc, Ha. repeat split. exact Hp.
    + exists (String c t). cbn [startsDecimal]. rewrite Hc. repeat split.
Qed.

Lemma digits_app d post :
  allDecimal d = true ->
  regexp.digits (d +:+ post) = d +:+ regexp.digits post.
Proof.
  induction d as [|c d IH]; intros Ha; [reflexivity|].
  cbn [allDecimal] in Ha. apply andb_true_iff in Ha as [Hc Ha].
  rewrite !str_app_cons. cbn [regexp.digits].
  rewrite isDigit_decimal, Hc, IH by exact Ha. reflexivity.
Qed.

Lemma matchHere_Some lit t d :
  regexp.matchHere lit t = Some d ->
  exists post, TokenAt lit t EmptyString d post /\ startsDecimal post = false.
Proof.
  unfold regexp.matchHere, TokenAt.
  destruct (String.prefix lit t) eqn:Hp; [|discriminate].
  apply str_prefix_app in Hp as [r ->]. rewrite str_drop_app.
  destruct (String.eqb_spec (regexp.digits r) EmptyString) as [He|Hne];
    [discriminate|].
  intros E. inversion E; subst d. clear E.
  destruct (digits_split r) as (post & Hs & Ha & Hpost).
  exists post. rewrite str_app_nil_l, <- Hs. repeat split; assumption.
Qed.

Lemma matchHere_None lit t d post :
  regexp.matchHere lit t = None -> ~ TokenAt lit t EmptyString d post.
Proof.
  unfold regexp.matchHere, TokenAt. intros Hm (Hs & Hne & Ha).
  rewrite str_app_nil_l in Hs. subst t.
  replace (String.prefix lit (lit +:+ d +:+ post)) with true in Hm
    by (symmetry; apply str_prefix_app; eauto).
  rewrite str_drop_app, digits_app in Hm by exact Ha.
  destruct (String.eqb_spec (d +:+ regexp.digits post) EmptyString)
    as [He|He]; [|discriminate].
  apply str_app_empty in He. tauto.
Qed.

Lemma token_tail lit c t pre d post :
  TokenAt lit (String c t) pre d post -> pre <> EmptyString ->
  exists pre', pre = String c pre' /\ TokenAt lit t pre' d post.
Proof.
  intros (Hs & Hne & Ha) Hpre. destruct pre as [|c' pre']; [congruence|].
  rewrite str_app_cons in Hs. inversion Hs; subst. exists pre'.
  repeat split; assumption.
Qed.

(** [FindStringSubmatch] finds nothing when the link has no token, and
    otherwise captures the digits of the leftmost one. *)
Lemma FindStringSubmatch_spec lit s :
  (regexp.FindStringSubmatch lit s = [] /\ ~ HasToken lit s)
  \/ (exists d, regexp.FindStringSubmatch lit s = [lit +:+ d; d]
                /\ FirstToken lit s d).
Proof.
  induction s as [|c t IH].
  - cbn [regexp.FindStringSubmatch].
    destruct (regexp.matchHere lit EmptyString) as [d|] eqn:Hm.
    + right. exists d. split; [reflexivity|].
      destruct (matchHere_Some _ _ _ Hm) as (post & Ht & Hp).
      exists EmptyString, post. repeat split; try assumption; try apply Ht.
      intros; cbn [String.length]; lia.
    + left. split; [reflexivity|]. intros (pre & d & post & Ht).
      destruct pre as [|c pre]; [exact (matchHere_None _ _ _ _ Hm Ht)|].
      destruct Ht as [Hs _]. rewrite str_app_cons in Hs. discriminate.
  - cbn [regexp.FindStringSubmatch].
    destruct (regexp.matchHere lit (String c t)) as [d|] eqn:Hm.
    + right. exists d. split; [reflexivity|].
      destruct (matchHere_Some _ _ _ Hm) as (post & Ht & Hp).
      exists EmptyString, post. repeat split; try assumption; try apply Ht.
      intros; cbn [String.length]; lia.
    + destruct IH as [[Hf Hno]|(d & Hf & pre & post & Ht & Hp & Hleft)].
      * left. split; [exact Hf|]. intros (pre & d & post & Ht).
        destruct pre as [|c' pre]; [exact (matchHere_None _ _ _ _ Hm Ht)|].
        destruct (token_tail _ _ _ _ _ _ Ht) as (pre' & _ & Ht');
          [discriminate|].
        apply Hno. exists pre', d, post. exact Ht'.
      * right. exists d. split; [exact Hf|].
        exists (String c pre), post. split; [|split; [exact Hp|]].
        -- destruct Ht as (Hs & Hne & Ha). repeat split; try assumption.
           rewrite str_app_cons, <- Hs. reflexivity.
        -- intros pre' d' post' Ht'.
           destruct pre' as [|c' pre'];
             [exfalso; exact (matchHere_None _ _ _ _ Hm Ht')|].
           destruct (token_tail _ _ _ _ _ _ Ht') as (pre'' & Hp' & Ht'');
             [discriminate|].
           inversion Hp'; subst. apply Hleft in Ht''.
           cbn [String.length]. lia.
Qed.

Lemma FindStringSubmatch_length lit s :
  (1 <? Z.of_nat (length (regexp.FindStringSubmatch lit s))) = true
  <-> HasToken lit s.
Proof.
  destruct (FindStringSubmatch_spec lit s) as [[-> Hno]|(d & -> & Hft)].
  - split; [discriminate | tauto].
  - split; [|reflexivity]. intros _.
    destruct Hft as (pre & post & Ht & _). exists pre, d, post. exact Ht.
Qed.

Lemma reconstructURL_cases cfg link :
  (HasToken "article_id=" link /\ HasToken "office_id=" link ->
   exists articleID officeID,
     FirstToken "article_id=" link articleID
     /\ FirstToken "office_id=" link officeID
     /\ reconstructURL cfg link
        = NaverArticleBaseURL cfg +:+ "/" +:+ officeID +:+ "/" +:+ articleID)
  /\ (~ (HasToken "article_id=" link /\ HasToken "office_id=" link) ->
      reconstructURL cfg link = "https://finance.naver.com" +:+ link).
Proof.
  unfold reconstructURL. cbv zeta.
  pose proof (FindStringSubmatch_length "article_id=" link) as Ha.
  pose proof (FindStringSubmatch_length "office_id=" link) as Ho.
  destruct (FindStringSubmatch_spec "article_id=" link)
    as [[Ea Hna]|(a & Ea & Hfa)];
  destruct (FindStringSubmatch_spec "office_id=" link)
    as [[Eo Hno]|(o & Eo & Hfo)]; rewrite Ea, Eo in *.
  all: split; [intros [H1 H2] | intros Hn].
  all: try tauto.
  all: try reflexivity.
  exists a, o. repeat split; assumption.
Qed.

(** ** Reasoning about computations *)

Lemma post_run {A} (m : M A) s Q :
  post m s Q <-> Q (value (m s)) (final (m s)) (events (m s)).
Proof. unfold post. destruct (m s) as [[a s'] e]. reflexivity. Qed.

Lemma post_ret {A} (a : A) s Q : Q a s [] -> post (ret a) s Q.
Proof. exact (fun H => H). Qed.

Lemma post_bind {A B} (m : M A) (k : A -> M B) s Q :
  post m s (fun a s1 e1 => post (k a) s1 (fun b s2 e2 => Q b s2 (e1 ++ e2))) ->
  post (bind m k) s Q.
Proof.
  unfold post, bind. destruct (m s) as [[a s1] e1].
  destruct (k a s1) as [[b s2] e2]. exact (fun H => H).
Qed.

Lemma post_emit e s Q : Q tt s [e] -> post (emit e) s Q.
Proof. exact (fun H => H). Qed.

Lemma post_log m s Q : Q tt s [EvLog m] -> post (log m) s Q.
Proof. exact (fun H => H). Qed.

Lemma post_sleep ms s Q : Q tt s [EvSleep ms] -> post (sleep ms) s Q.
Proof. exact (fun H => H). Qed.

Lemma post_tick s Q :
  Q (calls s) {| store := store s; calls := S (calls s) |} [] ->
  post tick s Q.
Proof. exact (fun H => H). Qed.

Lemma post_getStore s Q : Q (store s) s [] -> post getStore s Q.
Proof. exact (fun H => H). Qed.

Lemma post_putStore st s Q :
  Q tt {| store := st; calls := calls s |} [] -> post (putStore st) s Q.
Proof. exact (fun H => H). Qed.

Lemma post_Intn env n s Q :
  Q (random env (calls s) mod n)
    {| store := store s; calls := S (calls s) |} [] ->
  post (Intn env n) s Q.
Proof. exact (fun H => H). Qed.

Lemma post_Now env s Q :
  Q (now env (calls s)) {| store := store s; calls := S (calls s) |} [] ->
  post (Now env) s Q.
Proof. exact (fun H => H). Qed.

Lemma post_finish allNews s Q :
  Q (allNews, None) s [EvLog LogComplete] -> post (finish allNews) s Q.
Proof. exact (fun H => H). Qed.

Lemma post_weaken {A} (m : M A) s (Q Q' : A -> State -> list Event -> Prop) :
  post m s Q' -> (forall a s' e, Q' a s' e -> Q a s' e) -> post m s Q.
Proof.
  unfold post. destruct (m s) as [[a s'] e]. intros H HQ. apply HQ, H.
Qed.

Lemma bind_ext {A B} (m : M A) (k1 k2 : A -> M B) s :
  (forall a s', k1 a s' = k2 a s') -> bind m k1 s = bind m k2 s.
Proof.
  intros H. unfold bind. destruct (m s) as [[a s1] e1]. rewrite H.
  reflexivity.
Qed.

(** One step of a computation: the rule of its head, or a case split on
    what the head tests. *)
Ltac wp_step :=
  lazymatch goal with
  | |- post (bind _ _) _ _ => apply post_bind
  | |- post (ret _) _ _ => apply post_ret
  | |- post (emit _) _ _ => apply post_emit
  | |- post (log _) _ _ => apply post_log
  | |- post (sleep _) _ _ => apply post_sleep
  | |- post tick _ _ => apply post_tick
  | |- post getStore _ _ => apply post_getStore
  | |- post (putStore _) _ _ => apply post_putStore
  | |- post (Intn _ _) _ _ => apply post_Intn
  | |- post (Now _) _ _ => apply post_Now
  | |- post (finish _) _ _ => apply post_finish
  | |- post (if ?c then _ else _) _ _ => destruct c eqn:?
  | |- post (match ?x with _ => _ end) _ _ => destruct x eqn:?
  end.

Ltac wp := repeat (wp_step; cbn [store calls app]).
Ltac wp_using H := repeat (wp_step; cbn [store calls app]; rewrite ?H).

Ltac in_events :=
  repeat match goal with
  | H : In _ (_ :: _) |- _ => destruct H as [H|H]
  | H : In _ [] |- _ => destruct H
  | H : In _ (_ ++ _) |- _ => apply in_app_iff in H; destruct H as [H|H]
  end.

Ltac norm_negb :=
  repeat match goal with
  | H : negb _ = true |- _ => apply negb_true_iff in H
  | H : negb _ = false |- _ => apply negb_false_iff in H
  end.

Ltac inv_eqs :=
  repeat match goal with
  | H : (_, _) = (_, _) |- _ => inversion H; clear H; subst
  | H : Some _ = Some _ |- _ => inversion H; clear H; subst
  end.

(** ** The article loop *)

Lemma fetchLoop_events env url fuel retry fullContent s :
  post (fetchLoop env url fuel retry fullContent) s (fun _ s' evs =>
    store s' = store s
    /\ forall e, In e evs -> pageLevel e = false /\ storeOp e = false).
Proof.
  revert retry s. induction fuel as [|fuel IH]; intros retry s.
  - split; [reflexivity | intros e []].
  - cbn [fetchLoop]. wp.
    all: try (split; [reflexivity
                     | intros; in_events; subst; split; reflexivity]).
    all: eapply post_weaken; [apply IH|]; cbn [store calls];
      intros a s' e [Hs He].
    all: split; [exact Hs|]; intros x Hx; in_events; subst;
      try (split; reflexivity); apply He; assumption.
Qed.

(** The number of turns of the article loop is bounded by [retry < 3], not
    by the fuel. *)
Lemma fetchLoop_fuel env url f1 f2 retry fullContent s :
  3 - retry <= Z.of_nat f1 -> 3 - retry <= Z.of_nat f2 ->
  fetchLoop env url f1 retry fullContent s
  = fetchLoop env url f2 retry fullContent s.
Proof.
  revert f2 retry s. induction f1 as [|f1 IH]; intros f2 retry s H1 H2.
  - destruct f2 as [|f2]; [reflexivity|]. cbn [fetchLoop].
    replace (retry <? 3) with false by (symmetry; apply Z.ltb_ge; lia).
    reflexivity.
  - destruct f2 as [|f2]; cbn [fetchLoop].
    + replace (retry <? 3) with false by (symmetry; apply Z.ltb_ge; lia).
      reflexivity.
    + destruct (retry <? 3); [|reflexivity].
      destruct (negb _); [reflexivity|].
      apply bind_ext. intros c s1. apply bind_ext. intros _ s2.
      destruct (clientDo env c url); [reflexivity|].
      apply bind_ext. intros _ s3. apply bind_ext. intros _ s4.
      apply IH; lia.
Qed.

(** The requests and sleeps of the loop, by the answers it gets. *)
Lemma fetchLoop_trace env url fullContent s :
  post (fetchLoop env url 3 0 fullContent) s (fun content s' evs =>
    (if NewRequest_ok env url then
       match clientDo env (calls s) url with
       | Some _ => List.filter netOrSleep evs = [EvFetchArticle (calls s) url]
       | None =>
           match clientDo env (S (calls s)) url with
           | Some _ =>
               List.filter netOrSleep evs
               = [EvFetchArticle (calls s) url; EvSleep 1000;
                  EvFetchArticle (S (calls s)) url]
           | None =>
               List.filter netOrSleep evs
               = [EvFetchArticle (calls s) url; EvSleep 1000;
                  EvFetchArticle (S (calls s)) url; EvSleep 2000;
                  EvFetchArticle (S (S (calls s))) url]
           end
       end
     else List.filter netOrSleep evs = [])
    /\ (length (List.filter isFetchArticle evs) <= 3)%nat
    /\ content = match foundBody env evs with
                 | Some text => TrimSpace env text
                 | None => fullContent
                 end).
Proof.
  cbn [fetchLoop]. wp.
  all: try discriminate.
  all: cbn [List.filter netOrSleep isFetchArticle foundBody length].
  all: unfold bodyOf.
  all: norm_negb.
  all: repeat match goal with H : _ = _ |- _ => rewrite H end.
  all: repeat split; try reflexivity; cbn [length]; lia.
Qed.

(** C3: the article loop makes at most three attempts; an attempt is
    followed by another one only when it ended in a transport error, after
    a sleep of one second (first attempt) or two seconds (second), and no
    sleep follows the third; any response (whatever its status, with or
    without the body container) ends the loop at once. The bound comes
    from the test [retry < 3]: more fuel changes nothing. *)
Theorem article_fetch_retries env url fullContent s :
  let run := fetchLoop env url 3 0 fullContent s in
  (if NewRequest_ok env url then
     match clientDo env (calls s) url with
     | Some _ =>
         List.filter netOrSleep (events run) = [EvFetchArticle (calls s) url]
     | None =>
         match clientDo env (S (calls s)) url with
         | Some _ =>
             List.filter netOrSleep (events run)
             = [EvFetchArticle (calls s) url; EvSleep 1000;
                EvFetchArticle (S (calls s)) url]
         | None =>
             List.filter netOrSleep (events run)
             = [EvFetchArticle (calls s) url; EvSleep 1000;
                EvFetchArticle (S (calls s)) url; EvSleep 2000;
                EvFetchArticle (S (S (calls s))) url]
         end
     end
   else List.filter netOrSleep (events run) = [])
  /\ (length (List.filter isFetchArticle (events run)) <= 3)%nat
  /\ (forall fuel, (3 <= fuel)%nat ->
        fetchLoop env url fuel 0 fullContent s = run).
Proof.
  intros run.
  pose proof (proj1 (post_run _ _ _) (fetchLoop_trace env url fullContent s))
    as (Htrace & Hmax & _).
  fold run in Htrace, Hmax.
  split; [exact Htrace|]. split; [exact Hmax|].
  intros fuel Hf. apply fetchLoop_fuel; lia.
Qed.

Lemma foundBody_app env l1 l2 :
  foundBody env (l1 ++ l2)
  = match foundBody env l1 with
    | Some t => Some t
    | None => foundBody env l2
    end.
Proof.
  induction l1 as [|e l1 IH]; [reflexivity|].
  destruct e; cbn [app foundBody]; try exact IH.
  destruct (bodyOf _); [reflexivity | exact IH].
Qed.

Lemma foundBody_Some env evs text :
  foundBody env evs = Some text ->
  exists c url, In (EvFetchArticle c url) evs
                /\ bodyOf (clientDo env c url) = Some text.
Proof.
  induction evs as [|e evs IH]; [discriminate|].
  destruct e; cbn [foundBody]; intros H;
    try (destruct (IH H) as (c & u & Hin & Hb); exists c, u;
         split; [right; exact Hin | exact Hb]).
  destruct (bodyOf (clientDo env call url)) as [t|] eqn:Hb.
  - inversion H; subst. exists call, url. split; [left; reflexivity|exact Hb].
  - destruct (IH H) as (c & u & Hin & Hb'). exists c, u.
    split; [right; exact Hin | exact Hb'].
Qed.

Lemma foundBody_None env evs :
  foundBody env evs = None ->
  forall c url, In (EvFetchArticle c url) evs ->
                bodyOf (clientDo env c url) = None.
Proof.
  induction evs as [|e evs IH]; [intros _ c url []|].
  destruct e; cbn [foundBody]; intros H c u [Hin|Hin];
    try discriminate; try (apply IH; assumption).
  - inversion Hin; subst. destruct (bodyOf (clientDo env c u)); congruence.
  - destruct (bodyOf (clientDo env call url)); [discriminate|].
    apply IH; assumption.
Qed.

Lemma fetchLoop_spec env url fullContent s :
  post (fetchLoop env url 3 0 fullContent) s (fun content s' evs =>
    store s' = store s
    /\ (forall e, In e evs -> pageLevel e = false /\ storeOp e = false)
    /\ content = match foundBody env evs with
                 | Some text => TrimSpace env text
                 | None => fullContent
                 end).
Proof.
  pose proof (fetchLoop_events env url 3 0 fullContent s) as H1.
  pose proof (fetchLoop_trace env url fullContent s) as H2.
  unfold post in *.
  destruct (fetchLoop env url 3 0 fullContent s) as [[c s'] e].
  destruct H1 as [Hs He]. destruct H2 as (_ & _ & Hc). auto.
Qed.

(** ** The item callback *)

Ltac wp_item :=
  repeat (wp_step; cbn [store calls app];
          try (eapply post_weaken; [apply fetchLoop_spec|];
               cbn [store calls]; intros ? ? ? (? & ? & ?))).

Ltac by_loop_events :=
  match goal with
  | He : forall e, In e ?l -> _, H : In _ ?l |- _ =>
      apply He in H; destruct H; first [discriminate | assumption]
  end.

Lemma validation_passed env s_item :
  (TrimSpace env (subjectText s_item) =? "")%string
  || (teaserOf env s_item =? "")%string
  || (sourceOf env s_item =? "")%string
  || (subjectHref s_item =? "")%string = false
  <-> wellFormedItem env s_item.
Proof.
  unfold wellFormedItem. rewrite !orb_false_iff, !String.eqb_neq. tauto.
Qed.

(** The callback issues no effect of the page loop, and looks up the key
    of the canonical URL only. *)
Lemma processItem_events env cfg s_item allNews s :
  post (processItem env cfg s_item allNews) s (fun _ _ evs =>
    (forall e, In e evs -> pageLevel e = false)
    /\ (forall k, In (EvStoreGet k) evs ->
          k = existsDocID (reconstructURL cfg (subjectHref s_item)))).
Proof.
  unfold processItem.
  unfold articleExistsInFirestore, updateArticleAISummaryToEmpty,
    saveArticleToFirestore.
  wp_item.
  all: try discriminate.
  all: split; [intros ev Hin | intros key Hin]; in_events; subst;
    try reflexivity; try discriminate; try by_loop_events.
  all: try (inversion Hin; reflexivity).
Qed.

Lemma Each_events env cfg newsItems allNews s :
  post (Each env cfg newsItems allNews) s (fun _ _ evs =>
    forall e, In e evs -> pageLevel e = false).
Proof.
  revert allNews s. induction newsItems as [|it rest IH]; intros allNews s.
  - intros e [].
  - cbn [Each]. apply post_bind.
    eapply post_weaken; [apply processItem_events|].
    intros a s1 e1 [H1 _]. eapply post_weaken; [apply IH|].
    intros b s2 e2 H2 e Hin. in_events; auto.
Qed.

Lemma processItem_existing env cfg s_item allNews s doc :
  store s !! existsDocID (reconstructURL cfg (subjectHref s_item)) = Some doc ->
  post (processItem env cfg s_item allNews) s (fun allNews' s' evs =>
    (forall e, In e evs -> storeMutation e = true ->
       e = EvStoreUpdate
             (updateDocID (reconstructURL cfg (subjectHref s_item)))
             "aiSummary" "")
    /\ (In (EvStoreUpdate
              (updateDocID (reconstructURL cfg (subjectHref s_item)))
              "aiSummary" "") evs ->
        exists a, DataTo doc = Some a /\ AISummary a = "")
    /\ allNews' = allNews
    /\ (store s' = store s
        \/ store s'
           = <[existsDocID (reconstructURL cfg (subjectHref s_item))
               := <["aiSummary" := VString ""]> doc]> (store s))).
Proof.
  intros Hdoc.
  unfold processItem.
  unfold articleExistsInFirestore, updateArticleAISummaryToEmpty.
  change (updateDocID ?u) with (existsDocID u).
  wp_using Hdoc.
  all: try discriminate.
  all: inv_eqs.
  all: try discriminate.
  all: repeat split; intros; in_events; subst; try discriminate;
    try reflexivity.
  all: try (left; reflexivity); try (right; reflexivity).
  all: eexists; split; [reflexivity|]; apply String.eqb_eq; assumption.
Qed.

(** C1: when the key of the canonical URL of a listing item is in the
    store, the item callback issues no [Set] (no full overwrite); the only
    write to the store that it may issue is the [Update] of the field
    [aiSummary] to the empty string under that key, and it issues it only
    when the stored article reads with an empty [AISummary]; the item adds
    nothing to the result. *)
Theorem existing_article_never_overwritten env cfg s_item allNews s doc :
  store s !! existsDocID (reconstructURL cfg (subjectHref s_item)) = Some doc ->
  let run := processItem env cfg s_item allNews s in
  let key := existsDocID (reconstructURL cfg (subjectHref s_item)) in
  (forall k article, ~ In (EvStoreSet k article) (events run))
  /\ (forall e, In e (events run) -> storeMutation e = true ->
        e = EvStoreUpdate key "aiSummary" "")
  /\ (In (EvStoreUpdate key "aiSummary" "") (events run) ->
      exists a, DataTo doc = Some a /\ AISummary a = "")
  /\ value run = allNews
  /\ (store (final run) = store s
      \/ store (final run)
         = <[key := <["aiSummary" := VString ""]> doc]> (store s)).
Proof.
  intros Hdoc run key.
  pose proof (proj1 (post_run _ _ _)
                (processItem_existing env cfg s_item allNews s doc Hdoc))
    as (Hmut & Hupd & Hval & Hst).
  fold run in Hmut, Hupd, Hval, Hst.
  change (updateDocID (reconstructURL cfg (subjectHref s_item))) with key
    in Hmut, Hupd.
  fold key in Hst.
  split; [|auto].
  intros k article Hin. specialize (Hmut _ Hin eq_refl). discriminate.
Qed.

Lemma processItem_check_failed env cfg s_item allNews s :
  wellFormedItem env s_item ->
  DuplicateCheckFails env s (reconstructURL cfg (subjectHref s_item)) ->
  post (processItem env cfg s_item allNews) s (fun allNews' s' evs =>
    (exists e, In (EvLog (LogExistenceCheckError e)) evs)
    /\ (forall ev, In ev evs ->
          storeMutation ev = false /\ isFetchArticle ev = false)
    /\ allNews' = allNews
    /\ store s' = store s).
Proof.
  intros Hwf Hfail. apply validation_passed in Hwf.
  unfold processItem. fold (teaserOf env s_item) (sourceOf env s_item).
  rewrite Hwf.
  unfold articleExistsInFirestore.
  destruct Hfail as [Hf|[Hf|[Hf|(Hf & doc & Hdoc & Hconv)]]]; rewrite ?Hf.
  all: repeat (wp_step; cbn [store calls app negb];
               rewrite ?Hf, ?Hdoc, ?Hconv).
  all: try discriminate.
  all: repeat split; try (eexists; cbn [In]; eauto 6; fail).
  all: intros; in_events; subst; reflexivity.
Qed.

Lemma Each_cons env cfg s_item rest allNews s :
  Each env cfg (s_item :: rest) allNews s
  = (let run := processItem env cfg s_item allNews s in
     let next := Each env cfg rest (value run) (final run) in
     (value next, final next, events run ++ events next)).
Proof.
  cbn [Each]. unfold bind, value, final, events.
  destruct (processItem env cfg s_item allNews s) as [[a s1] e1].
  cbn [fst snd]. destruct (Each env cfg rest a s1) as [[b s2] e2].
  reflexivity.
Qed.

(** C7: when the duplicate check of an item fails (the store cannot be
    reached, the lookup fails, or the stored document cannot be
    converted), the failure is logged, the item issues no write to the
    store and no request, leaves the result and the store as they were,
    and the callback goes on with the next item. *)
Theorem failed_duplicate_check_skips_item env cfg s_item rest allNews s :
  wellFormedItem env s_item ->
  DuplicateCheckFails env s (reconstructURL cfg (subjectHref s_item)) ->
  let run := processItem env cfg s_item allNews s in
  let next := Each env cfg rest allNews (final run) in
  (exists e, In (EvLog (LogExistenceCheckError e)) (events run))
  /\ (forall ev, In ev (events run) ->
        storeMutation ev = false /\ isFetchArticle ev = false)
  /\ value run = allNews
  /\ store (final run) = store s
  /\ Each env cfg (s_item :: rest) allNews s
     = (value next, final next, events run ++ events next).
Proof.
  intros Hwf Hfail run next.
  pose proof (proj1 (post_run _ _ _)
                (processItem_check_failed env cfg s_item allNews s Hwf Hfail))
    as (Hlog & Hev & Hval & Hst).
  fold run in Hlog, Hev, Hval, Hst.
  repeat (split; [assumption|]).
  rewrite Each_cons. cbv zeta. fold run. rewrite Hval. reflexivity.
Qed.

Lemma processItem_persisted env cfg s_item allNews s :
  post (processItem env cfg s_item allNews) s (fun _ _ evs =>
    forall k article, In (EvStoreSet k article) evs ->
      wellFormedItem env s_item
      /\ Content article
         = cleanUTF8String
             match foundBody env evs with
             | Some text => TrimSpace env text
             | None => teaserOf env s_item
             end
      /\ Summary article = cleanUTF8String (teaserOf env s_item)).
Proof.
  unfold processItem. fold (teaserOf env s_item) (sourceOf env s_item).
  unfold articleExistsInFirestore, updateArticleAISummaryToEmpty,
    saveArticleToFirestore.
  wp_item.
  all: try discriminate.
  all: intros k article Hin; in_events; try discriminate.
  all: try by_loop_events.
  all: match goal with H : EvStoreSet _ _ = EvStoreSet _ _ |- _ =>
         inversion H; clear H; subst end.
  all: cbn [Content Summary foundBody].
  all: rewrite ?foundBody_app; cbn [foundBody].
  all: (split; [apply validation_passed; assumption|]).
  all: split; [|reflexivity].
  all: try (destruct (foundBody env _); reflexivity).
  all: reflexivity.
Qed.

(** C4, as amended: the content of every record that the item callback
    saves is the sanitized, trimmed text of the body container when an
    attempt of the article loop found the container, and the sanitized
    teaser of the listing otherwise; in the second case it is the summary
    of the record and it is not empty. (A container without text gives an
    empty content.) *)
Theorem persisted_content env cfg s_item allNews s k article :
  In (EvStoreSet k article) (events (processItem env cfg s_item allNews s)) ->
  let evs := events (processItem env cfg s_item allNews s) in
  Content article
  = cleanUTF8String
      match foundBody env evs with
      | Some text => TrimSpace env text
      | None => teaserOf env s_item
      end
  /\ (forall text, foundBody env evs = Some text ->
        exists c url, In (EvFetchArticle c url) evs
                      /\ bodyOf (clientDo env c url) = Some text)
  /\ (foundBody env evs = None ->
      (forall c url, In (EvFetchArticle c url) evs ->
                     bodyOf (clientDo env c url) = None)
      /\ Content article = Summary article
      /\ Content article <> EmptyString)
  /\ teaserOf env s_item <> EmptyString.
Proof.
  intros Hin evs.
  pose proof (proj1 (post_run _ _ _)
                (processItem_persisted env cfg s_item allNews s) k article Hin)
    as (Hwf & Hc & Hs).
  fold evs in Hc.
  split; [exact Hc|]. split; [apply foundBody_Some|].
  split; [|apply Hwf].
  intros Hnone. split; [apply foundBody_None; exact Hnone|].
  rewrite Hnone in Hc. rewrite Hc, Hs. split; [reflexivity|].
  apply cleanUTF8String_nonempty, Hwf.
Qed.

(** C9: the canonical URL is a function of the listing link and of the
    configuration. For a link that holds both an [article_id=<digits>] and
    an [office_id=<digits>] token it is the article base URL, "/", the
    office identifier, "/", the article identifier, the identifiers being
    the digits of the leftmost token of each kind; for every other link it
    is "https://finance.naver.com" followed by the link. Whatever the
    environment and the state, the key that the item callback looks up is
    the key of that URL. *)
Theorem reconstructURL_spec cfg link :
  (HasToken "article_id=" link /\ HasToken "office_id=" link ->
   exists articleID officeID,
     FirstToken "article_id=" link articleID
     /\ FirstToken "office_id=" link officeID
     /\ reconstructURL cfg link
        = NaverArticleBaseURL cfg +:+ "/" +:+ officeID +:+ "/" +:+ articleID)
  /\ (~ (HasToken "article_id=" link /\ HasToken "office_id=" link) ->
      reconstructURL cfg link = "https://finance.naver.com" +:+ link)
  /\ (forall env s_item allNews s k,
        subjectHref s_item = link ->
        In (EvStoreGet k) (events (processItem env cfg s_item allNews s)) ->
        k = existsDocID (reconstructURL cfg link)).
Proof.
  destruct (reconstructURL_cases cfg link) as [Hids Hother].
  split; [exact Hids|]. split; [exact Hother|].
  intros env s_item allNews s k <- Hin.
  pose proof (proj1 (post_run _ _ _)
                (processItem_events env cfg s_item allNews s)) as [_ Hget].
  apply Hget. exact Hin.
Qed.

(** ** The page loop *)

(** The number of turns of the page loop is bounded by [pageNum <= pages],
    not by the fuel. *)
Lemma pageLoop_fuel env cfg pages f1 f2 pageNum allNews s :
  pages - pageNum + 1 <= Z.of_nat f1 -> pages - pageNum + 1 <= Z.of_nat f2 ->
  pageLoop env cfg pages f1 pageNum allNews s
  = pageLoop env cfg pages f2 pageNum allNews s.
Proof.
  revert f2 pageNum allNews s.
  induction f1 as [|f1 IH]; intros f2 pageNum allNews s H1 H2.
  - destruct f2 as [|f2]; [reflexivity|]. cbn [pageLoop].
    replace (pageNum <=? pages) with false by (symmetry; apply Z.leb_gt; lia).
    reflexivity.
  - destruct f2 as [|f2]; cbn [pageLoop].
    + replace (pageNum <=? pages) with false
        by (symmetry; apply Z.leb_gt; lia).
      reflexivity.
    + destruct (pageNum <=? pages); [|reflexivity].
      destruct (negb _); [reflexivity|].
      apply bind_ext. intros c s1. apply bind_ext. intros _ s2.
      destruct (clientDo env c _) as [resp|]; [|reflexivity].
      destruct (negb _); [reflexivity|].
      destruct (body resp); try reflexivity.
      destruct (_ =? 0); [reflexivity|].
      apply bind_ext. intros news s3. apply bind_ext. intros _ s4.
      apply bind_ext. intros r s5. apply bind_ext. intros _ s6.
      apply IH; lia.
Qed.

Ltac wp_page IH pat :=
  repeat (wp_step; cbn [store calls app];
          try (eapply post_weaken; [apply Each_events|];
               cbn [store calls]; intros news1 st1 ev1 Hitems);
          try (eapply post_weaken; [apply IH|];
               cbn [store calls]; intros res2 st2 ev2 pat)).

(** The listing requests of the loop are those of the pages from
    [pageNum] on, each for the URL of its page; after a page without
    listing nodes there is none. *)
Lemma pageLoop_fetches env cfg pages fuel pageNum allNews s :
  post (pageLoop env cfg pages fuel pageNum allNews) s (fun _ _ evs =>
    (forall c j u, In (EvFetchListing c j u) evs ->
       pageNum <= j <= pages /\ u = pageURL cfg j)
    /\ (forall c k u, In (EvFetchListing c k u) evs ->
          listingNodes (clientDo env c u) = Some [] ->
          forall c' j u', In (EvFetchListing c' j u') evs -> j <= k)).
Proof.
  revert pageNum allNews s.
  induction fuel as [|fuel IH]; intros pageNum allNews s.
  - split; intros; in_events; discriminate.
  - cbn [pageLoop]. wp_page IH ipattern:([Hrange Hstop]).
    all: try (split; intros; in_events; discriminate).
    all: apply Z.leb_le in Heqb.
    all: try (split; intros; in_events; try discriminate;
              repeat match goal with
              | H : EvFetchListing _ _ _ = EvFetchListing _ _ _ |- _ =>
                  inversion H; clear H; subst
              end; first [split; [lia | reflexivity] | lia]).
    (* the page had listing nodes: the loop goes on *)
    assert (Hnodes :
      listingNodes (clientDo env (calls s) (pageURL cfg pageNum))
      = Some (newsList doc)).
    { unfold listingNodes. rewrite Heqo. apply negb_false_iff in Heqb1.
      rewrite Heqb1, Heqb2. reflexivity. }
    split.
    + intros c j u Hin. in_events; try discriminate.
      * inversion Hin; subst. split; [lia | reflexivity].
      * apply Hitems in Hin. discriminate.
      * apply Hrange in Hin. split; [lia | tauto].
    + intros c k u Hin Hempty c' j u' Hin'.
      in_events; try discriminate.
      all: try (apply Hitems in Hin; discriminate).
      all: try (apply Hitems in Hin'; discriminate).
      all: try (inversion Hin; subst; rewrite Hnodes in Hempty;
                inversion Hempty as [Hnil]; rewrite Hnil in Heqb3;
                discriminate).
      * assert (j = pageNum) by congruence. apply Hrange in Hin. lia.
      * eapply Hstop; eassumption.
Qed.

(** The loop returns an error exactly when it logs that the request of a
    page could not be built; that failure, a transport error and a status
    other than 200 each end the listing requests at their page. *)
Lemma pageLoop_error env cfg pages fuel pageNum allNews s :
  post (pageLoop env cfg pages fuel pageNum allNews) s (fun r _ evs =>
    (forall k, In (EvLog (LogPageRequestCreateError k)) evs ->
       pageNum <= k <= pages
       /\ NewRequest_ok env (pageURL cfg k) = false
       /\ snd r = Some (ErrNewRequest (pageURL cfg k))
       /\ forall c j u, In (EvFetchListing c j u) evs -> j < k)
    /\ (snd r <> None ->
        exists k, In (EvLog (LogPageRequestCreateError k)) evs)
    /\ (forall k, In (EvLog (LogPageRequestError k)) evs ->
          pageNum <= k <= pages
          /\ snd r = None
          /\ forall c j u, In (EvFetchListing c j u) evs -> j <= k)
    /\ (forall k code, In (EvLog (LogPageStatusError k code)) evs ->
          pageNum <= k <= pages
          /\ snd r = None
          /\ forall c j u, In (EvFetchListing c j u) evs -> j <= k)).
Proof.
  revert pageNum allNews s.
  induction fuel as [|fuel IH]; intros pageNum allNews s.
  - repeat split; intros; in_events; try discriminate.
    cbn [snd] in *. congruence.
  - cbn [pageLoop]. wp_page IH ipattern:((Hc & He & Ht & Hs)).
    all: try apply Z.leb_le in Heqb.
    all: cbn [snd].
    all: try (split; [|split; [|split]];
              [ intros k Hin; in_events; discriminate
              | intros Hne; congruence
              | intros k Hin; in_events; try discriminate;
                assert (k = pageNum) by congruence;
                split; try lia; split; try reflexivity;
                intros c j u Hj; in_events;
                try discriminate; assert (j = k) by congruence; lia
              | intros k code Hin; in_events; try discriminate;
                assert (k = pageNum) by congruence;
                split; try lia; split; try reflexivity;
                intros c j u Hj; in_events;
                try discriminate; assert (j = k) by congruence; lia ]; fail).
    + (* the request cannot be built *)
      apply negb_true_iff in Heqb0.
      split; [|split; [|split]].
      * intros k Hin. in_events. inversion Hin; subst.
        split; [lia|]. split; [assumption|]. split; [reflexivity|].
        intros c j u Hj. in_events. discriminate.
      * intros _. exists pageNum. left. reflexivity.
      * intros k Hin. in_events. discriminate.
      * intros k code Hin. in_events. discriminate.
    + (* the loop goes on *)
      split; [|split; [|split]].
      * intros k Hin. in_events; try discriminate.
        -- apply Hitems in Hin. discriminate.
        -- apply Hc in Hin. destruct Hin as (Hk & Hbad & Herr & Hbefore).
           split; [lia|]. split; [exact Hbad|]. split; [exact Herr|].
           intros c j u Hj. in_events; try discriminate.
           ++ assert (j = pageNum) by congruence. lia.
           ++ apply Hitems in Hj. discriminate.
           ++ eapply Hbefore; eassumption.
      * intros Hne. destruct (He Hne) as [k Hk]. exists k.
        right. apply in_app_iff. right. right. right. exact Hk.
      * intros k Hin. in_events; try discriminate.
        -- apply Hitems in Hin. discriminate.
        -- apply Ht in Hin. destruct Hin as (Hk & Herr & Hbefore).
           split; [lia|]. split; [exact Herr|].
           intros c j u Hj. in_events; try discriminate.
           ++ assert (j = pageNum) by congruence. lia.
           ++ apply Hitems in Hj. discriminate.
           ++ eapply Hbefore; eassumption.
      * intros k code Hin. in_events; try discriminate.
        -- apply Hitems in Hin. discriminate.
        -- apply Hs in Hin. destruct Hin as (Hk & Herr & Hbefore).
           split; [lia|]. split; [exact Herr|].
           intros c j u Hj. in_events; try discriminate.
           ++ assert (j = pageNum) by congruence. lia.
           ++ apply Hitems in Hj. discriminate.
           ++ eapply Hbefore; eassumption.
Qed.

(** A request that cannot be built is logged only for a page that the loop
    has reached: every page before it was collected to its end. *)
Lemma pageLoop_reached env cfg pages fuel pageNum allNews s :
  post (pageLoop env cfg pages fuel pageNum allNews) s (fun _ _ evs =>
    forall k, In (EvLog (LogPageRequestCreateError k)) evs ->
    forall j, pageNum <= j < k ->
      exists n, In (EvLog (LogPageComplete j n)) evs).
Proof.
  revert pageNum allNews s.
  induction fuel as [|fuel IH]; intros pageNum allNews s.
  - intros k Hin. in_events; discriminate.
  - cbn [pageLoop]. wp_page IH ipattern:(Hreached).
    all: intros k Hin; in_events; try discriminate.
    + inversion Hin; subst. intros j Hj. lia.
    + apply Hitems in Hin. discriminate.
    + intros j Hj. destruct (Z.eq_dec j pageNum) as [->|Hne].
      * eexists. right. apply in_or_app. right. left. reflexivity.
      * destruct (Hreached k Hin j ltac:(lia)) as [n Hn]. exists n.
        right. apply in_or_app. right. right. right. exact Hn.
Qed.

(** When the request of a page that the loop reaches cannot be built, the
    loop returns the error of that request. *)
Lemma pageLoop_construction_error env cfg pages fuel pageNum allNews s k :
  pages - pageNum + 1 <= Z.of_nat fuel ->
  pageNum <= k <= pages ->
  NewRequest_ok env (pageURL cfg k) = false ->
  post (pageLoop env cfg pages fuel pageNum allNews) s (fun r _ evs =>
    (forall j, pageNum <= j < k ->
       exists n, In (EvLog (LogPageComplete j n)) evs) ->
    snd r = Some (ErrNewRequest (pageURL cfg k))).
Proof.
  revert pageNum allNews s.
  induction fuel as [|fuel IH]; intros pageNum allNews s Hfuel Hk Hbad.
  - cbn [Z.of_nat] in Hfuel. lia.
  - cbn [pageLoop].
    destruct (Z.eq_dec k pageNum) as [->|Hne].
    + replace (pageNum <=? pages) with true by (symmetry; apply Z.leb_le; lia).
      rewrite Hbad. cbn [negb]. wp. intros _. reflexivity.
    + assert (Hnext : pages - (pageNum + 1) + 1 <= Z.of_nat fuel) by lia.
      assert (Hk' : pageNum + 1 <= k <= pages) by lia.
      pose proof (fun a s0 => IH (pageNum + 1) a s0 Hnext Hk' Hbad) as IH'.
      clear IH.
      wp_page IH' ipattern:(Herr).
      all: intros Hdone.
      all: try (apply Z.leb_gt in Heqb; lia).
      all: try (destruct (Hdone pageNum ltac:(lia)) as [n Hn];
                in_events; discriminate).
      apply Herr. intros j Hj.
      destruct (Hdone j ltac:(lia)) as [n Hn]. exists n.
      in_events; try discriminate.
      * apply Hitems in Hn. discriminate.
      * inversion Hn; subst. lia.
      * exact Hn.
Qed.

Lemma Crawl_run env cfg pages s :
  value (CrawlNaverFinanceNews env cfg pages s)
  = value (pageLoop env cfg pages (Z.to_nat pages) 1 [] s)
  /\ events (CrawlNaverFinanceNews env cfg pages s)
     = EvLog (LogStart pages)
       :: events (pageLoop env cfg pages (Z.to_nat pages) 1 [] s).
Proof.
  unfold CrawlNaverFinanceNews, value, events, bind, log, emit.
  destruct (pageLoop _ _ _ _ _ _ _) as [[r s'] evs]. split; reflexivity.
Qed.

(** C10: for a page count of zero or less the run returns the empty list
    and no error, makes no call to the outside world (no request, no store
    operation: the state is unchanged and the trace holds the two log
    lines only); the body of the page loop is not entered, whatever the
    fuel. *)
Theorem no_pages_no_effects env cfg pages s :
  pages <= 0 ->
  CrawlNaverFinanceNews env cfg pages s
  = (([], None), s, [EvLog (LogStart pages); EvLog LogComplete])
  /\ (forall fuel, pageLoop env cfg pages fuel 1 [] s = finish [] s).
Proof.
  intros Hp. split.
  - unfold CrawlNaverFinanceNews. replace (Z.to_nat pages) with 0%nat by lia.
    reflexivity.
  - intros [|fuel]; [reflexivity|]. cbn [pageLoop].
    replace (1 <=? pages) with false by (symmetry; apply Z.leb_gt; lia).
    reflexivity.
Qed.

(** C8: when the listing request of page [k] is answered by a page
    without listing nodes, the run requests no page of a greater number,
    whatever the page count. *)
Theorem empty_page_stops_run env cfg pages s c k u :
  In (EvFetchListing c k u) (events (CrawlNaverFinanceNews env cfg pages s)) ->
  listingNodes (clientDo env c u) = Some [] ->
  forall c' j u',
    ~ (k < j /\ In (EvFetchListing c' j u')
                   (events (CrawlNaverFinanceNews env cfg pages s))).
Proof.
  intros Hin Hempty c' j u' [Hlt Hin'].
  pose proof (proj1 (post_run _ _ _)
                (pageLoop_fetches env cfg pages (Z.to_nat pages) 1 [] s))
    as [_ Hstop].
  destruct (Crawl_run env cfg pages s) as [_ Hev].
  rewrite Hev in Hin, Hin'.
  destruct Hin as [Hin|Hin]; [discriminate|].
  destruct Hin' as [Hin'|Hin']; [discriminate|].
  specialize (Hstop c k u Hin Hempty c' j u' Hin'). lia.
Qed.

(** C2, as amended: the run returns an error exactly when the request of
    a listing page could not be built, which stops the run before that
    page is requested; a transport error or a status other than 200 on a
    listing page stops the run at that page with a nil error; and when
    every page request can be built the error is nil, whatever happens to
    the items (duplicate check, article fetch, save). In terms of the
    world: when the request of a page [k] of the run cannot be built and
    the run has collected every page before [k] to its end, the run
    returns the error of that request; and a run returns an error only
    for such a page. *)
Theorem crawl_error_only_from_request_construction env cfg pages s :
  let run := CrawlNaverFinanceNews env cfg pages s in
  (snd (value run) <> None
   <-> exists k, In (EvLog (LogPageRequestCreateError k)) (events run))
  /\ (forall k, In (EvLog (LogPageRequestCreateError k)) (events run) ->
        1 <= k <= pages
        /\ NewRequest_ok env (pageURL cfg k) = false
        /\ snd (value run) = Some (ErrNewRequest (pageURL cfg k))
        /\ forall c j u, In (EvFetchListing c j u) (events run) -> j < k)
  /\ (forall k, In (EvLog (LogPageRequestError k)) (events run) ->
        snd (value run) = None
        /\ forall c j u, In (EvFetchListing c j u) (events run) -> j <= k)
  /\ (forall k code, In (EvLog (LogPageStatusError k code)) (events run) ->
        snd (value run) = None
        /\ forall c j u, In (EvFetchListing c j u) (events run) -> j <= k)
  /\ ((forall k, 1 <= k <= pages -> NewRequest_ok env (pageURL cfg k) = true) ->
      snd (value run) = None)
  /\ (forall k,
        1 <= k <= pages ->
        NewRequest_ok env (pageURL cfg k) = false ->
        (forall j, 1 <= j < k ->
           exists n, In (EvLog (LogPageComplete j n)) (events run)) ->
        snd (value run) = Some (ErrNewRequest (pageURL cfg k)))
  /\ (snd (value run) <> None ->
      exists k,
        1 <= k <= pages
        /\ NewRequest_ok env (pageURL cfg k) = false
        /\ forall j, 1 <= j < k ->
             exists n, In (EvLog (LogPageComplete j n)) (events run)).
Proof.
  intros run.
  pose proof (proj1 (post_run _ _ _)
                (pageLoop_error env cfg pages (Z.to_nat pages) 1 [] s))
    as (Hc & He & Ht & Hs).
  pose proof (proj1 (post_run _ _ _)
                (pageLoop_reached env cfg pages (Z.to_nat pages) 1 [] s))
    as Hreached.
  pose proof (fun k (Hk : 1 <= k <= pages) Hbad =>
                proj1 (post_run _ _ _)
                  (pageLoop_construction_error env cfg pages (Z.to_nat pages)
                     1 [] s k ltac:(lia) Hk Hbad))
    as Hconstr.
  destruct (Crawl_run env cfg pages s) as [Hv Hev].
  fold run in Hv, Hev. rewrite Hv, Hev. clear Hv Hev.
  set (loop := pageLoop env cfg pages (Z.to_nat pages) 1 [] s) in *.
  assert (Hfetch : forall c j u,
    In (EvFetchListing c j u) (EvLog (LogStart pages) :: events loop) ->
    In (EvFetchListing c j u) (events loop)).
  { intros c j u [Hin|Hin]; [discriminate | exact Hin]. }
  assert (Hcreate : forall k,
    In (EvLog (LogPageRequestCreateError k))
       (EvLog (LogStart pages) :: events loop) ->
    In (EvLog (LogPageRequestCreateError k)) (events loop)).
  { intros k [Hin|Hin]; [discriminate | exact Hin]. }
  split; [split|split; [|split; [|split; [|split; [|split]]]]].
  - intros Hne. destruct (He Hne) as [k Hk]. exists k. right. exact Hk.
  - intros [k Hk]. apply Hcreate, Hc in Hk. destruct Hk as (_ & _ & -> & _).
    discriminate.
  - intros k Hk. apply Hcreate, Hc in Hk.
    destruct Hk as (Hr & Hbad & Herr & Hbefore).
    repeat (split; [assumption|]). intros c j u Hj. eapply Hbefore, Hfetch, Hj.
  - intros k [Hin|Hin]; [discriminate|].
    destruct (Ht _ Hin) as (_ & Herr & Hbefore).
    split; [exact Herr|]. intros c j u Hj. eapply Hbefore, Hfetch, Hj.
  - intros k code [Hin|Hin]; [discriminate|].
    destruct (Hs _ _ Hin) as (_ & Herr & Hbefore).
    split; [exact Herr|]. intros c j u Hj. eapply Hbefore, Hfetch, Hj.
  - intros Hok.
    destruct (snd (value loop)) as [e|] eqn:Herr; [|reflexivity].
    destruct He as [k Hk]; [discriminate|].
    apply Hc in Hk. destruct Hk as (Hr & Hbad & _).
    rewrite Hok in Hbad by lia. discriminate.
  - intros k Hk Hbad Hdone. apply (Hconstr k Hk Hbad).
    intros j Hj. destruct (Hdone j Hj) as [n [Hn|Hn]]; [discriminate|].
    exists n. exact Hn.
  - intros Hne. destruct (He Hne) as [k Hk].
    destruct (Hc k Hk) as (Hr & Hbad & _).
    exists k. split; [exact Hr|]. split; [exact Hbad|].
    intros j Hj. destruct (Hreached k Hk j Hj) as [n Hn].
    exists n. right. exact Hn.
Qed.

(** ** The statements on the small world *)

Ltac find_event := repeat (first [left; reflexivity | right]).

(** C1 on a stored article that lacks the field: the item issues the
    update and no overwrite. *)
Lemma existing_article_witness :
  store Example.stored
    !! existsDocID (reconstructURL Example.cfg (subjectHref Example.item))
  = Some Example.oldDocument
  /\ (forall k article,
        ~ In (EvStoreSet k article)
            (events (processItem
                       (Example.world (Example.site None None) Example.healthy)
                       Example.cfg Example.item [] Example.stored))).
Proof.
  assert (H : store Example.stored
                !! existsDocID
                     (reconstructURL Example.cfg (subjectHref Example.item))
              = Some Example.oldDocument) by (vm_compute; reflexivity).
  split; [exact H|].
  exact (proj1 (existing_article_never_overwritten
                  (Example.world (Example.site None None) Example.healthy)
                  Example.cfg Example.item [] Example.stored
                  Example.oldDocument H)).
Defined.

(** C2, the claim as stated fails: a transport error on the first listing
    page, and a status 503 on it, stop the run and the error is nil. *)
Lemma listing_failure_returns_nil_error :
  CrawlNaverFinanceNews
    (Example.world (Example.site None None) Example.healthy)
    Example.cfg 1 Example.empty
  = (([], None), {| store := ∅; calls := 1 |},
     [EvLog (LogStart 1);
      EvFetchListing 0 1 "https://finance.naver.com/news/mainnews.naver?page=1";
      EvLog (LogPageRequestError 1); EvLog LogNetworkIssue;
      EvLog LogComplete])
  /\ CrawlNaverFinanceNews
       (Example.world
          (Example.site
             (Some {| StatusCode := 503; body := BodyUnreadable |}) None)
          Example.healthy)
       Example.cfg 1 Example.empty
     = (([], None), {| store := ∅; calls := 1 |},
        [EvLog (LogStart 1);
         EvFetchListing 0 1
           "https://finance.naver.com/news/mainnews.naver?page=1";
         EvLog (LogPageStatusError 1 503); EvLog LogComplete]).
Proof. split; vm_compute; reflexivity. Qed.

(** C2 on a site that is down: every request can be built, the error is
    nil; and on a run of three pages where the request of the second page
    cannot be built: the first page is collected and the run returns the
    error of that request. *)
Lemma crawl_error_witness :
  ((forall k, 1 <= k <= 1 ->
      NewRequest_ok (Example.world (Example.site None None) Example.healthy)
        (pageURL Example.cfg k) = true)
   /\ snd (value (CrawlNaverFinanceNews
                    (Example.world (Example.site None None) Example.healthy)
                    Example.cfg 1 Example.empty)) = None)
  /\ (NewRequest_ok Example.secondPageUnbuildable (pageURL Example.cfg 2)
      = false
      /\ snd (value (CrawlNaverFinanceNews Example.secondPageUnbuildable
                       Example.cfg 3 Example.empty))
         = Some (ErrNewRequest (pageURL Example.cfg 2))).
Proof.
  assert (H : forall k, 1 <= k <= 1 ->
     NewRequest_ok (Example.world (Example.site None None) Example.healthy)
       (pageURL Example.cfg k) = true) by (intros; reflexivity).
  assert (Hbad : NewRequest_ok Example.secondPageUnbuildable
                   (pageURL Example.cfg 2) = false)
    by (vm_compute; reflexivity).
  assert (Hdone : forall j, 1 <= j < 2 ->
            exists n, In (EvLog (LogPageComplete j n))
                        (events (CrawlNaverFinanceNews
                                   Example.secondPageUnbuildable
                                   Example.cfg 3 Example.empty))).
  { intros j Hj. assert (j = 1) by lia. subst j. exists 1.
    vm_compute. find_event. }
  split; split; [exact H | | exact Hbad | ].
  - exact (proj1 (proj2 (proj2 (proj2 (proj2
             (crawl_error_only_from_request_construction
                (Example.world (Example.site None None) Example.healthy)
                Example.cfg 1 Example.empty))))) H).
  - exact (proj1 (proj2 (proj2 (proj2 (proj2 (proj2
             (crawl_error_only_from_request_construction Example.secondPageUnbuildable
                Example.cfg 3 Example.empty))))))
             2 ltac:(lia) Hbad Hdone).
Defined.

(** C4 on an article whose body is found at the first attempt. *)
Lemma persisted_content_witness :
  In (EvStoreSet Example.articleKey (Example.savedArticle "BODY"))
     (events (processItem
                (Example.world
                   (Example.site None (Some (Example.article "BODY")))
                   Example.healthy)
                Example.cfg Example.item [] Example.empty))
  /\ teaserOf (Example.world
                 (Example.site None (Some (Example.article "BODY")))
                 Example.healthy) Example.item <> EmptyString.
Proof.
  assert (H : In (EvStoreSet Example.articleKey (Example.savedArticle "BODY"))
     (events (processItem
                (Example.world
                   (Example.site None (Some (Example.article "BODY")))
                   Example.healthy)
                Example.cfg Example.item [] Example.empty)))
    by (vm_compute; find_event).
  split; [exact H|].
  exact (proj2 (proj2 (proj2 (persisted_content _ _ _ _ _ _ _ H)))).
Defined.

(** C4, the claim as stated fails: the body container of the article is
    found and holds no text; the saved content is empty although the
    teaser is not. *)
Lemma persisted_content_may_be_empty :
  teaserOf (Example.world
              (Example.site None (Some (Example.article "")))
              Example.healthy) Example.item = "teaser"
  /\ In (EvStoreSet Example.articleKey (Example.savedArticle ""))
        (events (processItem
                   (Example.world
                      (Example.site None (Some (Example.article "")))
                      Example.healthy)
                   Example.cfg Example.item [] Example.empty))
  /\ Content (Example.savedArticle "") = EmptyString.
Proof.
  split; [reflexivity|]. split; [vm_compute; find_event | reflexivity].
Qed.

(** C5 on a valid string. *)
Lemma cleanUTF8String_witness :
  utf8.ValidString "teaser" = true /\ cleanUTF8String "teaser" = "teaser".
Proof.
  assert (H : utf8.ValidString "teaser" = true) by reflexivity.
  split; [exact H|].
  exact (proj1 (proj2 (proj2 (proj2 (proj2 (proj2
           (cleanUTF8String_sanitizes "teaser")))))) H).
Defined.

(** C7 on a store whose lookups fail. *)
Lemma failed_duplicate_check_witness :
  wellFormedItem (Example.world (Example.site None None) Example.failing)
    Example.item
  /\ DuplicateCheckFails
       (Example.world (Example.site None None) Example.failing)
       Example.stored (reconstructURL Example.cfg (subjectHref Example.item))
  /\ store (final (processItem
                     (Example.world (Example.site None None) Example.failing)
                     Example.cfg Example.item [] Example.stored))
     = store Example.stored.
Proof.
  assert (Hwf : wellFormedItem
                  (Example.world (Example.site None None) Example.failing)
                  Example.item) by (repeat split; discriminate).
  assert (Hfail : DuplicateCheckFails
       (Example.world (Example.site None None) Example.failing)
       Example.stored (reconstructURL Example.cfg (subjectHref Example.item)))
    by (right; right; left; reflexivity).
  split; [exact Hwf|]. split; [exact Hfail|].
  exact (proj1 (proj2 (proj2 (proj2
           (failed_duplicate_check_skips_item _ Example.cfg Example.item []
              [] Example.stored Hwf Hfail))))).
Defined.

(** C8 on a site whose first listing page has no node: of three pages,
    the second is not requested. *)
Lemma empty_page_witness :
  In (EvFetchListing 0 1 (pageURL Example.cfg 1))
     (events (CrawlNaverFinanceNews
                (Example.world
                   (Example.site (Some (Example.listing [])) None)
                   Example.healthy)
                Example.cfg 3 Example.empty))
  /\ listingNodes
       (clientDo (Example.world
                    (Example.site (Some (Example.listing [])) None)
                    Example.healthy) 0 (pageURL Example.cfg 1)) = Some []
  /\ ~ (1 < 2
        /\ In (EvFetchListing 1 2 (pageURL Example.cfg 2))
              (events (CrawlNaverFinanceNews
                         (Example.world
                            (Example.site (Some (Example.listing [])) None)
                            Example.healthy)
                         Example.cfg 3 Example.empty))).
Proof.
  assert (Hin : In (EvFetchListing 0 1 (pageURL Example.cfg 1))
     (events (CrawlNaverFinanceNews
                (Example.world
                   (Example.site (Some (Example.listing [])) None)
                   Example.healthy)
                Example.cfg 3 Example.empty)))
    by (vm_compute; find_event).
  assert (Hempty : listingNodes
       (clientDo (Example.world
                    (Example.site (Some (Example.listing [])) None)
                    Example.healthy) 0 (pageURL Example.cfg 1)) = Some [])
    by reflexivity.
  split; [exact Hin|]. split; [exact Hempty|].
  exact (empty_page_stops_run _ _ _ _ _ _ _ Hin Hempty 1%nat 2 _).
Defined.

(** C9 on the link of the example. *)
Lemma reconstructURL_witness :
  (HasToken "article_id=" Example.link /\ HasToken "office_id=" Example.link)
  /\ exists articleID officeID,
       FirstToken "article_id=" Example.link articleID
       /\ FirstToken "office_id=" Example.link officeID
       /\ reconstructURL Example.cfg Example.link
          = NaverArticleBaseURL Example.cfg +:+ "/" +:+ officeID
            +:+ "/" +:+ articleID.
Proof.
  assert (H : HasToken "article_id=" Example.link
              /\ HasToken "office_id=" Example.link).
  { split.
    - exists "/news/news_read.naver?", "0005023871",
        "&office_id=018&mode=mainnews".
      repeat split. discriminate.
    - exists "/news/news_read.naver?article_id=0005023871&", "018",
        "&mode=mainnews".
      repeat split. discriminate. }
  split; [exact H|].
  exact (proj1 (reconstructURL_spec Example.cfg Example.link) H).
Defined.

(** C10 on a page count of zero. *)
Lemma no_pages_witness :
  0 <= 0
  /\ CrawlNaverFinanceNews
       (Example.world (Example.site None None) Example.healthy)
       Example.cfg 0 Example.empty
     = (([], None), Example.empty, [EvLog (LogStart 0); EvLog LogComplete]).
Proof.
  assert (H : 0 <= 0) by lia.
  split; [exact H|].
  exact (proj1 (no_pages_no_effects
                  (Example.world (Example.site None None) Example.healthy)
                  Example.cfg 0 Example.empty H)).
Defined.

(** ** The scenarios of the specification, run on the small world *)

(** One well-formed item whose article body is found: one record is
    saved, with the text of the body as its content. *)
Example scenario_body_found :
  let run := processItem
               (Example.world
                  (Example.site None (Some (Example.article "BODY")))
                  Example.healthy)
               Example.cfg Example.item [] Example.empty in
  value run = [Example.savedArticle "BODY"]
  /\ store (final run) !! Example.articleKey
     = Some (toDocument (Example.savedArticle "BODY"))
  /\ events run
     = [EvStoreGet Example.articleKey;
        EvFetchArticle 1 Example.articleURL;
        EvStoreSet Example.articleKey (Example.savedArticle "BODY");
        EvLog (LogSaved "Title"); EvSleep 200].
Proof. vm_compute. repeat split. Qed.

(** One item whose article is stored without a summary: nothing is saved,
    one update of the field is issued. *)
Example scenario_existing_article :
  let run := processItem
               (Example.world (Example.site None None) Example.healthy)
               Example.cfg Example.item [] Example.stored in
  value run = []
  /\ store (final run) !! Example.articleKey
     = Some (<["aiSummary" := VString ""]> Example.oldDocument)
  /\ events run
     = [EvStoreGet Example.articleKey;
        EvStoreUpdate Example.articleKey "aiSummary" "";
        EvLog (LogUpdated Example.articleURL);
        EvLog (LogAlreadyExists Example.articleURL)].
Proof. vm_compute. repeat split. Qed.

(** The article cannot be fetched: three attempts, sleeps of one and two
    seconds between them, and the teaser is saved as the content. *)
Example scenario_article_unreachable :
  let run := processItem
               (Example.world (Example.site None None) Example.healthy)
               Example.cfg Example.item [] Example.empty in
  List.filter netOrSleep (events run)
  = [EvFetchArticle 1 Example.articleURL; EvSleep 1000;
     EvFetchArticle 2 Example.articleURL; EvSleep 2000;
     EvFetchArticle 3 Example.articleURL; EvSleep 200]
  /\ map Content (value run) = ["teaser"].
Proof. vm_compute. repeat split. Qed.

(** Two pages that list the same item: the second page finds the record
    that the first one saved and only resets its summary. *)
Example scenario_two_pages :
  let run := CrawlNaverFinanceNews
               (Example.world
                  (Example.site (Some (Example.listing [Example.item]))
                     (Some (Example.article "BODY")))
                  Example.healthy)
               Example.cfg 2 Example.empty in
  List.filter storeOp (events run)
  = [EvStoreGet Example.articleKey;
     EvStoreSet Example.articleKey
       {| Title := "Title"; Summary := "teaser"; Content := "BODY";
          AISummary := ""; Source := "Press"; URL := Example.articleURL;
          CollectedAt := 3 |};
     EvStoreGet Example.articleKey;
     EvStoreUpdate Example.articleKey "aiSummary" ""]
  /\ length (fst (value run)) = 1%nat
  /\ snd (value run) = None.
Proof. vm_compute. repeat split. Qed.

(** * Further properties of the crawler *)

(** ** From the item callback to the run

    A relation between the state before and after a piece of a run that
    holds of every item, is closed under sequencing and holds of the
    effects of the page loop itself, holds of the whole run. *)

Ltac page_only R_page :=
  apply R_page;
  [reflexivity
  | repeat first [apply List.Forall_nil | apply List.Forall_cons; [left; reflexivity|]]].

Section Lift.

Variables (env : Env) (cfg : Config).
Variable P : ListingNode -> Prop.
Variable R : list NewsArticle -> State ->
             list NewsArticle -> State -> list Event -> Prop.

Hypothesis R_trans : forall a s a1 s1 e1 a2 s2 e2,
  R a s a1 s1 e1 -> R a1 s1 a2 s2 e2 -> R a s a2 s2 (e1 ++ e2).

Hypothesis R_item : forall s_item a s,
  P s_item ->
  post (processItem env cfg s_item a) s (fun a' s' e => R a s a' s' e).

Hypothesis R_page : forall a s s' evs,
  store s' = store s -> Forall pageEffect evs -> R a s a s' evs.

Hypothesis P_served : forall c u resp doc s_item,
  clientDo env c u = Some resp ->
  body resp = BodyDoc doc ->
  In s_item (newsList doc) ->
  P s_item.

Lemma Each_lift newsItems a s :
  Forall P newsItems ->
  post (Each env cfg newsItems a) s (fun a' s' e => R a s a' s' e).
Proof.
  revert a s. induction newsItems as [|it rest IH]; intros a s HP.
  - apply post_ret. page_only R_page.
  - inversion HP as [|? ? Hit Hrest]; subst.
    cbn [Each]. apply post_bind.
    eapply post_weaken; [apply R_item; exact Hit|].
    intros a1 s1 e1 H1. eapply post_weaken; [apply IH; exact Hrest|].
    intros a2 s2 e2 H2. eapply R_trans; eassumption.
Qed.

Lemma pageLoop_lift pages fuel pageNum a s :
  post (pageLoop env cfg pages fuel pageNum a) s (fun r s' e =>
    R a s (fst r) s' e).
Proof.
  revert pageNum a s. induction fuel as [|fuel IH]; intros pageNum a s.
  - apply post_finish. page_only R_page.
  - cbn [pageLoop].
    destruct (pageNum <=? pages);
      [|apply post_finish; page_only R_page].
    destruct (negb _).
    { apply post_bind, post_log, post_ret. cbn [app fst].
      page_only R_page. }
    apply post_bind, post_tick, post_bind, post_emit.
    cbn [store calls app].
    destruct (clientDo env (calls s) _) as [resp|] eqn:Hdo.
    2:{ wp. page_only R_page. }
    destruct (negb _).
    { wp. page_only R_page. }
    destruct (body resp) as [| |doc] eqn:Hbody.
    1,2: wp; page_only R_page.
    destruct (_ =? 0).
    { wp. page_only R_page. }
    apply post_bind.
    eapply post_weaken.
    { apply Each_lift. apply List.Forall_forall. intros it Hin.
      eapply P_served; eassumption. }
    cbn beta. intros a1 s1 e1 H1.
    apply post_bind, post_log, post_bind, post_Intn, post_bind, post_sleep.
    cbn [store calls app].
    eapply post_weaken; [apply IH|]. cbn [store calls].
    intros r s2 e2 H2.
    change (R a s (fst r) s2
              ([EvFetchListing (calls s) pageNum (pageURL cfg pageNum)]
               ++ e1
               ++ [EvLog (LogPageComplete pageNum (Z.of_nat (length a1)));
                   EvSleep ((random env (calls s1) mod 3 + 2) * 1000)]
               ++ e2)).
    eapply R_trans.
    { apply (R_page a s {| store := store s; calls := S (calls s) |});
        [reflexivity|]. apply List.Forall_cons; [left; reflexivity|].
      apply List.Forall_nil. }
    eapply R_trans; [exact H1|].
    eapply R_trans; [|exact H2].
    apply R_page; [reflexivity|].
    constructor; [left; reflexivity|].
    constructor; [|constructor].
    right. exists (random env (calls s1) mod 3).
    split; [apply Z.mod_pos_bound; lia | reflexivity].
Qed.

Lemma Crawl_lift pages s :
  post (CrawlNaverFinanceNews env cfg pages) s (fun r s' e =>
    R [] s (fst r) s' e).
Proof.
  unfold CrawlNaverFinanceNews. apply post_bind, post_log.
  eapply post_weaken; [apply pageLoop_lift|]. cbn beta.
  intros r s' e H.
  eapply (R_trans _ _ [] s [EvLog (LogStart pages)]); [|exact H].
  page_only R_page.
Qed.

End Lift.

(** ** The records of a run *)

Lemma cleanUTF8String_valid s : ValidString (cleanUTF8String s) = true.
Proof.
  apply ValidString_UTF8. rewrite cleanUTF8String_repair. apply repair_UTF8.
Qed.

Lemma str_app_nonempty a b : b <> EmptyString -> a +:+ b <> EmptyString.
Proof.
  intros Hb H. apply str_app_empty in H. tauto.
Qed.

(** The canonical URL is never empty: the test of line 404 always holds. *)
Lemma reconstructURL_nonempty cfg link : reconstructURL cfg link <> EmptyString.
Proof.
  unfold reconstructURL. cbv zeta. destruct (_ && _).
  - apply str_app_nonempty. rewrite str_app_cons. discriminate.
  - rewrite str_app_cons. discriminate.
Qed.

Ltac find_in :=
  repeat first [left; reflexivity | apply in_or_app; right | right].

Lemma processItem_records env cfg s_item a s :
  post (processItem env cfg s_item a) s (fun a' s' evs =>
    Records a s a' s' evs).
Proof.
  unfold processItem. fold (teaserOf env s_item) (sourceOf env s_item).
  unfold articleExistsInFirestore, updateArticleAISummaryToEmpty,
    saveArticleToFirestore.
  wp_item.
  all: try discriminate.
  all: try (apply validation_passed in Heqb;
            destruct Heqb as (Htitle & Hteaser & Hsource & Hlink)).
  all: split;
    [ intros k x Hin; in_events; try discriminate; try by_loop_events;
      match goal with H : EvStoreSet _ _ = EvStoreSet _ _ |- _ =>
        inversion H; clear H; subst end;
      (split; [|reflexivity]);
      unfold sanitized; cbn [Title Summary Content AISummary Source URL];
      rewrite !cleanUTF8String_valid;
      repeat (split; [reflexivity|]);
      (split; [|split; [|split]]); apply cleanUTF8String_nonempty;
      first [assumption | apply reconstructURL_nonempty]
    | first
        [ exists []; split; [symmetry; apply app_nil_r | intros x []]
        | eexists; split; [reflexivity|];
          intros x [<-|[]]; find_in ] ].
Qed.

Lemma Records_trans a s a1 s1 e1 a2 s2 e2 :
  Records a s a1 s1 e1 -> Records a1 s1 a2 s2 e2 ->
  Records a s a2 s2 (e1 ++ e2).
Proof.
  intros [H1 (d1 & -> & HA1)] [H2 (d2 & -> & HA2)]. split.
  - intros k x Hin. apply in_app_iff in Hin. destruct Hin; eauto.
  - exists (d1 ++ d2). split; [symmetry; apply app_assoc|].
    intros x Hin. apply in_app_iff in Hin. apply in_app_iff.
    destruct Hin; [left | right]; eauto.
Qed.

Lemma pageEffect_not_store e :
  pageEffect e -> storeOp e = false /\ isFetchArticle e = false.
Proof.
  intros [H|(r & _ & ->)]; [|split; reflexivity].
  destruct e; try discriminate; split; reflexivity.
Qed.

Lemma Records_page a s s' evs :
  store s' = store s -> Forall pageEffect evs -> Records a s a s' evs.
Proof.
  intros _ Hev. split.
  - intros k x Hin. rewrite List.Forall_forall in Hev. apply Hev in Hin.
    apply pageEffect_not_store in Hin. destruct Hin; discriminate.
  - exists []. split; [symmetry; apply app_nil_r | intros x []].
Qed.

(** X1: every record that a run writes to the store, and every record that
    it returns, is sanitized (each text field is valid UTF-8, the AI
    summary is empty, and title, summary, source and URL are not empty); a
    record is written under the key of its own URL; and every record
    returned was written by this run. *)
Theorem crawl_records_sanitized env cfg pages s :
  let run := CrawlNaverFinanceNews env cfg pages s in
  (forall k x, In (EvStoreSet k x) (events run) ->
     sanitized x /\ k = existsDocID (URL x))
  /\ (forall x, In x (fst (value run)) ->
        sanitized x /\ In (EvStoreSet (existsDocID (URL x)) x) (events run)).
Proof.
  intros run.
  pose proof (proj1 (post_run _ _ _)
    (Crawl_lift env cfg (fun _ => True) Records Records_trans
       (fun it a0 s0 _ => processItem_records env cfg it a0 s0)
       Records_page (fun _ _ _ _ _ _ _ _ => I) pages s))
    as [Hset (added & Hval & Hadded)].
  fold run in Hset, Hval, Hadded. split; [exact Hset|].
  intros x Hin. rewrite Hval in Hin. cbn [app] in Hin.
  apply Hadded in Hin. split; [apply (Hset _ _ Hin) | exact Hin].
Qed.

(** ** The number of effects of a run *)

Lemma count_app p l1 l2 : count p (l1 ++ l2) = (count p l1 + count p l2)%nat.
Proof. unfold count. rewrite List.filter_app, List.length_app. reflexivity. Qed.

Lemma count_cons p e l :
  count p (e :: l) = ((if p e then 1 else 0) + count p l)%nat.
Proof. unfold count. cbn [List.filter]. destruct (p e); reflexivity. Qed.

Lemma count_nil p : count p [] = 0%nat.
Proof. reflexivity. Qed.

Lemma count_none p evs :
  (forall e, In e evs -> p e = false) -> count p evs = 0%nat.
Proof.
  induction evs as [|e evs IH]; intros H; [reflexivity|].
  rewrite count_cons, (H e (or_introl eq_refl)), IH; [reflexivity|].
  intros x Hx. apply H. right. exact Hx.
Qed.

Lemma fetchLoop_bounded env url fullContent s :
  post (fetchLoop env url 3 0 fullContent) s (fun _ s' evs =>
    store s' = store s
    /\ (count isFetchArticle evs <= 3)%nat
    /\ count isStoreGet evs = 0%nat
    /\ count isStoreSet evs = 0%nat
    /\ count isStoreUpdate evs = 0%nat).
Proof.
  pose proof (fetchLoop_events env url 3 0 fullContent s) as H1.
  pose proof (fetchLoop_trace env url fullContent s) as H2.
  unfold post in *.
  destruct (fetchLoop env url 3 0 fullContent s) as [[c s'] e].
  destruct H1 as [Hs He]. destruct H2 as (_ & Hn & _).
  split; [exact Hs|]. split; [exact Hn|].
  repeat split; apply count_none; intros x Hx; apply He in Hx;
    destruct Hx as [_ Hx]; destruct x; try reflexivity; discriminate.
Qed.

Ltac wp_with L :=
  repeat (wp_step; cbn [store calls app];
          try (eapply post_weaken; [apply L|];
               cbn [store calls]; intros ? ? ?)).

Ltac counts :=
  repeat first [rewrite count_cons | rewrite count_app | rewrite count_nil
               | rewrite List.length_app];
  cbn [isStoreGet isStoreSet isStoreUpdate isFetchArticle length].

Lemma processItem_bounded env cfg s_item a s :
  post (processItem env cfg s_item a) s (fun a' s' evs =>
    Bounded a s a' s' evs).
Proof.
  unfold processItem.
  unfold articleExistsInFirestore, updateArticleAISummaryToEmpty,
    saveArticleToFirestore.
  wp_with fetchLoop_bounded.
  all: try discriminate.
  all: try match goal with |- _ /\ _ -> _ => intros (? & ? & ? & ? & ?) end.
  all: wp.
  all: unfold Bounded; counts; lia.
Qed.

Lemma Bounded_trans a s a1 s1 e1 a2 s2 e2 :
  Bounded a s a1 s1 e1 -> Bounded a1 s1 a2 s2 e2 ->
  Bounded a s a2 s2 (e1 ++ e2).
Proof. unfold Bounded. counts. lia. Qed.

Lemma Bounded_page a s s' evs :
  store s' = store s -> Forall pageEffect evs -> Bounded a s a s' evs.
Proof.
  intros _ Hev. rewrite List.Forall_forall in Hev. unfold Bounded.
  rewrite !count_none; [lia| | | |]; intros e He; apply Hev in He;
    apply pageEffect_not_store in He; destruct He as [H1 H2];
    destruct e; try reflexivity; discriminate.
Qed.

(** X2: a run issues at most one write to the store ([Set] or [Update])
    and at most three article requests for every duplicate check it makes,
    and returns at most one record for every [Set]. *)
Theorem crawl_effects_bounded env cfg pages s :
  let evs := events (CrawlNaverFinanceNews env cfg pages s) in
  (count isStoreSet evs + count isStoreUpdate evs <= count isStoreGet evs)%nat
  /\ (count isFetchArticle evs <= 3 * count isStoreGet evs)%nat
  /\ (length (fst (value (CrawlNaverFinanceNews env cfg pages s)))
      <= count isStoreSet evs)%nat.
Proof.
  intros evs.
  pose proof (proj1 (post_run _ _ _)
    (Crawl_lift env cfg (fun _ => True) Bounded Bounded_trans
       (fun it a0 s0 _ => processItem_bounded env cfg it a0 s0)
       Bounded_page (fun _ _ _ _ _ _ _ _ => I) pages s))
    as (H1 & H2 & H3).
  fold evs in H1, H2, H3. cbn [length] in H3. auto.
Qed.

(** ** A run without a store *)

Lemma StoreDown_check_fails env s url :
  StoreDown env -> DuplicateCheckFails env s url.
Proof.
  intros [Hf|Hf]; [left; exact Hf|].
  specialize (Hf (calls s)). unfold DuplicateCheckFails.
  destruct (storeFault env (calls s)); [congruence | auto | auto].
Qed.

Lemma processItem_store_down env cfg s_item a s :
  StoreDown env ->
  post (processItem env cfg s_item a) s (fun a' s' evs =>
    Untouched a s a' s' evs).
Proof.
  intros Hdown.
  destruct ((TrimSpace env (subjectText s_item) =? "")%string
            || (teaserOf env s_item =? "")%string
            || (sourceOf env s_item =? "")%string
            || (subjectHref s_item =? "")%string) eqn:Hvalid.
  - unfold processItem. fold (teaserOf env s_item) (sourceOf env s_item).
    rewrite Hvalid. wp. repeat split; try reflexivity.
    all: in_events; subst; reflexivity.
  - apply validation_passed in Hvalid.
    eapply post_weaken.
    + apply processItem_check_failed; [exact Hvalid|].
      apply StoreDown_check_fails, Hdown.
    + cbn beta. intros a' s' e (_ & He & Ha & Hs). repeat split; auto.
      all: apply He; assumption.
Qed.

Lemma Untouched_trans a s a1 s1 e1 a2 s2 e2 :
  Untouched a s a1 s1 e1 -> Untouched a1 s1 a2 s2 e2 ->
  Untouched a s a2 s2 (e1 ++ e2).
Proof.
  intros (-> & H1 & He1) (-> & H2 & He2). split; [reflexivity|].
  split; [congruence|]. intros e Hin. apply in_app_iff in Hin.
  destruct Hin; auto.
Qed.

Lemma Untouched_page a s s' evs :
  store s' = store s -> Forall pageEffect evs -> Untouched a s a s' evs.
Proof.
  intros Hs Hev. split; [reflexivity|]. split; [exact Hs|].
  intros e Hin. rewrite List.Forall_forall in Hev. apply Hev in Hin.
  apply pageEffect_not_store in Hin. destruct Hin as [H1 H2].
  split; [|exact H2]. destruct e; try reflexivity; discriminate.
Qed.

(** X3: when the store is out of reach for a whole run (the client was
    never initialised, or every call to the store fails), the run returns
    no record, leaves the store as it was, writes nothing and requests no
    article page. *)
Theorem crawl_without_store env cfg pages s :
  StoreDown env ->
  let run := CrawlNaverFinanceNews env cfg pages s in
  fst (value run) = []
  /\ store (final run) = store s
  /\ forall e, In e (events run) ->
       storeMutation e = false /\ isFetchArticle e = false.
Proof.
  intros Hdown run.
  exact (proj1 (post_run _ _ _)
    (Crawl_lift env cfg (fun _ => True) Untouched Untouched_trans
       (fun it a0 s0 _ => processItem_store_down env cfg it a0 s0 Hdown)
       Untouched_page (fun _ _ _ _ _ _ _ _ => I) pages s)).
Qed.

(** ** The documents of the store across a run *)

Lemma DataTo_toDocument a : DataTo (toDocument a) = Some a.
Proof. destruct a. reflexivity. Qed.

Lemma toDocument_aiSummary a :
  toDocument a !! "aiSummary" = Some (VString (AISummary a)).
Proof. reflexivity. Qed.

Lemma DataTo_aiSummary doc a :
  DataTo doc = Some a -> stringField doc "aiSummary" = Some (AISummary a).
Proof.
  unfold DataTo.
  destruct (stringField doc "title"), (stringField doc "summary"),
    (stringField doc "content"), (stringField doc "aiSummary"),
    (stringField doc "source"), (stringField doc "url"),
    (timeField doc "collectedAt"); try discriminate.
  intros H. inversion H. reflexivity.
Qed.

(** An [Update] that follows the test of line 392 sets the field where it
    was missing or null and changes nothing where it held the empty
    string. *)
Lemma keptDocument_update doc a :
  DataTo doc = Some a -> AISummary a = "" ->
  keptDocument doc (<["aiSummary" := VString ""]> doc).
Proof.
  intros Hd Ha. apply DataTo_aiSummary in Hd. rewrite Ha in Hd.
  unfold stringField in Hd.
  destruct (doc !! "aiSummary") as [[v| | |]|] eqn:Hf; try discriminate.
  - left. apply insert_id. congruence.
  - right. split; [right; exact Hf | reflexivity].
  - right. split; [left; exact Hf | reflexivity].
Qed.

Lemma keptDocument_trans d1 d2 d3 :
  keptDocument d1 d2 -> keptDocument d2 d3 -> keptDocument d1 d3.
Proof.
  intros [->|[H1 ->]] [->|[H2 ->]].
  - left. reflexivity.
  - right. split; [exact H2 | reflexivity].
  - right. split; [exact H1 | reflexivity].
  - rewrite lookup_insert_eq in H2. destruct H2; discriminate.
Qed.

Lemma keptDocument_record x doc :
  keptDocument (toDocument x) doc -> doc = toDocument x.
Proof.
  intros [->|[H _]]; [reflexivity|].
  rewrite toDocument_aiSummary in H. destruct H; discriminate.
Qed.

Lemma cleanUTF8String_id s : ValidString s = true -> cleanUTF8String s = s.
Proof. intros H. unfold cleanUTF8String. rewrite H. reflexivity. Qed.

Lemma processItem_kept env cfg s_item a s :
  ValidString (reconstructURL cfg (subjectHref s_item)) = true ->
  post (processItem env cfg s_item a) s (fun a' s' evs => Kept a s a' s' evs).
Proof.
  intros Hvalid. apply cleanUTF8String_id in Hvalid.
  unfold processItem.
  unfold articleExistsInFirestore, updateArticleAISummaryToEmpty,
    saveArticleToFirestore.
  change (updateDocID ?u) with (existsDocID u).
  change (saveDocID ?x) with (existsDocID (URL x)).
  cbn [URL]. rewrite Hvalid.
  wp_item.
  all: try discriminate.
  all: inv_eqs.
  all: unfold Kept; cbn [store].
  all: repeat match goal with H : store _ = store _ |- _ => rewrite H end.
  all: split.
  all: try (exists []; split; [symmetry; apply app_nil_r|];
            split; [apply NoDup_nil_2 | intros x []]; fail).
  all: try (eexists; split; [reflexivity|]; split;
            [apply NoDup_singleton|];
            intros x [<-|[]]; cbn [URL];
            split; [assumption | apply lookup_insert_eq]).
  all: intros k doc Hk.
  all: lazymatch goal with
       | |- exists doc', <[?key := _]> _ !! _ = _ /\ _ =>
           destruct (decide (key = k)) as [<-|Hne];
           [ rewrite lookup_insert_eq; eexists; (split; [reflexivity|]);
             try congruence
           | rewrite lookup_insert_ne by exact Hne; exists doc;
             split; [exact Hk | left; reflexivity] ]
       | |- _ => exists doc; split; [exact Hk | left; reflexivity]
       end.
  all: match goal with
       | H1 : store _ !! ?key = Some ?d, H2 : store _ !! ?key = Some ?d' |- _ =>
           assert (d = d') by congruence; subst
       end.
  all: eapply keptDocument_update; [eassumption|].
  all: apply String.eqb_eq; assumption.
Qed.

Lemma Kept_trans a s a1 s1 e1 a2 s2 e2 :
  Kept a s a1 s1 e1 -> Kept a1 s1 a2 s2 e2 -> Kept a s a2 s2 (e1 ++ e2).
Proof.
  intros [H1 (d1 & -> & Hnd1 & HA1)] [H2 (d2 & -> & Hnd2 & HA2)]. split.
  - intros k doc Hk. apply H1 in Hk. destruct Hk as (doc1 & Hk1 & Hd1).
    apply H2 in Hk1. destruct Hk1 as (doc2 & Hk2 & Hd2).
    exists doc2. split; [exact Hk2|].
    eapply keptDocument_trans; eassumption.
  - exists (d1 ++ d2). split; [symmetry; apply app_assoc|]. split.
    + rewrite map_app. apply NoDup_app. split; [exact Hnd1|].
      split; [|exact Hnd2]. intros k Hk1 Hk2.
      apply list_elem_of_In, in_map_iff in Hk1, Hk2.
      destruct Hk1 as (x1 & <- & Hx1). destruct Hk2 as (x2 & Hk & Hx2).
      destruct (HA1 x1 Hx1) as [_ Hs1]. destruct (HA2 x2 Hx2) as [Hs2 _].
      congruence.
    + intros x Hin. apply in_app_iff in Hin. destruct Hin as [Hin|Hin].
      * destruct (HA1 x Hin) as [Hnew Hs1]. split; [exact Hnew|].
        apply H2 in Hs1. destruct Hs1 as (doc' & Hk & Hd).
        apply keptDocument_record in Hd. congruence.
      * destruct (HA2 x Hin) as [Hnew Hs2]. split; [|exact Hs2].
        destruct (store s !! existsDocID (URL x)) as [doc|] eqn:Hk;
          [|reflexivity].
        apply H1 in Hk. destruct Hk as (doc' & Hk & _). congruence.
Qed.

Lemma Kept_page a s s' evs :
  store s' = store s -> Forall pageEffect evs -> Kept a s a s' evs.
Proof.
  intros Hs _. split.
  - intros k doc Hk. exists doc. rewrite Hs. split; [exact Hk|].
    left. reflexivity.
  - exists []. split; [symmetry; apply app_nil_r|].
    split; [apply NoDup_nil_2 | intros x []].
Qed.

Lemma crawl_kept env cfg pages s :
  ServesValidLinks env cfg ->
  post (CrawlNaverFinanceNews env cfg pages) s (fun r s' e =>
    Kept [] s (fst r) s' e).
Proof.
  intros Hlinks.
  apply (Crawl_lift env cfg
           (fun it => ValidString (reconstructURL cfg (subjectHref it)) = true)
           Kept Kept_trans).
  - intros it a0 s0 Hit. apply processItem_kept, Hit.
  - apply Kept_page.
  - exact Hlinks.
Qed.

(** X4: when every link that the site serves gives a canonical URL that
    is valid UTF-8, a run keeps every document that was in the store
    before it: the document is still there under its key at the end,
    unchanged or with the field [aiSummary], which it lacked or held as
    null, set to the empty string. *)
Theorem crawl_keeps_documents env cfg pages s k doc :
  ServesValidLinks env cfg ->
  store s !! k = Some doc ->
  exists doc',
    store (final (CrawlNaverFinanceNews env cfg pages s)) !! k = Some doc'
    /\ keptDocument doc doc'.
Proof.
  intros Hlinks Hk.
  pose proof (proj1 (post_run _ _ _) (crawl_kept env cfg pages s Hlinks))
    as [Hdocs _].
  apply Hdocs, Hk.
Qed.

(** X5: when every link that the site serves gives a canonical URL that
    is valid UTF-8, the records that a run returns are deduplicated and
    stored: no two of them have the same store key, none has a key that
    was in the store before the run, and each is in the store at the end
    of the run, under the key that the duplicate check of its URL looks
    up, and reads back as the record. *)
Theorem crawl_results_stored env cfg pages s :
  ServesValidLinks env cfg ->
  let run := CrawlNaverFinanceNews env cfg pages s in
  NoDup (map (fun x => existsDocID (URL x)) (fst (value run)))
  /\ forall x, In x (fst (value run)) ->
       store s !! existsDocID (URL x) = None
       /\ store (final run) !! existsDocID (URL x) = Some (toDocument x)
       /\ DataTo (toDocument x) = Some x.
Proof.
  intros Hlinks run.
  pose proof (proj1 (post_run _ _ _) (crawl_kept env cfg pages s Hlinks))
    as [_ (added & Hval & Hnd & Hadded)].
  fold run in Hval, Hadded. rewrite Hval. cbn [app].
  split; [exact Hnd|]. intros x Hin.
  destruct (Hadded x Hin) as [Hnew Hst].
  split; [exact Hnew|]. split; [exact Hst | apply DataTo_toDocument].
Qed.

(** ** The order of the listing requests *)

Lemma listingPages_app l1 l2 :
  listingPages (l1 ++ l2) = listingPages l1 ++ listingPages l2.
Proof.
  induction l1 as [|e l1 IH]; [reflexivity|].
  destruct e; cbn [app listingPages]; rewrite IH; reflexivity.
Qed.

Lemma listingPages_none evs :
  (forall e, In e evs -> pageLevel e = false) -> listingPages evs = [].
Proof.
  induction evs as [|e evs IH]; intros H; [reflexivity|].
  pose proof (H e (or_introl eq_refl)) as He.
  destruct e; try discriminate; cbn [listingPages]; apply IH;
    intros x Hx; apply H; right; exact Hx.
Qed.

Lemma pageLoop_pages env cfg pages fuel pageNum allNews s :
  post (pageLoop env cfg pages fuel pageNum allNews) s (fun _ _ evs =>
    exists n,
      (n <= fuel)%nat
      /\ Z.of_nat n <= Z.max 0 (pages - pageNum + 1)
      /\ listingPages evs = pagesFrom pageNum n
      /\ forall c j u, In (EvFetchListing c j u) evs ->
           j < pageNum + Z.of_nat n - 1 ->
           exists nodes,
             listingNodes (clientDo env c u) = Some nodes /\ nodes <> []).
Proof.
  revert pageNum allNews s.
  induction fuel as [|fuel IH]; intros pageNum allNews s.
  - exists 0%nat. repeat split; try lia. intros c j u Hin. in_events.
    discriminate.
  - cbn [pageLoop]. wp_page IH ipattern:((n & Hn & Hmax & Hpages & Hgood)).
    all: try (exists 0%nat; cbn [listingPages pagesFrom];
              split; [lia|]; split; [lia|]; split; [reflexivity|];
              intros c j u Hin; in_events; discriminate).
    all: apply Z.leb_le in Heqb.
    all: try (exists 1%nat; cbn [listingPages pagesFrom];
              split; [lia|]; split; [lia|]; split; [reflexivity|];
              intros c j u Hin Hj; in_events; try discriminate;
              inversion Hin; subst; lia).
    (* the page had listing nodes: the loop goes on *)
    assert (Hnodes :
      listingNodes (clientDo env (calls s) (pageURL cfg pageNum))
      = Some (newsList doc)).
    { unfold listingNodes. rewrite Heqo. apply negb_false_iff in Heqb1.
      rewrite Heqb1, Heqb2. reflexivity. }
    exists (S n). split; [lia|]. split; [lia|]. split.
    + cbn [listingPages pagesFrom]. f_equal.
      rewrite listingPages_app, (listingPages_none ev1 Hitems).
      cbn [app listingPages]. exact Hpages.
    + intros c j u Hin Hj. in_events; try discriminate.
      * inversion Hin; subst. exists (newsList doc). split; [exact Hnodes|].
        intros Hnil. rewrite Hnil in Heqb3. discriminate.
      * apply Hitems in Hin. discriminate.
      * apply (Hgood c j u Hin). lia.
Qed.

(** X6: the listing requests of a run are those of the pages 1, 2, ...,
    [n] in this order, each made once, for some [n] that is at most the
    page count; and every page before the last one requested was answered
    with status 200 by a document that holds at least one listing node. *)
Theorem listing_pages_in_order env cfg pages s :
  let evs := events (CrawlNaverFinanceNews env cfg pages s) in
  exists n,
    (n <= Z.to_nat pages)%nat
    /\ listingPages evs = pagesFrom 1 n
    /\ forall c j u, In (EvFetchListing c j u) evs ->
         j < Z.of_nat n ->
         exists nodes,
           listingNodes (clientDo env c u) = Some nodes /\ nodes <> [].
Proof.
  intros evs. unfold evs.
  rewrite (proj2 (Crawl_run env cfg pages s)).
  pose proof (proj1 (post_run _ _ _)
    (pageLoop_pages env cfg pages (Z.to_nat pages) 1 [] s))
    as (n & Hn & _ & Hpages & Hgood).
  exists n. split; [exact Hn|]. split; [exact Hpages|].
  intros c j u [Hin|Hin] Hj; [discriminate|].
  apply (Hgood c j u Hin). lia.
Qed.

(** ** Items that fail the validation *)

Lemma processItem_malformed env cfg s_item allNews s :
  ~ wellFormedItem env s_item ->
  processItem env cfg s_item allNews s
  = (allNews, s, [EvLog (LogMissingElements (outerHtml s_item))]).
Proof.
  intros Hbad.
  destruct ((TrimSpace env (subjectText s_item) =? "")%string
            || (teaserOf env s_item =? "")%string
            || (sourceOf env s_item =? "")%string
            || (subjectHref s_item =? "")%string) eqn:Hvalid.
  - unfold processItem. fold (teaserOf env s_item) (sourceOf env s_item).
    rewrite Hvalid. reflexivity.
  - apply validation_passed in Hvalid. contradiction.
Qed.

(** X7: a listing whose nodes all lack a title, a teaser, a source or a
    link is walked to its end: every node is logged with its markup and
    nothing else happens (no store operation, no request, no pause; the
    result and the state are unchanged). *)
Theorem malformed_items_skipped env cfg newsItems allNews s :
  Forall (fun s_item => ~ wellFormedItem env s_item) newsItems ->
  Each env cfg newsItems allNews s
  = (allNews, s,
     map (fun s_item => EvLog (LogMissingElements (outerHtml s_item)))
       newsItems).
Proof.
  induction 1 as [|it rest Hit _ IH]; [reflexivity|].
  rewrite Each_cons. cbv zeta.
  rewrite (processItem_malformed env cfg it allNews s Hit).
  unfold value, final, events. cbn [fst snd]. rewrite IH. reflexivity.
Qed.

(** ** The three operations on the store *)

(** X8: the lookup reads only: it leaves the store as it was and issues
    no write, whatever the state of the client; and its three results hang
    together. It answers [(true, article, nil)] for a stored document that
    converts to [article], [(true, nil, err)] for a stored document that
    does not convert, [(false, nil, nil)] for a key that is not in the
    store, and [(false, nil, err)] when the client or the call failed; it
    gives no other answer. *)
Theorem lookup_reads_only env url s :
  let run := articleExistsInFirestore env url s in
  store (final run) = store s
  /\ (forall e, In e (events run) -> storeMutation e = false)
  /\ match value run with
     | (true, Some a, None) =>
         exists doc, store s !! existsDocID url = Some doc
                     /\ DataTo doc = Some a
     | (true, None, Some e) =>
         e = ErrConvert
         /\ exists doc, store s !! existsDocID url = Some doc
                        /\ DataTo doc = None
     | (false, None, None) => store s !! existsDocID url = None
     | (false, None, Some e) =>
         e = ErrNotInitialized \/ e = ErrGetClient \/ e = ErrCheckExists
     | _ => False
     end.
Proof.
  intros run. unfold run.
  apply (proj1 (post_run (articleExistsInFirestore env url) s
    (fun v s' evs =>
       store s' = store s
       /\ (forall e, In e evs -> storeMutation e = false)
       /\ match v with
          | (true, Some a, None) =>
              exists doc, store s !! existsDocID url = Some doc
                          /\ DataTo doc = Some a
          | (true, None, Some e) =>
              e = ErrConvert
              /\ exists doc, store s !! existsDocID url = Some doc
                             /\ DataTo doc = None
          | (false, None, None) => store s !! existsDocID url = None
          | (false, None, Some e) =>
              e = ErrNotInitialized \/ e = ErrGetClient \/ e = ErrCheckExists
          | _ => False
          end))).
  unfold articleExistsInFirestore. wp.
  all: split; [reflexivity|].
  all: split; [intros ev Hin; in_events; subst; reflexivity|].
  all: eauto.
Qed.

Lemma stringField_insert_ne doc f g v :
  f <> g -> stringField (<[f := v]> doc) g = stringField doc g.
Proof.
  intros H. unfold stringField. rewrite lookup_insert_ne by exact H.
  reflexivity.
Qed.

Lemma stringField_insert_eq doc f v :
  stringField (<[f := VString v]> doc) f = Some v.
Proof. unfold stringField. rewrite lookup_insert_eq. reflexivity. Qed.

Lemma timeField_insert_ne doc f g v :
  f <> g -> timeField (<[f := v]> doc) g = timeField doc g.
Proof.
  intros H. unfold timeField. rewrite lookup_insert_ne by exact H.
  reflexivity.
Qed.

(** A document reads back after the [Update] as before it, the summary
    apart. *)
Lemma DataTo_update doc a :
  DataTo doc = Some a ->
  DataTo (<["aiSummary" := VString ""]> doc)
  = Some {| Title := Title a; Summary := Summary a; Content := Content a;
            AISummary := ""; Source := Source a; URL := URL a;
            CollectedAt := CollectedAt a |}.
Proof.
  unfold DataTo.
  rewrite (stringField_insert_ne doc "aiSummary" "title"),
    (stringField_insert_ne doc "aiSummary" "summary"),
    (stringField_insert_ne doc "aiSummary" "content"),
    (stringField_insert_ne doc "aiSummary" "source"),
    (stringField_insert_ne doc "aiSummary" "url"),
    timeField_insert_ne by discriminate.
  rewrite stringField_insert_eq.
  destruct (stringField doc "title"), (stringField doc "summary"),
    (stringField doc "content"), (stringField doc "aiSummary"),
    (stringField doc "source"), (stringField doc "url"),
    (timeField doc "collectedAt"); try discriminate.
  intros H. inversion H. reflexivity.
Qed.

(** X9: the update changes one field of one document. When it succeeds
    the document was in the store and is now the same document with the
    field [aiSummary] set to the empty string, so that it reads back as
    the same article with an empty summary; every other document is
    untouched. When it fails the store is as it was; it fails on a key
    that is not in the store, and creates no document then. *)
Theorem update_changes_one_field env url s :
  let run := updateArticleAISummaryToEmpty env url s in
  (value run = None ->
     exists doc,
       store s !! existsDocID url = Some doc
       /\ store (final run)
          = <[existsDocID url := <["aiSummary" := VString ""]> doc]> (store s)
       /\ (forall f, f <> "aiSummary" ->
             <["aiSummary" := VString ""]> doc !! f = doc !! f)
       /\ (forall a, DataTo doc = Some a ->
             DataTo (<["aiSummary" := VString ""]> doc)
             = Some {| Title := Title a; Summary := Summary a;
                       Content := Content a; AISummary := "";
                       Source := Source a; URL := URL a;
                       CollectedAt := CollectedAt a |}))
  /\ (value run <> None -> store (final run) = store s)
  /\ (forall k, k <> existsDocID url ->
        store (final run) !! k = store s !! k)
  /\ (store s !! existsDocID url = None -> value run <> None).
Proof.
  intros run. unfold run.
  apply (proj1 (post_run (updateArticleAISummaryToEmpty env url) s
    (fun v s' evs =>
       (v = None ->
          exists doc,
            store s !! existsDocID url = Some doc
            /\ store s'
               = <[existsDocID url := <["aiSummary" := VString ""]> doc]>
                   (store s)
            /\ (forall f, f <> "aiSummary" ->
                  <["aiSummary" := VString ""]> doc !! f = doc !! f)
            /\ (forall a, DataTo doc = Some a ->
                  DataTo (<["aiSummary" := VString ""]> doc)
                  = Some {| Title := Title a; Summary := Summary a;
                            Content := Content a; AISummary := "";
                            Source := Source a; URL := URL a;
                            CollectedAt := CollectedAt a |}))
       /\ (v <> None -> store s' = store s)
       /\ (forall k, k <> existsDocID url -> store s' !! k = store s !! k)
       /\ (store s !! existsDocID url = None -> v <> None)))).
  unfold updateArticleAISummaryToEmpty.
  change (updateDocID url) with (existsDocID url). wp.
  all: split; [intros Hv; try discriminate|].
  all: try (split; [intros _; reflexivity|]; split; [reflexivity|];
            intros _; discriminate).
  - eexists. split; [reflexivity|]. split; [reflexivity|]. split.
    + intros f Hf. apply lookup_insert_ne. congruence.
    + apply DataTo_update.
  - split; [intros Hv; contradiction|]. split.
    + intros k Hk. apply lookup_insert_ne. congruence.
    + congruence.
Qed.

(** X10: a record that was saved is found: after a successful
    [saveArticleToFirestore] the lookup of the URL of the record answers
    that the article exists and returns the record as it was saved. *)
Theorem saved_article_is_found env article s :
  firestoreApp env = true ->
  storeFault env (calls s) = Healthy ->
  storeFault env (S (calls s)) = Healthy ->
  let saved := saveArticleToFirestore env article s in
  value saved = None
  /\ value (articleExistsInFirestore env (URL article) (final saved))
     = (true, Some article, None).
Proof.
  intros Happ H1 H2 saved. unfold saved, saveArticleToFirestore.
  rewrite Happ. cbn [negb].
  unfold bind, tick, emit, getStore, putStore, log, ret, value, final.
  cbn [fst snd store calls]. rewrite H1. cbn [fst snd store calls].
  split; [reflexivity|].
  unfold articleExistsInFirestore. rewrite Happ. cbn [negb].
  unfold bind, tick, emit, getStore, putStore, log, ret.
  cbn [fst snd store calls]. rewrite H2. cbn [fst snd store calls].
  change (saveDocID article) with (existsDocID (URL article)).
  rewrite lookup_insert_eq, DataTo_toDocument. reflexivity.
Qed.

(** ** [strconv.Atoi] *)

Lemma byte_eqb c d : (byte c =? byte d) = Ascii.eqb c d.
Proof.
  destruct (Ascii.eqb_spec c d) as [->|Hne].
  - apply Z.eqb_refl.
  - apply Z.eqb_neq. intros H. apply Hne.
    rewrite <- (chr_byte c), <- (chr_byte d), H. reflexivity.
Qed.

Lemma decimal_byte c :
  decimal c = (0x30 <=? byte c) && (byte c <=? 0x39).
Proof. rewrite <- isDigit_decimal. reflexivity. Qed.

Lemma decimal_range c : decimal c = true -> 0x30 <= byte c <= 0x39.
Proof. rewrite decimal_byte. lia. Qed.

Lemma decimalValue_ge s n :
  allDecimal s = true -> 0 <= n -> n <= decimalValue s n.
Proof.
  revert n. induction s as [|c t IH]; intros n H Hn; cbn [decimalValue];
    [lia|].
  cbn [allDecimal] in H. apply andb_true_iff in H. destruct H as [Hc Ht].
  apply decimal_range in Hc.
  specialize (IH (n * 10 + (byte c - 48)) Ht). lia.
Qed.

Lemma decimalValue_mono s n m :
  allDecimal s = true -> n <= m -> decimalValue s n <= decimalValue s m.
Proof.
  revert n m. induction s as [|c t IH]; intros n m H Hnm;
    cbn [decimalValue]; [lia|].
  cbn [allDecimal] in H. apply andb_true_iff in H. destruct H as [_ Ht].
  apply IH; [exact Ht | lia].
Qed.

Lemma decimalValue_bound s n :
  allDecimal s = true -> 0 <= n ->
  decimalValue s n < (n + 1) * 10 ^ Z.of_nat (String.length s).
Proof.
  revert n. induction s as [|c t IH]; intros n H Hn.
  - cbn. lia.
  - cbn [allDecimal] in H. apply andb_true_iff in H. destruct H as [Hc Ht].
    apply decimal_range in Hc. cbn [decimalValue String.length].
    specialize (IH (n * 10 + (byte c - 48)) Ht ltac:(lia)).
    rewrite Nat2Z.inj_succ, Z.pow_succ_r by lia.
    assert (0 < 10 ^ Z.of_nat (String.length t)) by (apply Z.pow_pos_nonneg; lia).
    nia.
Qed.

Lemma atoiLoop_spec s n :
  strconv.atoiLoop s n
  = if allDecimal s then Some (decimalValue s n) else None.
Proof.
  revert n. induction s as [|c t IH]; intros n; [reflexivity|].
  cbn [strconv.atoiLoop allDecimal decimalValue].
  rewrite decimal_byte, uint8_mod. pose proof (byte_range c) as Hc.
  destruct (Z.leb_spec 0x30 (byte c)); destruct (Z.leb_spec (byte c) 0x39);
    cbn [andb].
  - replace ((byte c - 48) mod 256) with (byte c - 48)
      by (symmetry; apply Z.mod_small; lia).
    replace (9 <? byte c - 48) with false by (symmetry; apply Z.ltb_ge; lia).
    apply IH.
  - replace ((byte c - 48) mod 256) with (byte c - 48)
      by (symmetry; apply Z.mod_small; lia).
    replace (9 <? byte c - 48) with true by (symmetry; apply Z.ltb_lt; lia).
    reflexivity.
  - replace ((byte c - 48) mod 256) with (byte c - 48 + 256)
      by (apply Z.mod_unique with (q := -1); lia).
    replace (9 <? byte c - 48 + 256) with true
      by (symmetry; apply Z.ltb_lt; lia).
    reflexivity.
  - lia.
Qed.

(** [ParseUint] on the value read so far and the rest of the digits. *)
Lemma parseUintLoop_spec s n :
  0 <= n < 2 ^ 64 ->
  if allDecimal s then
    strconv.parseUintLoop s n
    = if decimalValue s n <? 2 ^ 64 then (decimalValue s n, None)
      else (strconv.maxUint64, Some strconv.ErrRange)
  else strconv.parseUintLoop s n = (0, Some strconv.ErrSyntax)
       \/ strconv.parseUintLoop s n
          = (strconv.maxUint64, Some strconv.ErrRange).
Proof.
  revert n. induction s as [|c t IH]; intros n Hn.
  - cbn [allDecimal strconv.parseUintLoop decimalValue].
    replace (n <? 2 ^ 64) with true by (symmetry; apply Z.ltb_lt; lia).
    reflexivity.
  - cbn [allDecimal strconv.parseUintLoop decimalValue].
    rewrite decimal_byte. pose proof (byte_range c) as Hc.
    destruct ((0x30 <=? byte c) && (byte c <=? 0x39)) eqn:Hd; cbn [andb].
    + apply andb_true_iff in Hd. destruct Hd as [H1 H2].
      apply Z.leb_le in H1, H2.
      replace (10 <=? byte c - 48) with false
        by (symmetry; apply Z.leb_gt; lia).
      change (strconv.maxUint64 / 10 + 1) with 1844674407370955162.
      unfold strconv.uint64. change (2 ^ 64) with 18446744073709551616 in *.
      unfold strconv.maxUint64. change (2 ^ 64) with 18446744073709551616.
      destruct (allDecimal t) eqn:Ht.
      * pose proof (decimalValue_ge t (n * 10 + (byte c - 48)) Ht
                      ltac:(lia)) as Hge.
        destruct (Z.leb_spec 1844674407370955162 n).
        { replace (decimalValue t (n * 10 + (byte c - 48))
                   <? 18446744073709551616) with false
            by (symmetry; apply Z.ltb_ge; lia).
          reflexivity. }
        rewrite (Z.mod_small (n * 10)) by lia.
        destruct (Z.lt_ge_cases (n * 10 + (byte c - 48)) 18446744073709551616)
          as [Hlt|Hge'].
        { rewrite (Z.mod_small (n * 10 + (byte c - 48))) by lia.
          replace (n * 10 + (byte c - 48) <? n * 10) with false
            by (symmetry; apply Z.ltb_ge; lia).
          replace (18446744073709551616 - 1 <? n * 10 + (byte c - 48))
            with false by (symmetry; apply Z.ltb_ge; lia).
          cbn [orb]. specialize (IH (n * 10 + (byte c - 48)) ltac:(lia)).
          exact IH. }
        replace ((n * 10 + (byte c - 48)) mod 18446744073709551616)
          with (n * 10 + (byte c - 48) - 18446744073709551616)
          by (apply Z.mod_unique with (q := 1); lia).
        replace (n * 10 + (byte c - 48) - 18446744073709551616 <? n * 10)
          with true by (symmetry; apply Z.ltb_lt; lia).
        cbn [orb].
        replace (decimalValue t (n * 10 + (byte c - 48))
                 <? 18446744073709551616) with false
          by (symmetry; apply Z.ltb_ge; lia).
        reflexivity.
      * destruct (1844674407370955162 <=? n); [right; reflexivity|].
        destruct (_ || _); [right; reflexivity|].
        apply IH. apply Z.mod_pos_bound. lia.
    + destruct ((0x61 <=? strconv.lower (byte c))
                && (strconv.lower (byte c) <=? 0x7A)) eqn:Hl;
        [|left; reflexivity].
      apply andb_true_iff in Hl. destruct Hl as [Hl _]. apply Z.leb_le in Hl.
      replace (10 <=? strconv.lower (byte c) - 97 + 10) with true
        by (symmetry; apply Z.leb_le; lia).
      left. reflexivity.
Qed.

Lemma ParseUint_spec s :
  if allDecimal s && negb (String.eqb s "") then
    strconv.ParseUint s
    = if decimalValue s 0 <? 2 ^ 64 then (decimalValue s 0, None)
      else (strconv.maxUint64, Some strconv.ErrRange)
  else strconv.ParseUint s = (0, Some strconv.ErrSyntax)
       \/ strconv.ParseUint s = (strconv.maxUint64, Some strconv.ErrRange).
Proof.
  unfold strconv.ParseUint. destruct s as [|c t]; [left; reflexivity|].
  cbn [String.eqb negb]. rewrite andb_true_r.
  apply (parseUintLoop_spec (String c t) 0). lia.
Qed.

Lemma int64_small z : - 2 ^ 63 <= z < 2 ^ 63 -> strconv.int64 z = z.
Proof.
  intros H. unfold strconv.int64. rewrite Z.mod_small; lia.
Qed.

Lemma int64_neg un :
  0 <= un <= 2 ^ 63 -> strconv.int64 (- strconv.int64 un) = - un.
Proof.
  intros H. unfold strconv.int64.
  change (2 ^ 63) with 9223372036854775808 in *.
  change (2 ^ 64) with 18446744073709551616.
  Z.div_mod_to_equations. lia.
Qed.

Ltac bools :=
  repeat match goal with
  | |- context [?a <=? ?b] => destruct (Z.leb_spec a b)
  | |- context [?a <? ?b] => destruct (Z.ltb_spec a b)
  end;
  cbn [andb orb negb]; try lia.

(** The sign and the range check of [ParseInt], on what [ParseUint]
    returns for the digits. *)
Lemma ParseInt_sign (neg : bool) t :
  let '(un, err) := strconv.ParseUint t in
  let v := if neg then - decimalValue t 0 else decimalValue t 0 in
  let r :=
    match err with
    | Some strconv.ErrSyntax => (0, err)
    | _ =>
        if negb neg && (2 ^ 63 <=? un) then (2 ^ 63 - 1, Some strconv.ErrRange)
        else if neg && (2 ^ 63 <? un) then (- 2 ^ 63, Some strconv.ErrRange)
        else (if neg then strconv.int64 (- strconv.int64 un)
              else strconv.int64 un, None)
    end in
  if allDecimal t && negb (String.eqb t "") then
    if (- 2 ^ 63 <=? v) && (v <? 2 ^ 63) then r = (v, None)
    else snd r <> None
  else snd r <> None.
Proof.
  pose proof (ParseUint_spec t) as H.
  destruct (allDecimal t && negb (String.eqb t "")) eqn:Hd.
  - rewrite H. apply andb_true_iff in Hd. destruct Hd as [Hd _].
    pose proof (decimalValue_ge t 0 Hd ltac:(lia)) as Hge.
    unfold strconv.maxUint64.
    change (2 ^ 64) with 18446744073709551616.
    destruct (Z.ltb_spec (decimalValue t 0) 18446744073709551616) as [Hlt|Hlt];
      cbv beta iota zeta; destruct neg; cbn [negb andb].
    all: bools; try discriminate.
    all: f_equal.
    + apply int64_neg. lia.
    + apply int64_small. lia.
  - destruct H as [-> | ->]; [discriminate|].
    destruct neg; discriminate.
Qed.

Lemma ParseInt_spec s :
  match signedDecimal s with
  | Some v =>
      if (- 2 ^ 63 <=? v) && (v <? 2 ^ 63) then strconv.ParseInt s = (v, None)
      else snd (strconv.ParseInt s) <> None
  | None => snd (strconv.ParseInt s) <> None
  end.
Proof.
  destruct s as [|c t]; [discriminate|].
  unfold strconv.ParseInt, signedDecimal. cbn [String.eqb idx String.get].
  change 0x2D with (byte "-"). change 0x2B with (byte "+").
  rewrite !byte_eqb.
  destruct (Ascii.eqb_spec c "-") as [->|Hm].
  - cbn [Ascii.eqb Bool.eqb orb drop].
    pose proof (ParseInt_sign true t) as H. cbv zeta in H.
    destruct (strconv.ParseUint t) as [un err].
    destruct (allDecimal t && negb (String.eqb t "")); exact H.
  - destruct (Ascii.eqb_spec c "+") as [->|Hp].
    + cbn [orb drop].
      pose proof (ParseInt_sign false t) as H. cbv zeta in H.
      destruct (strconv.ParseUint t) as [un err].
      destruct (allDecimal t && negb (String.eqb t "")); exact H.
    + cbn [orb].
      pose proof (ParseInt_sign false (String c t)) as H. cbv zeta in H.
      cbn [String.eqb negb] in H. rewrite andb_true_r in H.
      destruct (strconv.ParseUint (String c t)) as [un err].
      destruct (allDecimal (String c t)); exact H.
Qed.

(** [Atoi] returns without an error exactly for an optional sign
    followed by decimal digits that spell a number that an [int] holds,
    and then returns that number. *)
Lemma Atoi_spec s :
  match signedDecimal s with
  | Some v =>
      if (- 2 ^ 63 <=? v) && (v <? 2 ^ 63) then strconv.Atoi s = (v, None)
      else snd (strconv.Atoi s) <> None
  | None => snd (strconv.Atoi s) <> None
  end.
Proof.
  unfold strconv.Atoi. cbv zeta.
  destruct ((0 <? len s) && (len s <? 19)) eqn:Hlen; [|apply ParseInt_spec].
  apply andb_true_iff in Hlen. destruct Hlen as [H0 H19].
  apply Z.ltb_lt in H0, H19. unfold len in *.
  destruct s as [|c t]; [cbn in H0; lia|].
  cbn [String.length] in H19.
  unfold signedDecimal. cbn [idx String.get].
  change 0x2D with (byte "-"). change 0x2B with (byte "+").
  rewrite !byte_eqb.
  assert (Hsmall : forall u, allDecimal u = true ->
            (String.length u <= 18)%nat ->
            0 <= decimalValue u 0 < 2 ^ 63).
  { intros u Hu Hl. split; [apply decimalValue_ge; [exact Hu | lia]|].
    pose proof (decimalValue_bound u 0 Hu ltac:(lia)) as Hb.
    assert (10 ^ Z.of_nat (String.length u) <= 10 ^ 18)
      by (apply Z.pow_le_mono_r; lia).
    change (2 ^ 63) with 9223372036854775808.
    change (10 ^ 18) with 1000000000000000000 in *. lia. }
  assert (Hempty : forall u : string,
            (Z.of_nat (String.length u) <? 1) = String.eqb u "").
  { intros [|? u]; [reflexivity|]. cbn [String.length String.eqb].
    apply Z.ltb_ge. lia. }
  destruct (Ascii.eqb_spec c "-") as [->|Hm];
    [|destruct (Ascii.eqb_spec c "+") as [->|Hp]];
    cbn [Ascii.eqb Bool.eqb orb andb drop].
  - rewrite Hempty, atoiLoop_spec.
    destruct (String.eqb t "") eqn:Ht; cbn [negb].
    + rewrite andb_false_r. discriminate.
    + rewrite andb_true_r. destruct (allDecimal t) eqn:Hd; [|discriminate].
      pose proof (Hsmall t Hd ltac:(lia)) as Hr.
      replace ((- 2 ^ 63 <=? - decimalValue t 0)
               && (- decimalValue t 0 <? 2 ^ 63)) with true
        by (symmetry; apply andb_true_iff; split;
            [apply Z.leb_le | apply Z.ltb_lt]; lia).
      reflexivity.
  - rewrite Hempty, atoiLoop_spec.
    destruct (String.eqb t "") eqn:Ht; cbn [negb].
    + rewrite andb_false_r. discriminate.
    + rewrite andb_true_r. destruct (allDecimal t) eqn:Hd; [|discriminate].
      pose proof (Hsmall t Hd ltac:(lia)) as Hr.
      replace ((- 2 ^ 63 <=? decimalValue t 0)
               && (decimalValue t 0 <? 2 ^ 63)) with true
        by (symmetry; apply andb_true_iff; split;
            [apply Z.leb_le | apply Z.ltb_lt]; lia).
      reflexivity.
  - rewrite atoiLoop_spec.
    destruct (allDecimal (String c t)) eqn:Hd; [|discriminate].
    pose proof (Hsmall (String c t) Hd ltac:(cbn [String.length]; lia)) as Hr.
    replace ((- 2 ^ 63 <=? decimalValue (String c t) 0)
             && (decimalValue (String c t) 0 <? 2 ^ 63)) with true
      by (symmetry; apply andb_true_iff; split;
          [apply Z.leb_le | apply Z.ltb_lt]; lia).
    replace (byte c =? byte "-") with false
      by (symmetry; rewrite byte_eqb; apply Ascii.eqb_neq; exact Hm).
    reflexivity.
Qed.

(** ** The endpoint *)

Lemma crawlEvents_app l1 l2 :
  crawlEvents (l1 ++ l2) = crawlEvents l1 ++ crawlEvents l2.
Proof.
  induction l1 as [|[m|e] l1 IH]; cbn [app crawlEvents]; rewrite ?IH;
    reflexivity.
Qed.

Lemma crawlEvents_map evs : crawlEvents (map SrvCrawl evs) = evs.
Proof.
  induction evs as [|e evs IH]; [reflexivity|].
  cbn [map crawlEvents]. rewrite IH. reflexivity.
Qed.

Lemma Query_default value :
  Query value "1" = if String.eqb value "" then "1"%string else value.
Proof. destruct value; reflexivity. Qed.

(** The page count of the handler is the number that the parameter
    spells. *)
Lemma handler_pages pagesParam :
  handlerPages pagesParam = requestedPages pagesParam.
Proof.
  unfold handlerPages, requestedPages. rewrite Query_default.
  pose proof (Atoi_spec (if String.eqb pagesParam "" then "1" else pagesParam))
    as H.
  destruct (signedDecimal _) as [v|].
  - destruct ((- 2 ^ 63 <=? v) && (v <? 2 ^ 63)).
    + rewrite H. reflexivity.
    + destruct (strconv.Atoi _) as [n [e|]]; [reflexivity | contradiction].
  - destruct (strconv.Atoi _) as [n [e|]]; [reflexivity | contradiction].
Qed.

(** A request, by the page count of the handler. *)
Lemma scheduleCrawl_run env cfg pagesParam s :
  let pages := handlerPages pagesParam in
  let req := scheduleCrawl env cfg pagesParam s in
  if (pages <=? 0) || (10 <? pages) then
    reply req
    = {| replyStatus := StatusBadRequest; replyText := TextInvalidPages |}
    /\ stateAfter req = s
    /\ crawlTrace req = []
  else
    let run := CrawlNaverFinanceNews env cfg pages s in
    reply req
    = match snd (value run) with
      | Some e => {| replyStatus := StatusInternalServerError;
                     replyText := TextCrawlFailed e |}
      | None => {| replyStatus := StatusOK;
                   replyText := TextCrawlTriggered pages |}
      end
    /\ stateAfter req = final run
    /\ crawlTrace req = events run.
Proof.
  intros pages req. unfold reply, stateAfter, crawlTrace.
  unfold req, scheduleCrawl, pages, handlerPages.
  destruct (strconv.Atoi (Query pagesParam "1")) as [n [e|]].
  - cbv beta iota zeta. change ((1 <=? 0) || (10 <? 1)) with false.
    cbv beta iota. unfold value, final, events.
    destruct (CrawlNaverFinanceNews env cfg 1 s) as [[[news err] s'] evs].
    cbn [fst snd].
    destruct err; cbn [fst snd app crawlEvents];
      rewrite crawlEvents_app, crawlEvents_map; cbn [crawlEvents];
      rewrite app_nil_r; auto.
  - cbv beta iota zeta. destruct ((n <=? 0) || (10 <? n)).
    + cbn [fst snd app crawlEvents]. auto.
    + unfold value, final, events.
      destruct (CrawlNaverFinanceNews env cfg n s) as [[[news err] s'] evs].
      cbn [fst snd].
      destruct err; cbn [fst snd app crawlEvents];
        rewrite crawlEvents_app, crawlEvents_map; cbn [crawlEvents];
        rewrite app_nil_r; auto.
Qed.

(** X11: the handler reads the parameter [pages] as a number: a
    parameter that is missing, empty, no decimal number or a number that
    an [int] does not hold counts as 1 and is not rejected. For a page
    count outside 1..10 the handler answers 400 and does nothing: the
    state is unchanged and the crawler is not called. Otherwise the
    request has the effects of a run of the crawler for that page count,
    and the answer is 500 with the error of the run if it returns one and
    200 if not. *)
Theorem handler_page_count env cfg pagesParam s :
  let pages := requestedPages pagesParam in
  let req := scheduleCrawl env cfg pagesParam s in
  if (pages <=? 0) || (10 <? pages) then
    reply req
    = {| replyStatus := StatusBadRequest; replyText := TextInvalidPages |}
    /\ stateAfter req = s
    /\ crawlTrace req = []
  else
    let run := CrawlNaverFinanceNews env cfg pages s in
    reply req
    = match snd (value run) with
      | Some e => {| replyStatus := StatusInternalServerError;
                     replyText := TextCrawlFailed e |}
      | None => {| replyStatus := StatusOK;
                   replyText := TextCrawlTriggered pages |}
      end
    /\ stateAfter req = final run
    /\ crawlTrace req = events run.
Proof.
  intros pages req. unfold pages.
  rewrite <- (handler_pages pagesParam). apply scheduleCrawl_run.
Qed.

Lemma pagesFrom_length first n : length (pagesFrom first n) = n.
Proof.
  revert first. induction n as [|n IH]; intros first; [reflexivity|].
  cbn [pagesFrom length]. rewrite IH. reflexivity.
Qed.

(** X12: whatever the request, the crawler fetches at most ten listing
    pages for it: the pages 1, 2, ..., [n] in this order, for some [n]
    that is at most 10. *)
Theorem handler_listing_bound env cfg pagesParam s :
  let evs := crawlTrace (scheduleCrawl env cfg pagesParam s) in
  exists n,
    (n <= 10)%nat
    /\ listingPages evs = pagesFrom 1 n
    /\ length (listingPages evs) = n.
Proof.
  intros evs. unfold evs.
  pose proof (scheduleCrawl_run env cfg pagesParam s) as H. cbv zeta in H.
  destruct ((handlerPages pagesParam <=? 0)
            || (10 <? handlerPages pagesParam)) eqn:Hp.
  - destruct H as (_ & _ & ->). exists 0%nat.
    split; [lia|]. split; reflexivity.
  - destruct H as (_ & _ & ->).
    apply orb_false_iff in Hp. destruct Hp as [H1 H2].
    apply Z.leb_gt in H1. apply Z.ltb_ge in H2.
    rewrite (proj2 (Crawl_run env cfg _ s)).
    pose proof (proj1 (post_run _ _ _)
      (pageLoop_pages env cfg (handlerPages pagesParam)
         (Z.to_nat (handlerPages pagesParam)) 1 [] s))
      as (n & Hn & _ & Hpages & _).
    exists n. cbn [listingPages]. split; [lia|]. split; [exact Hpages|].
    rewrite Hpages. apply pagesFrom_length.
Qed.

(** X13: the status of the answer is 400, 500 or 200. It is 500 exactly
    when the crawler could not build the request of a listing page; a
    site that cannot be reached, or that answers a listing request with a
    status other than 200, gives 200. *)
Theorem handler_status env cfg pagesParam s :
  let req := scheduleCrawl env cfg pagesParam s in
  let status := replyStatus (reply req) in
  (status = StatusBadRequest \/ status = StatusInternalServerError
   \/ status = StatusOK)
  /\ (status = StatusInternalServerError
      <-> exists k, In (EvLog (LogPageRequestCreateError k))
                      (crawlTrace req))
  /\ (forall k, In (EvLog (LogPageRequestError k)) (crawlTrace req) ->
        status = StatusOK)
  /\ (forall k code,
        In (EvLog (LogPageStatusError k code)) (crawlTrace req) ->
        status = StatusOK).
Proof.
  intros req status. unfold status, req.
  pose proof (scheduleCrawl_run env cfg pagesParam s) as H. cbv zeta in H.
  destruct ((handlerPages pagesParam <=? 0)
            || (10 <? handlerPages pagesParam)).
  - destruct H as (-> & _ & ->). cbn [replyStatus].
    split; [left; reflexivity|]. split; [|split].
    + split; [discriminate | intros [k []]].
    + intros k [].
    + intros k code [].
  - destruct H as (-> & _ & ->).
    rewrite (proj1 (Crawl_run env cfg _ s)),
      (proj2 (Crawl_run env cfg _ s)).
    pose proof (proj1 (post_run _ _ _)
      (pageLoop_error env cfg (handlerPages pagesParam)
         (Z.to_nat (handlerPages pagesParam)) 1 [] s))
      as (Hcreate & Herr & Hreq & Hstat).
    set (loop := pageLoop env cfg (handlerPages pagesParam)
                   (Z.to_nat (handlerPages pagesParam)) 1 [] s) in *.
    destruct (snd (value loop)) as [e|] eqn:He; cbn [replyStatus].
    + split; [right; left; reflexivity|]. split; [|split].
      * split; [intros _ | reflexivity].
        destruct (Herr ltac:(discriminate)) as [k Hk].
        exists k. right. exact Hk.
      * intros k [Hin|Hin]; [discriminate|].
        apply Hreq in Hin. destruct Hin as (_ & Hnone & _). discriminate.
      * intros k code [Hin|Hin]; [discriminate|].
        apply Hstat in Hin. destruct Hin as (_ & Hnone & _). discriminate.
    + split; [right; right; reflexivity|]. split; [|split].
      * split; [discriminate|]. intros [k [Hin|Hin]]; [discriminate|].
        apply Hcreate in Hin. destruct Hin as (_ & _ & Hsome & _).
        discriminate.
      * reflexivity.
      * reflexivity.
Qed.

(** ** The search *)

Lemma str_app_assoc a b c : (a +:+ b) +:+ c = a +:+ (b +:+ c).
Proof.
  induction a as [|x a IH]; [reflexivity|].
  rewrite !str_app_cons, IH. reflexivity.
Qed.

Lemma str_app_nil_r a : a +:+ "" = a.
Proof.
  induction a as [|x a IH]; [reflexivity|]. rewrite str_app_cons, IH.
  reflexivity.
Qed.

Lemma Occurs_refl s : Occurs s s.
Proof. exists "", "". rewrite str_app_nil_l, str_app_nil_r. reflexivity. Qed.

Lemma Occurs_empty s : Occurs "" s.
Proof. exists "", s. reflexivity. Qed.

Lemma Occurs_prefix t s : String.prefix t s = true -> Occurs t s.
Proof.
  intros H. apply str_prefix_app in H. destruct H as [post ->].
  exists "", post. reflexivity.
Qed.

(** [strings.Index] finds an occurrence exactly when there is one. *)
Lemma Index_Occurs s t : 0 <= gosearch.Index s t <-> Occurs t s.
Proof.
  induction s as [|c s IH]; cbn [gosearch.Index].
  - destruct (String.prefix t "") eqn:Hp.
    + split; [intros _; apply Occurs_prefix, Hp | lia].
    + split; [lia|]. intros (pre & post & H). symmetry in H.
      apply str_app_empty in H. destruct H as [_ H].
      apply str_app_empty in H. destruct H as [-> _].
      discriminate.
  - destruct (String.prefix t (String c s)) eqn:Hp.
    + split; [intros _; apply Occurs_prefix, Hp | lia].
    + destruct (Z.ltb_spec (gosearch.Index s t) 0) as [Hneg|Hpos].
      * split; [lia|]. intros (pre & post & H).
        destruct pre as [|x pre].
        -- rewrite str_app_nil_l in H.
           assert (String.prefix t (String c s) = true)
             by (apply str_prefix_app; eauto).
           congruence.
        -- rewrite str_app_cons in H. inversion H; subst.
           assert (Occurs t (pre +:+ t +:+ post)) by (exists pre, post; reflexivity).
           apply IH in H0. lia.
      * split; [intros _ | lia].
        destruct (proj1 IH Hpos) as (pre & post & ->).
        exists (String c pre), post. rewrite str_app_cons. reflexivity.
Qed.

Lemma Contains_Occurs s t : gosearch.Contains s t = true <-> Occurs t s.
Proof.
  unfold gosearch.Contains. rewrite Z.leb_le. apply Index_Occurs.
Qed.

Lemma lowerASCII_app a b :
  gosearch.lowerASCII (a +:+ b)
  = gosearch.lowerASCII a +:+ gosearch.lowerASCII b.
Proof.
  induction a as [|x a IH]; [reflexivity|].
  rewrite str_app_cons. cbn [gosearch.lowerASCII].
  rewrite IH, str_app_cons. reflexivity.
Qed.

Lemma scan_ascii s h :
  asciiOnly s = true ->
  exists h', gosearch.scan s h = (true, h')
             /\ (h' = false -> h = false /\ gosearch.lowerASCII s = s).
Proof.
  revert h. induction s as [|c s IH]; intros h Hs.
  - exists h. split; [reflexivity|]. auto.
  - cbn [asciiOnly] in Hs. apply andb_true_iff in Hs.
    destruct Hs as [Hc Hs]. apply Z.ltb_lt in Hc.
    cbn [gosearch.scan].
    replace (RuneSelf <=? byte c) with false
      by (symmetry; apply Z.leb_gt; exact Hc).
    destruct (IH (h || gosearch.upperByte (byte c)) Hs) as (h' & Hscan & Hlow).
    exists h'. split; [exact Hscan|]. intros Hh.
    destruct (Hlow Hh) as [Hor Hl]. apply orb_false_iff in Hor.
    destruct Hor as [Hh0 Hup]. split; [exact Hh0|].
    cbn [gosearch.lowerASCII]. rewrite Hup, Hl. reflexivity.
Qed.

(** On ASCII strings [ToLower] is the map over the bytes, whatever
    [strings.Map] does. *)
Lemma ToLower_ascii mapLower s :
  asciiOnly s = true -> gosearch.ToLower mapLower s = gosearch.lowerASCII s.
Proof.
  intros Hs. unfold gosearch.ToLower.
  destruct (scan_ascii s false Hs) as (h' & -> & Hlow).
  destruct h'; [reflexivity|]. cbn [negb].
  symmetry. apply Hlow. reflexivity.
Qed.

Lemma ToLower_empty mapLower : gosearch.ToLower mapLower "" = "".
Proof. reflexivity. Qed.

Lemma asciiOnly_app a b :
  asciiOnly (a +:+ b) = asciiOnly a && asciiOnly b.
Proof.
  induction a as [|x a IH]; [reflexivity|].
  rewrite str_app_cons. cbn [asciiOnly]. rewrite IH, andb_assoc.
  reflexivity.
Qed.

(** Every article is found by the empty keyword. *)
Lemma mentions_empty mapLower a : mentions mapLower "" a = true.
Proof.
  unfold mentions. cbv zeta. rewrite ToLower_empty.
  replace (gosearch.Contains (gosearch.ToLower mapLower (Title a)) "")
    with true by (symmetry; apply Contains_Occurs, Occurs_empty).
  reflexivity.
Qed.

(** An article is found by its own title. *)
Lemma mentions_title mapLower a : mentions mapLower (Title a) a = true.
Proof.
  unfold mentions. cbv zeta.
  replace (gosearch.Contains (gosearch.ToLower mapLower (Title a))
             (gosearch.ToLower mapLower (Title a)))
    with true by (symmetry; apply Contains_Occurs, Occurs_refl).
  reflexivity.
Qed.

(** X14: on ASCII text the search ignores the case of the letters: a
    keyword finds every article whose title, summary or content holds a
    word that differs from it at most in the case of its letters. *)
Theorem search_ignores_ascii_case mapLower keyword word field a :
  asciiOnly keyword = true ->
  In field [Title a; Summary a; Content a] ->
  asciiOnly field = true ->
  gosearch.lowerASCII word = gosearch.lowerASCII keyword ->
  Occurs word field ->
  mentions mapLower keyword a = true.
Proof.
  intros Hk Hin Hf Hword (pre & post & Hocc).
  assert (Hfound :
    gosearch.Contains (gosearch.ToLower mapLower field)
      (gosearch.ToLower mapLower keyword) = true).
  { rewrite (ToLower_ascii mapLower keyword Hk),
      (ToLower_ascii mapLower field Hf).
    apply Contains_Occurs.
    exists (gosearch.lowerASCII pre), (gosearch.lowerASCII post).
    rewrite Hocc, !lowerASCII_app, Hword. reflexivity. }
  unfold mentions. cbv zeta.
  destruct Hin as [<-|[<-|[<-|[]]]]; rewrite Hfound, ?orb_true_r;
    reflexivity.
Qed.

Lemma In_insertDocument x d l :
  In x (insertDocument d l) <-> x = d \/ In x l.
Proof.
  induction l as [|y l IH]; cbn [insertDocument In].
  - intuition congruence.
  - destruct (String.leb (fst d) (fst y)); cbn [In]; [intuition congruence|].
    rewrite IH. intuition congruence.
Qed.

(** The iterator yields the documents of the store, each once under its
    key. *)
Lemma In_Documents st k doc :
  In (k, doc) (Documents st) <-> st !! k = Some doc.
Proof.
  unfold Documents. rewrite <- elem_of_map_to_list.
  rewrite list_elem_of_In.
  induction (map_to_list st) as [|y l IH]; cbn [foldr In]; [reflexivity|].
  rewrite In_insertDocument, IH. intuition congruence.
Qed.

Lemma In_storedArticles st a :
  In a (storedArticles st)
  <-> exists k doc, st !! k = Some doc /\ DataTo doc = Some a.
Proof.
  unfold storedArticles. rewrite <- list_elem_of_In, list_elem_of_omap.
  split.
  - intros ([k doc] & Hin & Hd). exists k, doc. split; [|exact Hd].
    apply In_Documents, list_elem_of_In, Hin.
  - intros (k & doc & Hk & Hd). exists (k, doc). split; [|exact Hd].
    apply list_elem_of_In, In_Documents, Hk.
Qed.

Ltac fold_mentions :=
  match goal with
  | |- context [gosearch.Contains (gosearch.ToLower ?m (Title ?a))
                  (gosearch.ToLower ?m ?k)] =>
      fold (mentions m k a)
  end.

Ltac search_step IH :=
  match goal with
  | |- context [searchLoop ?e ?m ?w ?d ?r ?s1] =>
      specialize (IH r s1); cbv zeta in IH;
      destruct (searchLoop e m w d r s1) as [[v s2] evs]
  end;
  unfold found, searchFailure, searchFinal in *; cbn [fst snd store] in *;
  destruct IH as (Hs & Herr & Hok & Hall);
  (split; [exact Hs|]); (split; [exact Herr|]);
  (split; [|exact Hall]); intros Hnone; rewrite (Hok Hnone).

Lemma searchLoop_spec env mapLower keyword docs results s :
  let run := searchLoop env mapLower keyword docs results s in
  store (searchFinal run) = store s
  /\ (searchFailure run <> None -> fst (fst run) = ([], Some ErrIterate))
  /\ (searchFailure run = None ->
      found run
      = results ++ List.filter (mentions mapLower keyword)
                     (omap (fun d => DataTo (snd d)) docs))
  /\ ((forall n, storeFault env n <> RpcFailed) -> searchFailure run = None).
Proof.
  revert results s. induction docs as [|[k doc] rest IH]; intros results s.
  - cbn [searchLoop]. unfold found, searchFailure, searchFinal.
    destruct (storeFault env (calls s)) eqn:Hf; cbn [fst snd store].
    all: split; [reflexivity|]; split;
      [first [intros _; reflexivity | intros H; contradiction]|]; split.
    all: try (intros _; cbn; symmetry; apply app_nil_r).
    all: try discriminate.
    all: try (intros _; reflexivity).
    intros H. specialize (H (calls s)). contradiction.
  - cbn [searchLoop].
    destruct (storeFault env (calls s)) eqn:Hf.
    3:{ unfold found, searchFailure, searchFinal. cbn [fst snd store].
        split; [reflexivity|]. split; [intros _; reflexivity|].
        split; [discriminate|]. intros H. specialize (H (calls s)).
        contradiction. }
    all: cbn [omap list_omap snd]; destruct (DataTo doc) as [article|].
    all: cbv zeta; try fold_mentions; search_step IH.
    all: cbn [List.filter]; try reflexivity.
    all: destruct (mentions _ _ _); rewrite <- ?app_assoc; reflexivity.
Qed.

(** X15: the search reads only and returns all or nothing: it leaves the
    store as it was whatever happens, and when it returns an error (the
    client is missing or cannot be had, or a call of the iterator fails,
    be it after many documents) it returns no article at all. Without a
    client it returns at once, without a call. *)
Theorem search_all_or_nothing env mapLower keyword s :
  let run := SearchNewsArticles env mapLower keyword s in
  store (searchFinal run) = store s
  /\ (searchFailure run <> None -> found run = [])
  /\ (firestoreApp env = false ->
      run = (([], Some (SearchErr ErrNotInitialized)), s, [])).
Proof.
  intros run. unfold run, SearchNewsArticles.
  destruct (firestoreApp env); cbn [negb].
  2:{ repeat split. }
  pose proof (searchLoop_spec env mapLower keyword (Documents (store s)) []
                {| store := store s; calls := S (calls s) |}) as H.
  cbv zeta in H. cbn [store] in H. destruct H as (Hs & Herr & _ & _).
  unfold found, searchFailure, searchFinal in *.
  destruct (storeFault env (calls s)).
  - split; [exact Hs|]. split; [|discriminate].
    intros He. rewrite (Herr He). reflexivity.
  - repeat split. discriminate.
  - split; [exact Hs|]. split; [|discriminate].
    intros He. rewrite (Herr He). reflexivity.
Qed.

Lemma search_results_eq env mapLower keyword s :
  searchFailure (SearchNewsArticles env mapLower keyword s) = None ->
  found (SearchNewsArticles env mapLower keyword s)
  = List.filter (mentions mapLower keyword) (storedArticles (store s)).
Proof.
  unfold SearchNewsArticles.
  destruct (firestoreApp env); cbn [negb]; [|discriminate].
  pose proof (searchLoop_spec env mapLower keyword (Documents (store s)) []
                {| store := store s; calls := S (calls s) |}) as H.
  cbv zeta in H. destruct H as (_ & _ & Hok & _).
  unfold found, searchFailure in *.
  destruct (storeFault env (calls s)); try discriminate; exact Hok.
Qed.

(** X16: when the search returns without an error it returns exactly the
    articles of the collection that mention the keyword, in the order of
    the iterator: every article returned is a stored document that
    converts and mentions the keyword, and every such document is
    returned. Documents that do not convert are passed over. *)
Theorem search_results env mapLower keyword s :
  let run := SearchNewsArticles env mapLower keyword s in
  searchFailure run = None ->
  found run
  = List.filter (mentions mapLower keyword) (storedArticles (store s))
  /\ forall a,
       In a (found run)
       <-> (exists k doc, store s !! k = Some doc /\ DataTo doc = Some a)
           /\ mentions mapLower keyword a = true.
Proof.
  intros run Hnone.
  pose proof (search_results_eq env mapLower keyword s Hnone) as Hres.
  fold run in Hres.
  split; [exact Hres|]. intros a.
  rewrite Hres, List.filter_In, In_storedArticles. reflexivity.
Qed.

(** X17: the empty keyword finds every article of the collection. *)
Theorem search_empty_keyword env mapLower s :
  let run := SearchNewsArticles env mapLower "" s in
  searchFailure run = None ->
  found run = storedArticles (store s).
Proof.
  intros run Hnone.
  unfold run. rewrite (search_results_eq env mapLower "" s Hnone).
  induction (storedArticles (store s)) as [|a l IH]; [reflexivity|].
  cbn [List.filter]. rewrite mentions_empty, IH. reflexivity.
Qed.

Lemma search_succeeds env mapLower keyword s :
  firestoreApp env = true ->
  (forall n, storeFault env n = Healthy) ->
  searchFailure (SearchNewsArticles env mapLower keyword s) = None.
Proof.
  intros Happ Hh. unfold SearchNewsArticles. rewrite Happ, Hh. cbn [negb].
  apply (searchLoop_spec env mapLower keyword (Documents (store s)) []
           {| store := store s; calls := S (calls s) |}).
  intros n. rewrite Hh. discriminate.
Qed.

(** X18: a record that was saved is found by a search for its title. *)
Theorem saved_article_is_searchable env mapLower article s :
  firestoreApp env = true ->
  (forall n, storeFault env n = Healthy) ->
  let saved := saveArticleToFirestore env article s in
  let run := SearchNewsArticles env mapLower (Title article) (final saved) in
  value saved = None
  /\ searchFailure run = None
  /\ In article (found run).
Proof.
  intros Happ Hh saved run.
  pose proof (search_succeeds env mapLower (Title article) (final saved)
                Happ Hh) as Hok.
  fold run in Hok.
  assert (Hsaved : value saved = None
                   /\ store (final saved)
                      = <[existsDocID (URL article) := toDocument article]>
                          (store s)).
  { unfold saved, saveArticleToFirestore. rewrite Happ. cbn [negb].
    unfold bind, tick, emit, getStore, putStore, log, ret, value, final.
    cbn [fst snd store calls]. rewrite Hh. cbn [fst snd store calls].
    split; reflexivity. }
  destruct Hsaved as [Hval Hstore].
  split; [exact Hval|]. split; [exact Hok|].
  unfold run. rewrite (search_results_eq _ _ _ _ Hok).
  apply List.filter_In. split; [|apply mentions_title].
  apply In_storedArticles.
  exists (existsDocID (URL article)), (toDocument article).
  rewrite Hstore, lookup_insert_eq. split; [reflexivity|].
  apply DataTo_toDocument.
Qed.

(** ** The keys of the canonical article URLs *)

Lemma smap_app f a b : smap f (a +:+ b) = smap f a +:+ smap f b.
Proof.
  induction a as [|x a IH]; [reflexivity|].
  rewrite str_app_cons. cbn [smap]. rewrite IH, str_app_cons. reflexivity.
Qed.

Lemma smap_length f s : String.length (smap f s) = String.length s.
Proof.
  induction s as [|c s IH]; [reflexivity|]. cbn [smap String.length].
  rewrite IH. reflexivity.
Qed.

Lemma decimal_not_reserved c : decimal c = true -> reserved c = false.
Proof.
  destruct c as [[] [] [] [] [] [] [] []]; try discriminate; reflexivity.
Qed.

Lemma smap_decimal d :
  allDecimal d = true ->
  smap (fun c => if reserved c then "_"%char else c) d = d.
Proof.
  induction d as [|c d IH]; intros H; [reflexivity|].
  cbn [allDecimal] in H. apply andb_true_iff in H. destruct H as [Hc Hd].
  cbn [smap]. rewrite (decimal_not_reserved c Hc), (IH Hd). reflexivity.
Qed.

Lemma str_app_inv_head a b c : a +:+ b = a +:+ c -> b = c.
Proof.
  induction a as [|x a IH]; [exact (fun H => H)|].
  rewrite !str_app_cons. intros H. inversion H. auto.
Qed.

(** Two runs of digits, each followed by an underscore, that agree with
    what follows them are the same. *)
Lemma digits_underscore o o' a a' :
  allDecimal o = true -> allDecimal o' = true ->
  o +:+ String "_" a = o' +:+ String "_" a' -> o = o' /\ a = a'.
Proof.
  revert o'. induction o as [|c o IH]; intros [|c' o'] Ho Ho' H.
  - rewrite !str_app_nil_l in H. inversion H. auto.
  - rewrite str_app_nil_l, str_app_cons in H. inversion H; subst.
    cbn [allDecimal] in Ho'. discriminate.
  - rewrite str_app_nil_l, str_app_cons in H. inversion H; subst.
    cbn [allDecimal] in Ho. discriminate.
  - rewrite !str_app_cons in H. inversion H; subst.
    cbn [allDecimal] in Ho, Ho'. apply andb_true_iff in Ho, Ho'.
    destruct (IH o' (proj2 Ho) (proj2 Ho') H2) as [-> ->]. auto.
Qed.

Lemma article_url_key cfg o a :
  allDecimal o = true -> allDecimal a = true ->
  smap (fun c => if reserved c then "_"%char else c)
    (NaverArticleBaseURL cfg +:+ "/" +:+ o +:+ "/" +:+ a)
  = smap (fun c => if reserved c then "_"%char else c)
      (NaverArticleBaseURL cfg)
    +:+ String "_" (o +:+ String "_" a).
Proof.
  intros Ho Ha. rewrite !smap_app, (smap_decimal o Ho), (smap_decimal a Ha).
  reflexivity.
Qed.

(** X19: on the canonical URLs of articles the store key is injective, as
    long as the URL has at most 500 bytes: two listing links that both
    carry the two identifiers and whose canonical URLs have the same key
    have the same canonical URL. *)
Theorem article_key_injective cfg link link' :
  HasToken "article_id=" link -> HasToken "office_id=" link ->
  HasToken "article_id=" link' -> HasToken "office_id=" link' ->
  len (reconstructURL cfg link) <= 500 ->
  len (reconstructURL cfg link') <= 500 ->
  existsDocID (reconstructURL cfg link)
  = existsDocID (reconstructURL cfg link') ->
  reconstructURL cfg link = reconstructURL cfg link'.
Proof.
  intros Ha Ho Ha' Ho' Hlen Hlen' Hkey.
  destruct (proj1 (reconstructURL_cases cfg link) (conj Ha Ho))
    as (a & o & Hfa & Hfo & Hurl).
  destruct (proj1 (reconstructURL_cases cfg link') (conj Ha' Ho'))
    as (a' & o' & Hfa' & Hfo' & Hurl').
  destruct Hfa as (? & ? & (_ & _ & Hda) & _).
  destruct Hfo as (? & ? & (_ & _ & Hdo) & _).
  destruct Hfa' as (? & ? & (_ & _ & Hda') & _).
  destruct Hfo' as (? & ? & (_ & _ & Hdo') & _).
  rewrite !existsDocID_storeKey in Hkey. unfold storeKey in Hkey.
  unfold len in Hlen, Hlen'.
  rewrite !str_take_all in Hkey by (rewrite smap_length; lia).
  rewrite Hurl, Hurl' in Hkey |- *.
  rewrite !article_url_key in Hkey by assumption.
  apply str_app_inv_head in Hkey. inversion Hkey as [Hrest].
  destruct (digits_underscore o o' a a' Hdo Hdo' Hrest) as [-> ->].
  reflexivity.
Qed.

(** ** The addresses that a run requests *)

Lemma fetchLoop_urls env url fuel retry fullContent s :
  post (fetchLoop env url fuel retry fullContent) s (fun _ _ evs =>
    forall c u, In (EvFetchArticle c u) evs -> u = url).
Proof.
  revert retry s. induction fuel as [|fuel IH]; intros retry s.
  - intros c u [].
  - cbn [fetchLoop]. wp.
    all: try (intros c0 u Hin; in_events; try discriminate;
              inversion Hin; reflexivity).
    all: eapply post_weaken; [apply IH|]; cbn beta; intros ? ? e He.
    all: intros c0 u Hin; in_events; try discriminate;
      try (inversion Hin; reflexivity); eapply He; eassumption.
Qed.

Lemma processItem_targets env cfg s_item a s :
  post (processItem env cfg s_item a) s (fun a' s' evs =>
    Targets cfg a s a' s' evs).
Proof.
  unfold processItem.
  unfold articleExistsInFirestore, updateArticleAISummaryToEmpty,
    saveArticleToFirestore.
  wp_with fetchLoop_urls.
  all: try discriminate.
  all: try match goal with |- _ -> post _ _ _ => intros Hloop; wp end.
  all: intros c u Hin; in_events; try discriminate.
  all: apply Hloop in Hin; subst; eexists; reflexivity.
Qed.

Lemma Targets_trans cfg a s a1 s1 e1 a2 s2 e2 :
  Targets cfg a s a1 s1 e1 -> Targets cfg a1 s1 a2 s2 e2 ->
  Targets cfg a s a2 s2 (e1 ++ e2).
Proof.
  intros H1 H2 c u Hin. apply in_app_iff in Hin. destruct Hin; eauto.
Qed.

Lemma Targets_page cfg a s s' evs :
  store s' = store s -> Forall pageEffect evs -> Targets cfg a s a s' evs.
Proof.
  intros _ Hev c u Hin. rewrite List.Forall_forall in Hev.
  apply Hev, pageEffect_not_store in Hin. destruct Hin; discriminate.
Qed.

Lemma reconstructURL_prefix cfg link :
  String.prefix (NaverArticleBaseURL cfg +:+ "/") (reconstructURL cfg link)
  = true
  \/ String.prefix "https://finance.naver.com" (reconstructURL cfg link)
     = true.
Proof.
  unfold reconstructURL. cbv zeta. destruct (_ && _); [left | right];
    apply str_prefix_app; eexists.
  - rewrite str_app_assoc. reflexivity.
  - reflexivity.
Qed.

(** X20: with the configuration that [LoadConfig] returns, whatever the
    variables of the process, a run requests only two kinds of address:
    the listing pages of finance.naver.com, by page number, and for the
    articles addresses that begin with the article base of
    n.news.naver.com or, for a link without the two identifiers, with
    https://finance.naver.com followed by the link. *)
Theorem crawl_request_targets os cfg env pages s :
  LoadConfig os = Some cfg ->
  let evs := events (CrawlNaverFinanceNews env cfg pages s) in
  (forall c j u, In (EvFetchListing c j u) evs ->
     u = "https://finance.naver.com/news/mainnews.naver?page=" +:+ fmt.d j)
  /\ (forall c u, In (EvFetchArticle c u) evs ->
        String.prefix "https://n.news.naver.com/mnews/article/" u = true
        \/ String.prefix "https://finance.naver.com" u = true).
Proof.
  intros Hcfg evs.
  assert (Hbases :
    NaverFinanceBaseURL cfg = "https://finance.naver.com/news/mainnews.naver"
    /\ NaverArticleBaseURL cfg = "https://n.news.naver.com/mnews/article").
  { unfold LoadConfig in Hcfg.
    destruct (String.eqb (Getenv os _) ""); [destruct (notExist os _)|];
      try discriminate; inversion Hcfg; split; reflexivity. }
  destruct Hbases as [Hfin Hart]. split.
  - intros c j u Hin. unfold evs in Hin.
    rewrite (proj2 (Crawl_run env cfg pages s)) in Hin.
    destruct Hin as [Hin|Hin]; [discriminate|].
    pose proof (proj1 (post_run _ _ _)
      (pageLoop_fetches env cfg pages (Z.to_nat pages) 1 [] s)) as [H _].
    destruct (H c j u Hin) as [_ ->]. unfold pageURL. rewrite Hfin.
    reflexivity.
  - intros c u Hin.
    pose proof (proj1 (post_run _ _ _)
      (Crawl_lift env cfg (fun _ => True) (Targets cfg) (Targets_trans cfg)
         (fun it a0 s0 _ => processItem_targets env cfg it a0 s0)
         (Targets_page cfg) (fun _ _ _ _ _ _ _ _ => I) pages s)) as H.
    destruct (H c u Hin) as [link ->].
    pose proof (reconstructURL_prefix cfg link) as Hp.
    rewrite Hart in Hp. exact Hp.
Qed.

(** ** The sanitizer, byte by byte *)

Lemma get_take_app k s out i :
  (k <= String.length s)%nat ->
  String.get i (take k s +:+ out)
  = if (i <? k)%nat then String.get i s else String.get (i - k) out.
Proof.
  revert s i. induction k as [|k IH]; intros s i Hk.
  - cbn [take]. rewrite str_app_nil_l, Nat.sub_0_r. reflexivity.
  - destruct s as [|c s]; [cbn [String.length] in Hk; lia|].
    cbn [take String.length] in *. rewrite str_app_cons.
    destruct i as [|i]; [reflexivity|]. cbn [String.get Nat.sub].
    rewrite IH by lia. reflexivity.
Qed.

Lemma get_drop k s i : String.get i (drop k s) = String.get (k + i) s.
Proof.
  revert s. induction k as [|k IH]; intros s; [reflexivity|].
  destruct s as [|c s]; cbn [drop Nat.add String.get].
  - destruct i; reflexivity.
  - apply IH.
Qed.

Lemma headWidth_None_high c t :
  headWidth (String c t) = None -> 0x80 <= byte c.
Proof.
  unfold headWidth. destruct (seq1 (byte c)) eqn:H1; [discriminate|].
  intros _. unfold seq1, between in H1. pose proof (byte_range c). lia.
Qed.

Lemma Repaired_pointwise s out i :
  Repaired s out ->
  String.get i out = String.get i s
  \/ (String.get i out = Some " "%char
      /\ exists c, String.get i s = Some c /\ 0x80 <= byte c).
Proof.
  intros H. revert i. induction H as [|s k out Hh _ IH|c t out Hh _ IH];
    intros i.
  - left. reflexivity.
  - destruct (headWidth_bound _ _ Hh) as [_ Hk].
    rewrite get_take_app by exact Hk.
    destruct (Nat.ltb_spec i k) as [Hi|Hi]; [left; reflexivity|].
    specialize (IH (i - k)%nat). rewrite get_drop in IH.
    replace (k + (i - k))%nat with i in IH by lia. exact IH.
  - destruct i as [|i]; cbn [String.get].
    + right. split; [reflexivity|]. exists c. split; [reflexivity|].
      eapply headWidth_None_high, Hh.
    + apply IH.
Qed.

(** X21: the sanitizer works in place, byte by byte: every byte of the
    output is the byte of the input at the same position, or it is a space
    that stands for a byte of 0x80 or more. ASCII text, in particular, is
    never changed nor moved. *)
Theorem cleanUTF8String_pointwise s i :
  String.get i (cleanUTF8String s) = String.get i s
  \/ (String.get i (cleanUTF8String s) = Some " "%char
      /\ exists c, String.get i s = Some c /\ 0x80 <= byte c).
Proof.
  apply Repaired_pointwise. rewrite cleanUTF8String_repair.
  apply repair_Repaired. lia.
Qed.

(** ** The further properties on the small world *)

Lemma Sample_serves_valid_links : ServesValidLinks Sample.env Example.cfg.
Proof.
  intros c u resp doc s_item Hdo Hbody Hin.
  unfold Sample.env, Example.world, Example.site in Hdo. cbn [clientDo] in Hdo.
  destruct (String.prefix _ u); inversion Hdo; subst resp;
    cbn [body Example.listing Example.article] in Hbody;
    inversion Hbody; subst doc; cbn [newsList In] in Hin.
  - destruct Hin as [<-|[]]. vm_compute. reflexivity.
  - destruct Hin.
Qed.

(** With a store whose calls all fail, two pages are walked and nothing
    is returned or written. *)
Lemma crawl_without_store_witness :
  StoreDown Sample.envStoreDown
  /\ fst (value (CrawlNaverFinanceNews Sample.envStoreDown Example.cfg 2
                   Example.empty)) = []
  /\ store (final (CrawlNaverFinanceNews Sample.envStoreDown Example.cfg 2
                     Example.empty)) = store Example.empty.
Proof.
  assert (H : StoreDown Sample.envStoreDown)
    by (right; intros n; discriminate).
  split; [exact H|].
  pose proof (crawl_without_store Sample.envStoreDown Example.cfg 2
                Example.empty H) as (H1 & H2 & _).
  split; [exact H1 | exact H2].
Defined.

(** A run that meets an article stored with a null [aiSummary] sets the
    field to the empty string. *)
Example null_ai_summary_is_reset :
  DataTo Sample.nullDocument
  = Some {| Title := "Title"; Summary := "teaser"; Content := "body";
            AISummary := ""; Source := "Press"; URL := Example.articleURL;
            CollectedAt := 7 |}
  /\ store (final (CrawlNaverFinanceNews Sample.env Example.cfg 1
                     Sample.storedNull)) !! Example.articleKey
     = Some (<["aiSummary" := VString ""]> Sample.nullDocument).
Proof. split; vm_compute; reflexivity. Qed.

(** The article that was stored with a null [aiSummary] is still there
    after a run that meets it again. *)
Lemma crawl_keeps_documents_witness :
  ServesValidLinks Sample.env Example.cfg
  /\ store Sample.storedNull !! Example.articleKey = Some Sample.nullDocument
  /\ exists doc',
       store (final (CrawlNaverFinanceNews Sample.env Example.cfg 1
                       Sample.storedNull)) !! Example.articleKey = Some doc'
       /\ keptDocument Sample.nullDocument doc'.
Proof.
  assert (H : store Sample.storedNull !! Example.articleKey
              = Some Sample.nullDocument) by (vm_compute; reflexivity).
  split; [exact Sample_serves_valid_links|]. split; [exact H|].
  exact (crawl_keeps_documents Sample.env Example.cfg 1 Sample.storedNull
           Example.articleKey Sample.nullDocument
           Sample_serves_valid_links H).
Defined.

(** Two pages that list the same item: the run returns it once. *)
Lemma crawl_results_stored_witness :
  ServesValidLinks Sample.env Example.cfg
  /\ NoDup (map (fun x => existsDocID (URL x))
              (fst (value (CrawlNaverFinanceNews Sample.env Example.cfg 2
                             Example.empty)))).
Proof.
  split; [exact Sample_serves_valid_links|].
  exact (proj1 (crawl_results_stored Sample.env Example.cfg 2 Example.empty
                  Sample_serves_valid_links)).
Defined.

Lemma malformed_items_skipped_witness :
  Forall (fun s_item => ~ wellFormedItem Sample.env s_item)
    [Sample.malformed; Sample.malformed]
  /\ Each Sample.env Example.cfg [Sample.malformed; Sample.malformed] []
       Example.empty
     = ([], Example.empty,
        [EvLog (LogMissingElements "<li>?</li>");
         EvLog (LogMissingElements "<li>?</li>")]).
Proof.
  assert (H : Forall (fun s_item => ~ wellFormedItem Sample.env s_item)
                [Sample.malformed; Sample.malformed]).
  { repeat constructor; intros (Htitle & _); apply Htitle; reflexivity. }
  split; [exact H|].
  exact (malformed_items_skipped Sample.env Example.cfg
           [Sample.malformed; Sample.malformed] [] Example.empty H).
Defined.

Lemma saved_article_is_found_witness :
  firestoreApp Sample.env = true
  /\ storeFault Sample.env (calls Example.empty) = Healthy
  /\ storeFault Sample.env (S (calls Example.empty)) = Healthy
  /\ value (articleExistsInFirestore Sample.env Example.articleURL
              (final (saveArticleToFirestore Sample.env
                        (Example.savedArticle "BODY") Example.empty)))
     = (true, Some (Example.savedArticle "BODY"), None).
Proof.
  repeat (split; [reflexivity|]).
  exact (proj2 (saved_article_is_found Sample.env
                  (Example.savedArticle "BODY") Example.empty
                  eq_refl eq_refl eq_refl)).
Defined.

(** A search for ["body"] in the store that holds the old article. *)
Lemma search_results_witness :
  searchFailure (SearchNewsArticles Sample.env (fun s => s) "body"
                   Example.stored) = None
  /\ found (SearchNewsArticles Sample.env (fun s => s) "body" Example.stored)
     = List.filter (mentions (fun s => s) "body")
         (storedArticles (store Example.stored)).
Proof.
  assert (H : searchFailure (SearchNewsArticles Sample.env (fun s => s) "body"
                               Example.stored) = None)
    by (vm_compute; reflexivity).
  split; [exact H|].
  exact (proj1 (search_results Sample.env (fun s => s) "body" Example.stored
                  H)).
Defined.

Lemma search_empty_keyword_witness :
  searchFailure (SearchNewsArticles Sample.env (fun s => s) ""
                   Example.stored) = None
  /\ found (SearchNewsArticles Sample.env (fun s => s) "" Example.stored)
     = storedArticles (store Example.stored).
Proof.
  assert (H : searchFailure (SearchNewsArticles Sample.env (fun s => s) ""
                               Example.stored) = None)
    by (vm_compute; reflexivity).
  split; [exact H|].
  exact (search_empty_keyword Sample.env (fun s => s) Example.stored H).
Defined.

Lemma saved_article_is_searchable_witness :
  firestoreApp Sample.env = true
  /\ In (Example.savedArticle "BODY")
       (found (SearchNewsArticles Sample.env (fun s => s) "Title"
                 (final (saveArticleToFirestore Sample.env
                           (Example.savedArticle "BODY") Example.empty)))).
Proof.
  split; [reflexivity|].
  exact (proj2 (proj2 (saved_article_is_searchable Sample.env (fun s => s)
                         (Example.savedArticle "BODY") Example.empty
                         eq_refl (fun n => eq_refl)))).
Defined.

(** The keyword ["TITLE"] finds the article whose title is ["Title"]. *)
Lemma search_ignores_ascii_case_witness :
  asciiOnly "TITLE" = true
  /\ gosearch.lowerASCII "Title" = gosearch.lowerASCII "TITLE"
  /\ Occurs "Title" (Title (Example.savedArticle "BODY"))
  /\ mentions (fun s => s) "TITLE" (Example.savedArticle "BODY") = true.
Proof.
  assert (Hocc : Occurs "Title" (Title (Example.savedArticle "BODY")))
    by (exists "", ""; reflexivity).
  split; [reflexivity|]. split; [reflexivity|]. split; [exact Hocc|].
  exact (search_ignores_ascii_case (fun s => s) "TITLE" "Title"
           (Title (Example.savedArticle "BODY")) (Example.savedArticle "BODY")
           eq_refl (or_introl eq_refl) eq_refl eq_refl Hocc).
Defined.

(** Two links that name the same article, the identifiers in either
    order, have the same key and the same canonical URL. *)
Lemma article_key_injective_witness :
  HasToken "article_id=" Example.link
  /\ HasToken "office_id=" Sample.linkReversed
  /\ existsDocID (reconstructURL Example.cfg Example.link)
     = existsDocID (reconstructURL Example.cfg Sample.linkReversed)
  /\ reconstructURL Example.cfg Example.link
     = reconstructURL Example.cfg Sample.linkReversed.
Proof.
  assert (Ha : HasToken "article_id=" Example.link).
  { exists "/news/news_read.naver?", "0005023871", "&office_id=018&mode=mainnews".
    repeat split; [discriminate]. }
  assert (Ho : HasToken "office_id=" Example.link).
  { exists "/news/news_read.naver?article_id=0005023871&", "018",
      "&mode=mainnews".
    repeat split; [discriminate]. }
  assert (Ha' : HasToken "article_id=" Sample.linkReversed).
  { exists "/news/news_read.naver?office_id=018&", "0005023871", "".
    repeat split; [discriminate]. }
  assert (Ho' : HasToken "office_id=" Sample.linkReversed).
  { exists "/news/news_read.naver?", "018", "&article_id=0005023871".
    repeat split; [discriminate]. }
  assert (Hkey : existsDocID (reconstructURL Example.cfg Example.link)
                 = existsDocID (reconstructURL Example.cfg Sample.linkReversed))
    by (vm_compute; reflexivity).
  split; [exact Ha|]. split; [exact Ho'|]. split; [exact Hkey|].
  exact (article_key_injective Example.cfg Example.link Sample.linkReversed
           Ha Ho Ha' Ho'
           ltac:(vm_compute; discriminate) ltac:(vm_compute; discriminate)
           Hkey).
Defined.

Lemma crawl_request_targets_witness :
  LoadConfig Sample.os = Some Example.cfg
  /\ forall c j u,
       In (EvFetchListing c j u)
          (events (CrawlNaverFinanceNews Sample.env Example.cfg 2
                     Example.empty)) ->
       u = "https://finance.naver.com/news/mainnews.naver?page=" +:+ fmt.d j.
Proof.
  split; [reflexivity|].
  exact (proj1 (crawl_request_targets Sample.os Example.cfg Sample.env 2
                  Example.empty eq_refl)).
Defined.

(** ** The pauses of a run *)

Lemma fetchLoop_sleeps env url fuel retry fullContent s :
  0 <= retry ->
  post (fetchLoop env url fuel retry fullContent) s (fun _ _ evs =>
    forall ms, In (EvSleep ms) evs -> ms = 1000 \/ ms = 2000).
Proof.
  revert retry s. induction fuel as [|fuel IH]; intros retry s Hr.
  - intros ms [].
  - cbn [fetchLoop]. wp.
    all: try (intros ms Hin; in_events; discriminate).
    all: eapply post_weaken; [apply IH; lia|]; cbn beta; intros ? ? e He.
    all: intros ms Hin; in_events; try discriminate; try (apply He; assumption).
    inversion Hin; subst. apply Z.ltb_lt in Heqb1. lia.
Qed.

Lemma processItem_paced env cfg s_item a s :
  post (processItem env cfg s_item a) s (fun a' s' evs => Paced a s a' s' evs).
Proof.
  unfold processItem.
  unfold articleExistsInFirestore, updateArticleAISummaryToEmpty,
    saveArticleToFirestore.
  repeat (wp_step; cbn [store calls app];
          try (eapply post_weaken; [apply fetchLoop_sleeps; lia|];
               cbn [store calls]; intros ? ? ? Hloop)).
  all: try discriminate.
  all: intros ms Hin; in_events; try discriminate.
  all: unfold pause.
  all: try (apply Hloop in Hin; lia).
  all: inversion Hin; subst;
    match goal with
    | |- context [?r mod 500] =>
        pose proof (Z.mod_pos_bound r 500 ltac:(lia)); lia
    end.
Qed.

Lemma Paced_trans a s a1 s1 e1 a2 s2 e2 :
  Paced a s a1 s1 e1 -> Paced a1 s1 a2 s2 e2 -> Paced a s a2 s2 (e1 ++ e2).
Proof.
  intros H1 H2 ms Hin. apply in_app_iff in Hin. destruct Hin; auto.
Qed.

Lemma Paced_page a s s' evs :
  store s' = store s -> Forall pageEffect evs -> Paced a s a s' evs.
Proof.
  intros _ Hev ms Hin. rewrite List.Forall_forall in Hev.
  apply Hev in Hin. destruct Hin as [Hin|(r & Hr & Hin)]; [discriminate|].
  inversion Hin; subst. unfold pause. lia.
Qed.

(** X22: every pause of a run lasts one, two, three or four seconds, or
    between 200 and 699 milliseconds (one or two seconds between the
    attempts to fetch an article, 200 to 699 milliseconds after a record
    is saved, two to four seconds after a page); so a run never pauses for
    less than 200 milliseconds nor for more than 4 seconds at a time. *)
Theorem crawl_pauses_bounded env cfg pages s ms :
  In (EvSleep ms) (events (CrawlNaverFinanceNews env cfg pages s)) ->
  pause ms /\ 200 <= ms <= 4000.
Proof.
  intros Hin.
  assert (H : pause ms).
  { revert ms Hin.
    apply (proj1 (post_run _ _ _)
      (Crawl_lift env cfg (fun _ => True) Paced Paced_trans
         (fun it a0 s0 _ => processItem_paced env cfg it a0 s0)
         Paced_page (fun _ _ _ _ _ _ _ _ => I) pages s)). }
  split; [exact H|]. unfold pause in H. lia.
Qed.

Lemma crawl_pauses_bounded_witness :
  In (EvSleep 200)
     (events (CrawlNaverFinanceNews Sample.env Example.cfg 1 Example.empty))
  /\ pause 200.
Proof.
  assert (H : In (EvSleep 200)
                (events (CrawlNaverFinanceNews Sample.env Example.cfg 1
                           Example.empty)))
    by (vm_compute; find_event).
  split; [exact H|].
  exact (proj1 (crawl_pauses_bounded Sample.env Example.cfg 1 Example.empty
                  200 H)).
Defined.

(** The page counts that some parameters ask for. *)
Example requestedPages_examples :
  map requestedPages ["10"; ""; "abc"; "+7"; "007"; "0"; "11"; "-3"; " 5";
                      "99999999999999999999"]
  = [10; 1; 1; 7; 7; 0; 11; -3; 1; 1].
Proof. vm_compute. reflexivity. Qed.

(** ** More pages *)

(** The page loop only appends to the result. *)
Lemma pageLoop_extends env cfg pages fuel pageNum a s :
  exists more,
    fst (value (pageLoop env cfg pages fuel pageNum a s)) = a ++ more.
Proof.
  pose proof (proj1 (post_run _ _ _)
    (pageLoop_lift env cfg (fun _ => True) Records Records_trans
       (fun it a0 s0 _ => processItem_records env cfg it a0 s0)
       Records_page (fun _ _ _ _ _ _ _ _ => I) pages fuel pageNum a s))
    as [_ (added & Hval & _)].
  exists added. exact Hval.
Qed.

Ltac run_step :=
  unfold bind, tick, emit, log, sleep, Intn, finish, ret, value;
  cbn [fst snd store calls].

Lemma pageLoop_more env cfg pages fuel fuel1 pageNum a s :
  fuel1 = S fuel ->
  exists more,
    fst (value (pageLoop env cfg (pages + 1) fuel1 pageNum a s))
    = fst (value (pageLoop env cfg pages fuel pageNum a s)) ++ more.
Proof.
  revert fuel1 pageNum a s.
  induction fuel as [|fuel IH]; intros fuel1 pageNum a s Hfuel.
  - apply pageLoop_extends.
  - destruct (Z.leb_spec pageNum pages) as [Hle|Hgt].
    2:{ (* the shorter run is over *)
        replace (fst (value (pageLoop env cfg pages (S fuel) pageNum a s)))
          with a.
        - apply pageLoop_extends.
        - cbn [pageLoop].
          replace (pageNum <=? pages) with false
            by (symmetry; apply Z.leb_gt; lia).
          reflexivity. }
    destruct fuel1 as [|f1]; [discriminate|]. apply eq_add_S in Hfuel.
    cbn [pageLoop].
    replace (pageNum <=? pages) with true by (symmetry; apply Z.leb_le; lia).
    replace (pageNum <=? pages + 1) with true
      by (symmetry; apply Z.leb_le; lia).
    destruct (negb (NewRequest_ok env (pageURL cfg pageNum)));
      [exists []; symmetry; apply app_nil_r|].
    run_step.
    destruct (clientDo env (calls s) (pageURL cfg pageNum)) as [resp|];
      [|exists []; symmetry; apply app_nil_r].
    destruct (negb (StatusCode resp =? StatusOK));
      [exists []; symmetry; apply app_nil_r|].
    destruct (body resp) as [| |doc];
      try (exists []; symmetry; apply app_nil_r).
    destruct (Z.of_nat (length (newsList doc)) =? 0);
      [exists []; symmetry; apply app_nil_r|].
    destruct (Each env cfg (newsList doc) a _) as [[a1 s1] e1].
    run_step.
    match goal with
    | |- context [pageLoop env cfg pages fuel ?p ?x ?st] =>
        destruct (IH f1 p x st Hfuel) as [more Hmore]; exists more;
        unfold value in Hmore;
        destruct (pageLoop env cfg (pages + 1) f1 p x st) as [[r2 s2] e2];
        destruct (pageLoop env cfg pages fuel p x st) as [[r3 s3] e3]
    end.
    exact Hmore.
Qed.

(** X23: asking for one page more never loses a record: in the same
    world and from the same state, the records that a run returns for
    [pages + 1] pages begin with the records that it returns for [pages]
    pages. *)
Theorem more_pages_more_records env cfg pages s :
  exists more,
    fst (value (CrawlNaverFinanceNews env cfg (pages + 1) s))
    = fst (value (CrawlNaverFinanceNews env cfg pages s)) ++ more.
Proof.
  rewrite !(proj1 (Crawl_run env cfg _ s)).
  destruct (Z.le_gt_cases 0 pages) as [Hp|Hp].
  - replace (Z.to_nat (pages + 1)) with (S (Z.to_nat pages)) by lia.
    apply pageLoop_more. reflexivity.
  - replace (Z.to_nat pages) with 0%nat by lia.
    apply (pageLoop_extends env cfg (pages + 1) (Z.to_nat (pages + 1)) 1 []).
Qed.

(** ** From the crawler to the search *)

(** X24: what a run returns can be searched for: when every link that
    the site serves gives a canonical URL that is valid UTF-8 and the store
    works, a search for the title of a record that a run has returned,
    made after the run, succeeds and finds the record. *)
Theorem crawled_articles_are_searchable env cfg pages s mapLower x :
  ServesValidLinks env cfg ->
  firestoreApp env = true ->
  (forall n, storeFault env n = Healthy) ->
  let run := CrawlNaverFinanceNews env cfg pages s in
  In x (fst (value run)) ->
  let search := SearchNewsArticles env mapLower (Title x) (final run) in
  searchFailure search = None /\ In x (found search).
Proof.
  intros Hlinks Happ Hh run Hin search.
  pose proof (search_succeeds env mapLower (Title x) (final run) Happ Hh)
    as Hok.
  fold search in Hok. split; [exact Hok|].
  unfold search. rewrite (search_results_eq _ _ _ _ Hok).
  apply List.filter_In. split; [|apply mentions_title].
  apply In_storedArticles.
  pose proof (proj1 (post_run _ _ _) (crawl_kept env cfg pages s Hlinks))
    as [_ (added & Hval & _ & Hadded)].
  fold run in Hval, Hadded. rewrite Hval in Hin. cbn [app] in Hin.
  exists (existsDocID (URL x)), (toDocument x).
  split; [apply (Hadded x Hin) | apply DataTo_toDocument].
Qed.

Lemma crawled_articles_are_searchable_witness :
  In Sample.crawled
     (fst (value (CrawlNaverFinanceNews Sample.env Example.cfg 1
                    Example.empty)))
  /\ In Sample.crawled
       (found (SearchNewsArticles Sample.env (fun s => s) "Title"
                 (final (CrawlNaverFinanceNews Sample.env Example.cfg 1
                           Example.empty)))).
Proof.
  assert (H : In Sample.crawled
                (fst (value (CrawlNaverFinanceNews Sample.env Example.cfg 1
                               Example.empty))))
    by (vm_compute; left; reflexivity).
  split; [exact H|].
  exact (proj2 (crawled_articles_are_searchable Sample.env Example.cfg 1
                  Example.empty (fun s => s) Sample.crawled
                  Sample_serves_valid_links eq_refl (fun n => eq_refl) H)).
Defined.

(** ** What a run does when nothing fails *)

(** X26: a new item is saved: when the store works, an item that passes
    the validation and whose key is not in the store is written to the
    store and added to the result, as one record that holds the sanitized
    title, teaser and source of the listing, the sanitized canonical URL
    and an empty AI summary. *)
Theorem new_item_is_saved env cfg s_item allNews s :
  wellFormedItem env s_item ->
  firestoreApp env = true ->
  (forall n, storeFault env n = Healthy) ->
  store s !! existsDocID (reconstructURL cfg (subjectHref s_item)) = None ->
  let run := processItem env cfg s_item allNews s in
  exists x,
    value run = allNews ++ [x]
    /\ Title x = cleanUTF8String (TrimSpace env (subjectText s_item))
    /\ Summary x = cleanUTF8String (teaserOf env s_item)
    /\ Source x = cleanUTF8String (sourceOf env s_item)
    /\ URL x = cleanUTF8String (reconstructURL cfg (subjectHref s_item))
    /\ AISummary x = ""
    /\ store (final run) = <[existsDocID (URL x) := toDocument x]> (store s)
    /\ In (EvStoreSet (existsDocID (URL x)) x) (events run).
Proof.
  intros Hwf Happ Hh Hnone run. unfold run.
  apply (proj1 (post_run (processItem env cfg s_item allNews) s
    (fun a' s' evs =>
       exists x,
         a' = allNews ++ [x]
         /\ Title x = cleanUTF8String (TrimSpace env (subjectText s_item))
         /\ Summary x = cleanUTF8String (teaserOf env s_item)
         /\ Source x = cleanUTF8String (sourceOf env s_item)
         /\ URL x = cleanUTF8String (reconstructURL cfg (subjectHref s_item))
         /\ AISummary x = ""
         /\ store s' = <[existsDocID (URL x) := toDocument x]> (store s)
         /\ In (EvStoreSet (existsDocID (URL x)) x) evs))).
  apply validation_passed in Hwf.
  unfold processItem. fold (teaserOf env s_item) (sourceOf env s_item).
  rewrite Hwf.
  unfold articleExistsInFirestore, saveArticleToFirestore.
  rewrite Happ. cbn [negb].
  change (saveDocID ?x) with (existsDocID (URL x)).
  repeat (wp_step; cbn [store calls app]; rewrite ?Hh, ?Hnone;
          try (eapply post_weaken; [apply fetchLoop_spec|];
               cbn [store calls]; intros ? ? ? (Hstore & ? & ?))).
  all: eexists; split; [reflexivity|]; cbn [Title Summary Source URL AISummary].
  all: repeat (split; [reflexivity|]).
  all: try match goal with
         | H : store ?s1 = store _ |- context [store ?s1] => rewrite H
         end.
  all: first [split; [reflexivity | find_in] | find_in].
Qed.

Lemma new_item_is_saved_witness :
  wellFormedItem Sample.env Example.item
  /\ exists x,
       value (processItem Sample.env Example.cfg Example.item []
                Example.empty) = [] ++ [x]
       /\ Title x = cleanUTF8String (TrimSpace Sample.env
                                       (subjectText Example.item)).
Proof.
  assert (Hwf : wellFormedItem Sample.env Example.item)
    by (repeat split; discriminate).
  split; [exact Hwf|].
  destruct (new_item_is_saved Sample.env Example.cfg Example.item []
              Example.empty Hwf eq_refl (fun n => eq_refl) eq_refl)
    as (x & Hval & Htitle & _).
  exists x. split; [exact Hval | exact Htitle].
Defined.

Lemma pageLoop_all_pages env cfg pages fuel pageNum allNews s :
  ListingsServed env cfg ->
  pages - pageNum + 1 <= Z.of_nat fuel ->
  post (pageLoop env cfg pages fuel pageNum allNews) s (fun r _ evs =>
    listingPages evs = pagesFrom pageNum (Z.to_nat (pages - pageNum + 1))
    /\ snd r = None).
Proof.
  intros Hsite. revert pageNum allNews s.
  induction fuel as [|fuel IH]; intros pageNum allNews s Hfuel.
  - replace (Z.to_nat (pages - pageNum + 1)) with 0%nat by lia.
    split; reflexivity.
  - cbn [pageLoop].
    destruct (Z.leb_spec pageNum pages) as [Hle|Hgt].
    2:{ replace (Z.to_nat (pages - pageNum + 1)) with 0%nat by lia.
        split; reflexivity. }
    destruct (Hsite (calls s) pageNum) as (Hreq & nodes & Hnodes & Hne).
    rewrite Hreq. cbn [negb].
    apply post_bind, post_tick, post_bind, post_emit. cbn [store calls app].
    unfold listingNodes in Hnodes.
    destruct (clientDo env (calls s) (pageURL cfg pageNum)) as [resp|];
      [|discriminate].
    destruct (StatusCode resp =? StatusOK); [|discriminate]. cbn [negb].
    destruct (body resp) as [| |doc]; try discriminate.
    inversion Hnodes; subst nodes.
    replace (Z.of_nat (length (newsList doc)) =? 0) with false
      by (symmetry; apply Z.eqb_neq; destruct (newsList doc);
          [contradiction | cbn [length]; lia]).
    apply post_bind. eapply post_weaken; [apply Each_events|].
    cbn beta. intros a1 s1 e1 Hitems.
    apply post_bind, post_log, post_bind, post_Intn, post_bind, post_sleep.
    cbn [store calls app].
    eapply post_weaken; [apply IH; lia|]. cbn beta.
    intros r s2 e2 [Hpages Herr]. split; [|exact Herr].
    replace (Z.to_nat (pages - pageNum + 1))
      with (S (Z.to_nat (pages - (pageNum + 1) + 1))) by lia.
    cbn [listingPages pagesFrom]. f_equal.
    rewrite listingPages_app, (listingPages_none e1 Hitems).
    cbn [app listingPages]. exact Hpages.
Qed.

(** X27: a run walks all the pages when nothing stops it: if the request
    of every listing page can be built and the site answers every listing
    request with a page that lists at least one node, the run requests the
    pages 1, 2, ..., [pages], all of them, and returns no error. *)
Theorem all_pages_crawled env cfg pages s :
  ListingsServed env cfg ->
  let run := CrawlNaverFinanceNews env cfg pages s in
  listingPages (events run) = pagesFrom 1 (Z.to_nat pages)
  /\ snd (value run) = None.
Proof.
  intros Hsite run. unfold run.
  rewrite (proj1 (Crawl_run env cfg pages s)),
    (proj2 (Crawl_run env cfg pages s)).
  pose proof (proj1 (post_run _ _ _)
    (pageLoop_all_pages env cfg pages (Z.to_nat pages) 1 [] s Hsite
       ltac:(lia))) as [Hpages Herr].
  cbn [listingPages]. replace (pages - 1 + 1) with pages in Hpages by lia.
  split; assumption.
Qed.

Lemma Sample_listings_served : ListingsServed Sample.env Example.cfg.
Proof.
  intros c j. split; [reflexivity|].
  exists [Example.item]. split; [|discriminate].
  unfold Sample.env, Example.world, Example.site. cbn [clientDo].
  replace (String.prefix (NaverFinanceBaseURL Example.cfg)
             (pageURL Example.cfg j)) with true
    by (symmetry; apply str_prefix_app; eexists; reflexivity).
  reflexivity.
Qed.

Lemma all_pages_crawled_witness :
  ListingsServed Sample.env Example.cfg
  /\ listingPages (events (CrawlNaverFinanceNews Sample.env Example.cfg 3
                             Example.empty)) = [1; 2; 3].
Proof.
  split; [exact Sample_listings_served|].
  exact (proj1 (all_pages_crawled Sample.env Example.cfg 3 Example.empty
                  Sample_listings_served)).
Defined.
